(** * Streaming Hoeffding trees, the HDDM_W change detector and chain models

    A shallow embedding of the Python sources

    - [creme/drift/hddm_w.py]                          (module [HDDM_W])
    - [creme/tree/hoeffding_tree_regressor.py]         (module [HTR])
    - [creme/tree/hoeffding_adaptive_tree_classifier.py]
      and [river/tree/hoeffding_adaptive_tree_classifier.py] (module [HATC])
    - [creme/multioutput/chain.py]                     (modules [Chain]
      and [ChainSetup])
    - [creme/tree/_attribute_observer/numeric_attribute_class_observer_gaussian.py]
      (module [GaussianObserver])

    and of the leaf switches of the creme adaptive classifier (module
    [AdaptiveLeaves]).

    Python floats are IEEE-754 binary64 numbers: they are modelled by Rocq's
    primitive floats, whose operations are the same correctly rounded ones.
    Python exceptions are modelled by the [Raise] constructor of [result];
    code that mutates [self] is written in a state-and-exception monad. *)

From Stdlib Require Import Floats ZArith Bool List Sorted.
From stdpp Require Import gmap strings list pretty.

Set Warnings "-inexact-float".
Set Default Proof Using "Type".

(** ** Python exceptions and results *)

Inductive exn : Set :=
| ZeroDivisionError
| ValueError
| KeyError
| TypeError
| AttributeError
| IndexError.

Inductive result (A : Type) : Type :=
| Ok (a : A)
| Raise (e : exn).
Arguments Ok {A} a.
Arguments Raise {A} e.

#[global] Instance result_ret : MRet result := @Ok.
#[global] Instance result_bind : MBind result :=
  λ A B f m, match m with Ok a => f a | Raise e => Raise e end.

Definition is_ok {A} (r : result A) : bool :=
  match r with Ok _ => true | Raise _ => false end.

(** Stateful code that may raise: the state reached when the exception is
    raised is kept, as the mutations done so far on a Python object are. *)
Definition M (S A : Type) : Type := S → result A * S.

#[global] Instance M_ret S : MRet (M S) := λ A a s, (Ok a, s).
#[global] Instance M_bind S : MBind (M S) :=
  λ A B f m s, match m s with
               | (Ok a, s') => f a s'
               | (Raise e, s') => (Raise e, s')
               end.

Definition get {S} : M S S := λ s, (Ok s, s).
Definition modify {S} (f : S → S) : M S unit := λ s, (Ok tt, f s).
Definition lift {S A} (r : result A) : M S A := λ s, (r, s).

(** What a method hands back when it has no [return] statement, and when it
    ends with [return self]. *)
Inductive returned : Set := PyNone | PySelf.

(** A stateful computation whose normal results all satisfy [P]. *)
Definition returns {S A} (P : A → Prop) (m : M S A) : Prop :=
  ∀ s r s', m s = (Ok r, s') → P r.

(** ** Python float operations that can raise *)

Module PyFloat.

(** [a / b] on floats raises [ZeroDivisionError] when [b == 0]. *)
Definition py_div (a b : float) : result float :=
  if (b =? 0)%float then Raise ZeroDivisionError else Ok (a / b)%float.

(** [math.sqrt] raises [ValueError] on a negative argument. *)
Definition py_sqrt (x : float) : result float :=
  if (x <? 0)%float then Raise ValueError else Ok (PrimFloat.sqrt x).

(** [math.log] raises [ValueError] on an argument [<= 0]; on the rest of
    its domain it is the C library's logarithm, taken as a parameter. *)
Definition py_log (ln : float → float) (x : float) : result float :=
  if (x <=? 0)%float then Raise ValueError else Ok (ln x).

(** Values of [math.log] at the points the examples below evaluate. *)
Definition ln_ref (x : float) : float :=
  if (x =? 1000)%float then 0x1.ba18a998fffap+2%float
  else if (x =? 200)%float then 0x1.5317a1b949c53p+2%float
  else if (x =? 10000000)%float then 0x1.01e3b843eaa73p+4%float
  else if (x =? infinity)%float then infinity
  else if (x =? 1)%float then 0%float
  else nan.

End PyFloat.
Export PyFloat.

(** A spec-level float is [NaN] or carries the sign [sx]. *)
Definition sign_or_nan (sx : bool) (r : spec_float) : Prop :=
  match r with
  | S754_nan => True
  | S754_zero s | S754_infinity s | S754_finite s _ _ => s = sx
  end.

(** ** HDDM_W: drift detection with a moving weighted average test *)

Module HDDM_W.

Record SampleInfo : Set := mkSampleInfo {
  EWMA_estimator : float;
  independent_bounded_condition_sum : float
}.

(** [SampleInfo.__init__] *)
Definition SampleInfo_new : SampleInfo := mkSampleInfo (-1.0)%float 0%float.

Record HDDM_W : Set := mkHDDM_W {
  _in_concept_change : bool;
  _in_warning_zone : bool;
  total : SampleInfo;
  sample1_decr_monitor : SampleInfo;
  sample1_incr_monitor : SampleInfo;
  sample2_decr_monitor : SampleInfo;
  sample2_incr_monitor : SampleInfo;
  incr_cutpoint : float;
  decr_cutpoint : float;
  width : Z;
  delay : Z;
  drift_confidence : float;
  warning_confidence : float;
  lambda_option : float;
  two_sided_test : bool;
  estimation : option float
}.

Definition set_flags (c w : bool) (s : HDDM_W) : HDDM_W :=
  mkHDDM_W c w (total s) (sample1_decr_monitor s) (sample1_incr_monitor s)
    (sample2_decr_monitor s) (sample2_incr_monitor s) (incr_cutpoint s)
    (decr_cutpoint s) (width s) (delay s) (drift_confidence s)
    (warning_confidence s) (lambda_option s) (two_sided_test s) (estimation s).

Definition set_total (t : SampleInfo) (s : HDDM_W) : HDDM_W :=
  mkHDDM_W (_in_concept_change s) (_in_warning_zone s) t
    (sample1_decr_monitor s) (sample1_incr_monitor s)
    (sample2_decr_monitor s) (sample2_incr_monitor s) (incr_cutpoint s)
    (decr_cutpoint s) (width s) (delay s) (drift_confidence s)
    (warning_confidence s) (lambda_option s) (two_sided_test s) (estimation s).

Definition set_width (w : Z) (s : HDDM_W) : HDDM_W :=
  mkHDDM_W (_in_concept_change s) (_in_warning_zone s) (total s)
    (sample1_decr_monitor s) (sample1_incr_monitor s)
    (sample2_decr_monitor s) (sample2_incr_monitor s) (incr_cutpoint s)
    (decr_cutpoint s) w (delay s) (drift_confidence s)
    (warning_confidence s) (lambda_option s) (two_sided_test s) (estimation s).

Definition set_delay (d : Z) (s : HDDM_W) : HDDM_W :=
  mkHDDM_W (_in_concept_change s) (_in_warning_zone s) (total s)
    (sample1_decr_monitor s) (sample1_incr_monitor s)
    (sample2_decr_monitor s) (sample2_incr_monitor s) (incr_cutpoint s)
    (decr_cutpoint s) (width s) d (drift_confidence s)
    (warning_confidence s) (lambda_option s) (two_sided_test s) (estimation s).

Definition set_estimation (e : option float) (s : HDDM_W) : HDDM_W :=
  mkHDDM_W (_in_concept_change s) (_in_warning_zone s) (total s)
    (sample1_decr_monitor s) (sample1_incr_monitor s)
    (sample2_decr_monitor s) (sample2_incr_monitor s) (incr_cutpoint s)
    (decr_cutpoint s) (width s) (delay s) (drift_confidence s)
    (warning_confidence s) (lambda_option s) (two_sided_test s) e.

(** The three assignments of the first branch of [_update_incr_statistics]. *)
Definition set_incr (cut : float) (s1 s2 : SampleInfo) (s : HDDM_W) : HDDM_W :=
  mkHDDM_W (_in_concept_change s) (_in_warning_zone s) (total s)
    (sample1_decr_monitor s) s1
    (sample2_decr_monitor s) s2 cut
    (decr_cutpoint s) (width s) (delay s) (drift_confidence s)
    (warning_confidence s) (lambda_option s) (two_sided_test s) (estimation s).

Definition set_sample2_incr (s2 : SampleInfo) (s : HDDM_W) : HDDM_W :=
  set_incr (incr_cutpoint s) (sample1_incr_monitor s) s2 s.

Definition set_decr (cut : float) (s1 s2 : SampleInfo) (s : HDDM_W) : HDDM_W :=
  mkHDDM_W (_in_concept_change s) (_in_warning_zone s) (total s)
    s1 (sample1_incr_monitor s)
    s2 (sample2_incr_monitor s) (incr_cutpoint s)
    cut (width s) (delay s) (drift_confidence s)
    (warning_confidence s) (lambda_option s) (two_sided_test s) (estimation s).

Definition set_sample2_decr (s2 : SampleInfo) (s : HDDM_W) : HDDM_W :=
  set_decr (decr_cutpoint s) (sample1_decr_monitor s) s2 s.

(** What the detector takes from outside this file: [math.log] on its domain,
    and the base class [creme.base.DriftDetector], which is not part of the
    sources: the flags its constructor leaves and what its [reset] does to
    the two flags are left open. *)
Class Externals : Type := {
  ln : float → float;
  base_init : bool * bool;
  base_reset : bool * bool → bool * bool
}.

Section Detector.

Context {ext : Externals}.

(** [super().reset()] *)
Definition super_reset (s : HDDM_W) : HDDM_W :=
  let f := base_reset (_in_concept_change s, _in_warning_zone s) in
  set_flags f.1 f.2 s.

(** [HDDM_W.__init__] *)
Definition init (drift_confidence warning_confidence lambda_option : float)
    (two_sided_test : bool) : HDDM_W :=
  let f := base_reset base_init in
  mkHDDM_W f.1 f.2 SampleInfo_new SampleInfo_new SampleInfo_new
    SampleInfo_new SampleInfo_new infinity infinity 0 0
    drift_confidence warning_confidence lambda_option two_sided_test None.

(** [HDDM_W.reset] *)
Definition reset (s : HDDM_W) : HDDM_W :=
  let s := super_reset s in
  mkHDDM_W (_in_concept_change s) (_in_warning_zone s)
    SampleInfo_new SampleInfo_new SampleInfo_new SampleInfo_new
    SampleInfo_new infinity infinity 0 0
    (drift_confidence s) (warning_confidence s) (lambda_option s)
    (two_sided_test s) (estimation s).

(** [sqrt(ibc * log(1 / confidence) / 2)], with the exceptions of its
    three partial operations in evaluation order. *)
Definition hoeffding_eps (ibc confidence : float) : result float :=
  q ← py_div 1 confidence;
  l ← py_log ln q;
  py_sqrt (ibc * l / 2)%float.

(** [HDDM_W._detect_mean_increment] *)
Definition _detect_mean_increment (sample1 sample2 : SampleInfo)
    (confidence : float) : result bool :=
  if ((EWMA_estimator sample1 <? 0) || (EWMA_estimator sample2 <? 0))%float
  then Ok false
  else
    let ibc_sum := (independent_bounded_condition_sum sample1
                    + independent_bounded_condition_sum sample2)%float in
    bound ← hoeffding_eps ibc_sum confidence;
    Ok (bound <? EWMA_estimator sample2 - EWMA_estimator sample1)%float.

(** [HDDM_W._monitor_mean_incr] *)
Definition _monitor_mean_incr (confidence : float) : M HDDM_W bool :=
  λ s, (_detect_mean_increment (sample1_incr_monitor s)
          (sample2_incr_monitor s) confidence, s).

(** [HDDM_W._monitor_mean_decr] *)
Definition _monitor_mean_decr (confidence : float) : M HDDM_W bool :=
  λ s, (_detect_mean_increment (sample2_decr_monitor s)
          (sample1_decr_monitor s) confidence, s).

(** The EWMA recurrence that [update] writes out for [total] and the two
    [_update_*_statistics] write out for their [sample2] monitor. *)
Definition ewma_step (lam aux_decay value : float) (m : SampleInfo) : SampleInfo :=
  if (EWMA_estimator m <? 0)%float then mkSampleInfo value 1
  else mkSampleInfo
         (lam * value + aux_decay * EWMA_estimator m)%float
         (lam * lam + aux_decay * aux_decay
                      * independent_bounded_condition_sum m)%float.

(** [HDDM_W._update_incr_statistics] *)
Definition _update_incr_statistics (value confidence : float) : M HDDM_W unit :=
  s ← get;
  let aux_decay := (1.0 - lambda_option s)%float in
  bound ← lift (hoeffding_eps
                  (independent_bounded_condition_sum (total s)) confidence);
  if (EWMA_estimator (total s) + bound <? incr_cutpoint s)%float then
    modify (set_incr (EWMA_estimator (total s) + bound)%float
              (mkSampleInfo (EWMA_estimator (total s))
                 (independent_bounded_condition_sum (total s)))
              SampleInfo_new);;
    modify (set_delay 0)
  else
    modify (λ s, set_delay (delay s + 1) s);;
    modify (λ s, set_sample2_incr
                   (ewma_step (lambda_option s) aux_decay value
                      (sample2_incr_monitor s)) s).

(** [HDDM_W._update_decr_statistics] *)
Definition _update_decr_statistics (value confidence : float) : M HDDM_W unit :=
  s ← get;
  let aux_decay := (1.0 - lambda_option s)%float in
  epsilon ← lift (hoeffding_eps
                    (independent_bounded_condition_sum (total s)) confidence);
  if (decr_cutpoint s <? EWMA_estimator (total s) - epsilon)%float then
    modify (set_decr (EWMA_estimator (total s) - epsilon)%float
              (mkSampleInfo (EWMA_estimator (total s))
                 (independent_bounded_condition_sum (total s)))
              SampleInfo_new)
  else
    modify (λ s, set_sample2_decr
                   (ewma_step (lambda_option s) aux_decay value
                      (sample2_decr_monitor s)) s).

(** [HDDM_W.update], lines 107-119: [width], [total] and the statistics of
    the increase test. *)
Definition update_stats (value : float) : M HDDM_W unit :=
  s ← get;
  let aux_decay_rate := (1.0 - lambda_option s)%float in
  modify (λ s, set_width (width s + 1) s);;
  modify (λ s, set_total
                 (ewma_step (lambda_option s) aux_decay_rate value (total s)) s);;
  _update_incr_statistics value (drift_confidence s).

(** [HDDM_W.update], lines 120-129: the two increase tests set the flags. *)
Definition update_incr_flags : M HDDM_W unit :=
  s ← get;
  drift ← _monitor_mean_incr (drift_confidence s);
  if drift : bool then
    modify reset;;
    modify (set_flags true false)
  else
    warning ← _monitor_mean_incr (warning_confidence s);
    if warning : bool then modify (set_flags false true)
    else modify (set_flags false false).

(** [HDDM_W.update], lines 131-134: the decrease side. The test is the
    short-circuit [self.two_sided_test and self._monitor_mean_decr(...)]. *)
Definition update_decr (value : float) : M HDDM_W unit :=
  s ← get;
  _update_decr_statistics value (drift_confidence s);;
  s ← get;
  decr ← (if two_sided_test s then _monitor_mean_decr (drift_confidence s)
          else (mret false : M HDDM_W bool));
  (if decr : bool then modify reset else (mret tt : M HDDM_W unit));;
  modify (λ s, set_estimation (Some (EWMA_estimator (total s))) s).

(** [HDDM_W.update] *)
Definition update (value : float) : M HDDM_W (bool * bool) :=
  update_stats value;;
  update_incr_flags;;
  update_decr value;;
  s ← get;
  mret (_in_concept_change s, _in_warning_zone s).

(** A caller's loop [for v in vs: detector.update(v)]: the outputs so far,
    the exception that ended the loop if one did, and the detector. *)
Fixpoint feed (vs : list float) (s : HDDM_W)
    : list (bool * bool) * option exn * HDDM_W :=
  match vs with
  | [] => ([], None, s)
  | v :: vs =>
      match update v s with
      | (Ok o, s') => let '(os, e, sf) := feed vs s' in (o :: os, e, sf)
      | (Raise e, s') => ([], Some e, s')
      end
  end.

(** The states a detector can be in: built by [__init__] and then driven
    by [update] (with any float, and whether or not it raised) and [reset]. *)
Inductive reachable : HDDM_W → Prop :=
| reachable_init dc wc lam ts : reachable (init dc wc lam ts)
| reachable_update v s : reachable s → reachable (update v s).2
| reachable_reset s : reachable s → reachable (reset s).

(** *** Notions used to state the properties of the detector *)

(** The increase test on the monitors of a state. *)
Definition monitor (s : HDDM_W) (confidence : float) : result bool :=
  _detect_mean_increment (sample1_incr_monitor s) (sample2_incr_monitor s)
    confidence.

(** The state [update] hands to [_update_incr_statistics]. *)
Definition with_total (value : float) (s : HDDM_W) : HDDM_W :=
  set_total (ewma_step (lambda_option s) (1.0 - lambda_option s) value (total s))
    (set_width (width s + 1) s).

(** The state the decrease side of [update] leaves when its test does not
    fire: [sample2_decr_monitor] has taken the value in, [estimation] is set. *)
Definition after_decr (value : float) (s : HDDM_W) : HDDM_W :=
  set_estimation (Some (EWMA_estimator (total s)))
    (set_sample2_decr
       (ewma_step (lambda_option s) (1.0 - lambda_option s) value
          (sample2_decr_monitor s)) s).

(** The decrease side has never moved its cut point. *)
Definition decr_idle (s : HDDM_W) : Prop :=
  decr_cutpoint s = infinity ∧ sample1_decr_monitor s = SampleInfo_new.

(** A detector with the parameters of [s], as [__init__] builds it. *)
Definition fresh_like (s : HDDM_W) : HDDM_W :=
  init (drift_confidence s) (warning_confidence s) (lambda_option s)
    (two_sided_test s).

(** A state without its flags and [estimation]; a state without these and
    without [sample2_decr_monitor]. *)
Definition core (s : HDDM_W) : HDDM_W :=
  set_estimation None (set_flags false false s).

Definition restore (s0 sf : HDDM_W) : HDDM_W :=
  set_estimation (estimation s0)
    (set_flags (_in_concept_change s0) (_in_warning_zone s0) sf).

Definition forget_decr2 (s : HDDM_W) : HDDM_W :=
  set_sample2_decr SampleInfo_new s.

Definition norm (s : HDDM_W) : HDDM_W := core (forget_decr2 s).

(** The input of the detector is a bit. *)
Definition is_bit (b : float) : Prop := b = 0%float ∨ b = 1%float.

(** The EWMA of a constant input [b] stays at [b]: a property of the decay
    [lam] in floating point arithmetic. *)
Definition ewma_fixed (lam b : float) : Prop :=
  (lam * b + (1.0 - lam) * b)%float = b.

Definition quiet (b : float) (m : SampleInfo) : Prop :=
  EWMA_estimator m = (-1.0)%float ∨ EWMA_estimator m = b.

Definition calm (b : float) (s : HDDM_W) : Prop :=
  decr_idle s ∧ quiet b (total s) ∧ quiet b (sample1_incr_monitor s)
  ∧ quiet b (sample2_incr_monitor s).

Definition no_signal (o : bool * bool) : Prop := o = (false, false).

(** The increase test as the specification words it, without the guard on
    uninitialised monitors: [sample2.EWMA - sample1.EWMA] exceeds
    [sqrt((sample1.varianceProxy + sample2.varianceProxy) ln(1/confidence)/2)]. *)
Definition exceeds_bound (sample1 sample2 : SampleInfo) (confidence : float) : bool :=
  (PrimFloat.sqrt ((independent_bounded_condition_sum sample1
                    + independent_bounded_condition_sum sample2)
                   * ln (1 / confidence) / 2)
   <? EWMA_estimator sample2 - EWMA_estimator sample1)%float.

(** The pair [update] returns according to the specification, from the state
    [s1] in which the statistics have been updated. *)
Definition stated_flags (s1 : HDDM_W) : bool * bool :=
  if exceeds_bound (sample1_incr_monitor s1) (sample2_incr_monitor s1)
       (drift_confidence s1) then (true, false)
  else if exceeds_bound (sample1_incr_monitor s1) (sample2_incr_monitor s1)
            (warning_confidence s1) then (false, true)
  else (false, false).

Definition stated_update : Prop :=
  ∀ s value s1 r sf,
    reachable s → is_bit value →
    update_stats value s = (Ok tt, s1) →
    update value s = (Ok r, sf) →
    r = stated_flags s1.

(** A state just after a reset: [reset()] was called, or [update] has just
    signalled a drift. *)
Definition just_reset (s : HDDM_W) : Prop :=
  (∃ s0, reachable s0 ∧ s = reset s0)
  ∨ (∃ s0 value warning, reachable s0 ∧ update value s0 = (Ok (true, warning), s)).



(** The reset law as the specification states it. *)
Definition stated_reset_law : Prop :=
  ∀ s b k,
    just_reset s → is_bit b →
    (feed (repeat b k) s).2 = (feed (repeat b k) (fresh_like s)).2
    ∧ Forall no_signal (feed (repeat b k) s).1.1.

End Detector.

(** *** Detectors used in the examples *)

(** [math.log] at the points needed, and a base class that clears the flags. *)
Definition reference : Externals :=
  {| ln := ln_ref; base_init := (false, false);
     base_reset := λ _, (false, false) |}.

(** [HDDM_W()] with the default parameters. *)
Definition default_detector : HDDM_W :=
  init (ext := reference) 0.001 0.005 0.05 false.

(** [HDDM_W(drift_confidence=1e-320)]: [1 / 1e-320] overflows to [inf]. *)
Definition strict_detector : HDDM_W :=
  init (ext := reference) 1e-320 0.005 0.05 false.

(** The default detector after thirty [0]s and seventeen [1]s: the next [1]
    signals a drift. *)
Definition before_drift : HDDM_W :=
  (feed (ext := reference)
     (repeat 0%float 30 ++ repeat 1%float 17) default_detector).2.

Definition at_drift : HDDM_W := (update (ext := reference) 1 before_drift).2.




End HDDM_W.

(** ** The Hoeffding tree regressor *)

Module HTR.

(** Nodes are Python objects: the tree holds references to them, and so do
    the split nodes for their children. *)
Definition loc : Set := nat.

(** [leaf_prediction]: ['mean'], ['model'] or ['adaptive']. *)
Inductive leaf_prediction_mode : Set := TARGET_MEAN | MODEL | ADAPTIVE.

(** The data the tree handles without looking inside: attribute names,
    sufficient statistics, instances, targets, split tests, leaf models, and
    what a leaf and the memory governor keep for themselves. *)
Class Data : Type := {
  attr : Type;
  attr_eq_dec :: EqDecision attr;
  attr_countable :: Countable attr;
  stats : Type;
  empty_stats : stats;
  instance : Type;
  target : Type;
  split_test : Type;
  get_atts_test_depends_on : split_test → list attr;
  leaf_model : Type;
  observers : Type;
  new_observers : observers;
  governor : Type
}.

Section Nodes.

Context {data : Data}.

(** Modelled from the spec: [AttributeSplitSuggestion] of
    [creme.tree._attribute_test] is not part of the sources; it is the spec's
    [SplitSuggestion{test, perBranchStats, merit}], the test being [None] for
    the null split. *)
Record AttributeSplitSuggestion : Type := mkSuggestion {
  suggestion_test : option split_test;
  resulting_class_distributions : list stats;
  merit : float
}.

(** [AttributeSplitSuggestion.num_splits] *)
Definition num_splits (s : AttributeSplitSuggestion) : nat :=
  length (resulting_class_distributions s).

(** [AttributeSplitSuggestion.resulting_stats_from_split] *)
Definition resulting_stats_from_split (s : AttributeSplitSuggestion) (i : nat)
    : option stats :=
  resulting_class_distributions s !! i.

(** Modelled from the spec: the node classes of [creme.tree._nodes] are not
    part of the sources. A leaf is the spec's Learning Node: [depth], [stats],
    [active], [lastSplitAttemptWeight], its attribute observers, and the
    attributes the split procedure has disabled at this leaf; the class of
    the leaf ([...Mean], [...Model], [...Adaptive]) is [leaf_mode]. *)
Record LearningNode : Type := mkLeaf {
  leaf_active : bool;
  leaf_mode : leaf_prediction_mode;
  leaf_stats : stats;
  leaf_depth : Z;
  leaf_own_model : option leaf_model;
  last_split_attempt_at : float;
  disabled_attributes : gset attr;
  attribute_observers : observers
}.

(** Modelled from the spec: a Split Node has a [splitTest], the [stats]
    captured at split time, and [children] indexed by branch. *)
Inductive node : Type :=
| Leaf (l : LearningNode)
| Split (test : split_test) (st : stats) (depth : Z) (children : gmap Z loc).

Definition node_depth (n : node) : Z :=
  match n with Leaf l => leaf_depth l | Split _ _ d _ => d end.

Definition node_stats (n : node) : stats :=
  match n with Leaf l => leaf_stats l | Split _ st _ _ => st end.

(** [FoundNode(node, parent, parent_branch)] *)
Record FoundNode : Set := mkFound {
  found_node : option loc;
  found_parent : option loc;
  found_parent_branch : Z
}.

Record tree : Type := mkTree {
  heap : gmap loc node;
  _tree_root : option loc;
  _n_active_leaves : Z;
  _n_inactive_leaves : Z;
  _n_decision_nodes : Z;
  grace_period : float;
  split_confidence : float;
  tie_threshold : float;
  leaf_prediction : leaf_prediction_mode;
  tree_leaf_model : leaf_model;
  remove_poor_atts : bool;
  max_depth : option Z;
  _growth_allowed : bool;
  memory_governor : governor
}.

Definition set_heap (h : gmap loc node) (t : tree) : tree :=
  mkTree h (_tree_root t) (_n_active_leaves t) (_n_inactive_leaves t)
    (_n_decision_nodes t) (grace_period t) (split_confidence t)
    (tie_threshold t) (leaf_prediction t) (tree_leaf_model t)
    (remove_poor_atts t) (max_depth t) (_growth_allowed t) (memory_governor t).

Definition set_root (r : option loc) (t : tree) : tree :=
  mkTree (heap t) r (_n_active_leaves t) (_n_inactive_leaves t)
    (_n_decision_nodes t) (grace_period t) (split_confidence t)
    (tie_threshold t) (leaf_prediction t) (tree_leaf_model t)
    (remove_poor_atts t) (max_depth t) (_growth_allowed t) (memory_governor t).

Definition set_n_active_leaves (n : Z) (t : tree) : tree :=
  mkTree (heap t) (_tree_root t) n (_n_inactive_leaves t)
    (_n_decision_nodes t) (grace_period t) (split_confidence t)
    (tie_threshold t) (leaf_prediction t) (tree_leaf_model t)
    (remove_poor_atts t) (max_depth t) (_growth_allowed t) (memory_governor t).

Definition set_n_inactive_leaves (n : Z) (t : tree) : tree :=
  mkTree (heap t) (_tree_root t) (_n_active_leaves t) n
    (_n_decision_nodes t) (grace_period t) (split_confidence t)
    (tie_threshold t) (leaf_prediction t) (tree_leaf_model t)
    (remove_poor_atts t) (max_depth t) (_growth_allowed t) (memory_governor t).

Definition set_n_decision_nodes (n : Z) (t : tree) : tree :=
  mkTree (heap t) (_tree_root t) (_n_active_leaves t) (_n_inactive_leaves t)
    n (grace_period t) (split_confidence t)
    (tie_threshold t) (leaf_prediction t) (tree_leaf_model t)
    (remove_poor_atts t) (max_depth t) (_growth_allowed t) (memory_governor t).

Definition set_last_split_attempt_at (w : float) (l : LearningNode) : LearningNode :=
  mkLeaf (leaf_active l) (leaf_mode l) (leaf_stats l) (leaf_depth l)
    (leaf_own_model l) w (disabled_attributes l) (attribute_observers l).

(** Modelled from the spec: [disable_attribute] of the leaf classes is not
    part of the sources; a disabled attribute is "no longer considered at
    this leaf in future split attempts". *)
Definition disable_attribute (a : attr) (l : LearningNode) : LearningNode :=
  mkLeaf (leaf_active l) (leaf_mode l) (leaf_stats l) (leaf_depth l)
    (leaf_own_model l) (last_split_attempt_at l)
    ({[a]} ∪ disabled_attributes l) (attribute_observers l).

End Nodes.

(** The collaborators of the tree that are not part of the sources: methods
    of the node classes, of the split criterion and of the base class
    [DecisionTree]. *)
Class Collaborators {data : Data} : Type := {
  (* [node.get_best_split_suggestions(split_criterion, self)] *)
  get_best_split_suggestions : LearningNode → tree → list AttributeSplitSuggestion;
  (* the result of [list.sort] on candidates one of whose merits is NaN *)
  sort_with_nan : list AttributeSplitSuggestion → list AttributeSplitSuggestion;
  (* [split_criterion.get_range_of_merit(node.stats)] *)
  get_range_of_merit : stats → float;
  (* [self._hoeffding_bound(range, confidence, n)] *)
  _hoeffding_bound : float → float → float → result float;
  (* [node.total_weight] *)
  total_weight : LearningNode → float;
  (* [node.manage_memory(criterion, last_check_ratio, last_check_vr, bound)] *)
  manage_memory : float → float → float → LearningNode → LearningNode;
  (* [self._enforce_size_limit()] *)
  _enforce_size_limit : tree → tree;
  (* [self._tree_root.filter_instance_to_leaf(x, None, -1)] *)
  filter_instance_to_leaf : tree → loc → instance → FoundNode;
  (* [leaf_node.learn_one(x, y, sample_weight=..., tree=self)] *)
  leaf_learn_one : instance → target → float → tree → LearningNode → LearningNode;
  (* [leaf_node.predict_one(x, tree=self)] *)
  leaf_predict_one : LearningNode → instance → tree → result float;
  (* [node.stats[1] / node.stats[0]] reads these two entries *)
  stats_sum : stats → float;
  stats_count : stats → float;
  (* [split_test.add_new_branch(x[split_test.get_atts_test_depends_on()[0]])] *)
  add_new_branch : split_test → instance → result (split_test * Z);
  (* [self._train_weight_seen_by_model % self.memory_estimate_period == 0] *)
  memory_estimate_due : tree → result bool;
  (* [self._estimate_model_size()] *)
  _estimate_model_size : tree → tree
}.

Section Regressor.

Context {data : Data} {env : Collaborators}.

Definition raise {A} (e : exn) : M tree A := λ t, (Raise e, t).

(** Attribute access on the object a reference points to. *)
Definition read_node (l : loc) : M tree node :=
  λ t, match heap t !! l with
       | Some n => (Ok n, t)
       | None => (Raise AttributeError, t)
       end.

Definition read_leaf (l : loc) : M tree LearningNode :=
  n ← read_node l;
  match n with
  | Leaf lf => mret lf
  | Split _ _ _ _ => raise AttributeError
  end.

Definition write_node (l : loc) (n : node) : M tree unit :=
  modify (λ t, set_heap (<[l := n]> (heap t)) t).

(** Mutation of a leaf object in place. *)
Definition update_leaf (l : loc) (f : LearningNode → LearningNode) : M tree unit :=
  lf ← read_leaf l;
  write_node l (Leaf (f lf)).

(** A new object gets a reference no live object has. *)
Definition alloc (n : node) : M tree loc :=
  λ t, let l := fresh (dom (heap t)) in
       (Ok l, set_heap (<[l := n]> (heap t)) t).

(** Modelled from the spec: [SplitNode.set_child] is not part of the
    sources; [children] is indexed by branch. Calling it on [None] or on a
    leaf is an [AttributeError]. *)
Definition set_child (parent : loc) (branch : Z) (child : loc) : M tree unit :=
  n ← read_node parent;
  match n with
  | Split test st d children =>
      write_node parent (Split test st d (<[branch := child]> children))
  | Leaf _ => raise AttributeError
  end.

(** [HoeffdingTreeRegressor._new_learning_node]: the leaf object it builds.
    [parent_depth] is [None] when [parent is None]. *)
Definition _new_learning_node (initial_stats : option stats)
    (parent_depth : option Z) (is_active : bool) (t : tree) : LearningNode :=
  let initial_stats := default empty_stats initial_stats in
  let depth := match parent_depth with Some d => (d + 1)%Z | None => 0%Z end in
  let own_model :=
    match leaf_prediction t with
    | TARGET_MEAN => None
    | MODEL | ADAPTIVE => Some (tree_leaf_model t)
    end in
  mkLeaf is_active (leaf_prediction t) initial_stats depth own_model
    0%float ∅ new_observers.

(** Modelled from the spec: [DecisionTree._new_split_node] is not part of
    the sources; the new Split Node carries the test, the statistics captured
    at split time and no child yet. *)
Definition _new_split_node (test : split_test) (st : stats) (depth : Z) : node :=
  Split test st depth ∅.

(** Modelled from the spec: [DecisionTree._deactivate_leaf] is not part of
    the sources. The leaf is frozen in place: an inactive leaf with the same
    statistics takes its place under its parent (or as root), and the two
    leaf counters move together, as the override of the adaptive classifier
    does. *)
Definition _deactivate_leaf (to_deactivate : loc) (parent : option loc)
    (parent_branch : Z) : M tree unit :=
  lf ← read_leaf to_deactivate;
  t ← get;
  pd ← match parent with
       | Some p => n ← read_node p; mret (Some (node_depth n))
       | None => (mret None : M tree (option Z))
       end;
  new_leaf ← alloc (Leaf (_new_learning_node (Some (leaf_stats lf)) pd false t));
  match parent with
  | None => modify (set_root (Some new_leaf))
  | Some p => set_child p parent_branch new_leaf
  end;;
  modify (λ t, set_n_active_leaves (_n_active_leaves t - 1) t);;
  modify (λ t, set_n_inactive_leaves (_n_inactive_leaves t + 1) t).

(** The stable sort by merit. Python's [list.sort] is stable and compares
    keys with [<] only: on merits that [<] orders, that is when none is NaN,
    it has one possible result, the one of this insertion sort. *)
Fixpoint insert_by_merit (c : AttributeSplitSuggestion)
    (l : list AttributeSplitSuggestion) : list AttributeSplitSuggestion :=
  match l with
  | [] => [c]
  | d :: l' => if (merit d <? merit c)%float then d :: insert_by_merit c l'
               else c :: d :: l'
  end.

Definition sort_by_merit (l : list AttributeSplitSuggestion)
    : list AttributeSplitSuggestion :=
  foldr insert_by_merit [] l.

(** [best_split_suggestions.sort(key=attrgetter('merit'))]. With a NaN among
    the merits, [<] is no order and the result of [list.sort] depends on how
    the interpreter sorts (the run it finds first, its binary insertions and
    merges), which is not part of the sources: it is [sort_with_nan]. *)
Definition list_sort (l : list AttributeSplitSuggestion)
    : list AttributeSplitSuggestion :=
  if forallb (λ c, (merit c =? merit c)%float) l then sort_by_merit l
  else sort_with_nan l.

(** [best_split_suggestions[-1]] and [best_split_suggestions[-2]] *)
Definition best_two (l : list AttributeSplitSuggestion)
    : option (AttributeSplitSuggestion * AttributeSplitSuggestion) :=
  match rev l with
  | best :: second :: _ => Some (best, second)
  | _ => None
  end.

(** The condition of lines 285-287, with Python's short-circuit evaluation:
    the quotient is only computed when [best.merit > 0.0]. *)
Definition split_condition (best second : AttributeSplitSuggestion)
    (hoeffding_bound tie : float) : result bool :=
  if (0 <? merit best)%float then
    ratio ← py_div (merit second) (merit best);
    Ok ((ratio <? 1 - hoeffding_bound) || (hoeffding_bound <? tie))%float
  else Ok false.

(** The loop of lines 294-301 over the sorted suggestions. *)
Fixpoint poor_atts_scan (suggestions : list AttributeSplitSuggestion)
    (best_merit best_ratio hoeffding_bound : float)
    (poor_atts : gset attr) : result (gset attr) :=
  match suggestions with
  | [] => Ok poor_atts
  | c :: rest =>
      poor_atts ←
        match suggestion_test c with
        | Some test =>
            match get_atts_test_depends_on test with
            | [a] =>
                r ← py_div (merit c) best_merit;
                if (r <? best_ratio - 2 * hoeffding_bound)%float
                then Ok ({[a]} ∪ poor_atts) else Ok poor_atts
            | _ => Ok poor_atts
            end
        | None => Ok poor_atts
        end;
      poor_atts_scan rest best_merit best_ratio hoeffding_bound poor_atts
  end.

(** [for poor_att in poor_atts: node.disable_attribute(poor_att)] *)
Definition disable_attributes (poor_atts : gset attr) (l : LearningNode)
    : LearningNode :=
  foldr disable_attribute l (elements poor_atts).

(** What the first half of [_attempt_to_split] leaves for the second: the
    sorted suggestions, [should_split], and [hoeffding_bound] when it was
    computed. *)
Record decision : Type := mkDecision {
  best_split_suggestions : list AttributeSplitSuggestion;
  should_split : bool;
  hoeffding_bound : option float
}.

(** [_attempt_to_split], lines 273-303: the split decision and the removal
    of poor attributes. *)
Definition split_decision (node : loc) : M tree decision :=
  lf ← read_leaf node;
  t ← get;
  let suggestions := list_sort (get_best_split_suggestions lf t) in
  if (length suggestions <? 2)%nat then
    mret (mkDecision suggestions (0 <? length suggestions)%nat None)
  else
    hb ← lift (_hoeffding_bound (get_range_of_merit (leaf_stats lf))
                 (split_confidence t) (total_weight lf));
    match best_two suggestions with
    | None => raise IndexError
    | Some (best_suggestion, second_best_suggestion) =>
        approved ← lift (split_condition best_suggestion second_best_suggestion
                           hb (tie_threshold t));
        (if remove_poor_atts t then
           best_ratio ← lift (py_div (merit second_best_suggestion)
                                (merit best_suggestion));
           poor_atts ← lift (poor_atts_scan suggestions (merit best_suggestion)
                               best_ratio hb ∅);
           update_leaf node (disable_attributes poor_atts)
         else (mret tt : M tree unit));;
        mret (mkDecision suggestions approved (Some hb))
    end.

(** The loop of lines 311-314: one new leaf per branch. *)
Fixpoint add_children (split_decision : AttributeSplitSuggestion)
    (node new_split : loc) (branches : list nat) : M tree unit :=
  match branches with
  | [] => mret tt
  | i :: rest =>
      parent ← read_node node;
      t ← get;
      new_child ← alloc (Leaf (_new_learning_node
                                 (resulting_stats_from_split split_decision i)
                                 (Some (node_depth parent)) true t));
      set_child new_split (Z.of_nat i) new_child;;
      add_children split_decision node new_split rest
  end.

(** [_attempt_to_split], lines 305-321: what an approved split does, before
    the memory governor is called. *)
Definition apply_split (split_decision : AttributeSplitSuggestion)
    (node : loc) (parent : option loc) (parent_idx : Z) : M tree unit :=
  match suggestion_test split_decision with
  | None => _deactivate_leaf node parent parent_idx
  | Some test =>
      n ← read_node node;
      new_split ← alloc (_new_split_node test (node_stats n) (node_depth n));
      add_children split_decision node new_split
        (seq 0 (num_splits split_decision));;
      modify (λ t, set_n_active_leaves (_n_active_leaves t - 1) t);;
      modify (λ t, set_n_decision_nodes (_n_decision_nodes t + 1) t);;
      modify (λ t, set_n_active_leaves
                     (_n_active_leaves t + Z.of_nat (num_splits split_decision)) t);;
      match parent with
      | None => modify (set_root (Some new_split))
      | Some p => set_child p parent_idx new_split
      end
  end.

(** [HoeffdingTreeRegressor._attempt_to_split] *)
Definition _attempt_to_split (node : loc) (parent : option loc)
    (parent_idx : Z) : M tree unit :=
  d ← split_decision node;
  if should_split d then
    match last (best_split_suggestions d) with
    | None => raise IndexError
    | Some winner => apply_split winner node parent parent_idx
    end;;
    modify _enforce_size_limit
  else
    match best_two (best_split_suggestions d), hoeffding_bound d with
    | Some (best, second), Some hb =>
        if ((0 <? merit best) && (0 <? merit second))%float then
          last_check_ratio ← lift (py_div (merit second) (merit best));
          update_leaf node (manage_memory last_check_ratio (merit best) hb)
        else mret tt
    | _, _ => mret tt
    end.

(** [HoeffdingTreeRegressor.learn_one]: it has no [return] statement. *)
Definition learn_one (x : instance) (y : target) (sample_weight : float)
    : M tree returned :=
  t ← get;
  (if _tree_root t is None then
     root ← alloc (Leaf (_new_learning_node None None true t));
     modify (set_root (Some root));;
     modify (set_n_active_leaves 1)
   else mret tt);;
  t ← get;
  root ← (match _tree_root t with Some r => mret r | None => raise AttributeError end);
  let found := filter_instance_to_leaf t root x in
  leaf_node ←
    match found_node found with
    | Some l => mret l
    | None =>
        l ← alloc (Leaf (_new_learning_node None None true t));
        match found_parent found with
        | Some p => set_child p (found_parent_branch found) l
        | None => raise AttributeError
        end;;
        modify (λ t, set_n_active_leaves (_n_active_leaves t + 1) t);;
        mret l
    end;
  n ← read_node leaf_node;
  match n with
  | Leaf _ =>
      t ← get;
      update_leaf leaf_node (leaf_learn_one x y sample_weight t);;
      lf ← read_leaf leaf_node;
      t ← get;
      if _growth_allowed t && leaf_active lf then
        if (match max_depth t with
            | Some m => bool_decide (m ≤ leaf_depth lf)%Z
            | None => false
            end) then
          _deactivate_leaf leaf_node (found_parent found) (found_parent_branch found)
        else
          let weight_seen := total_weight lf in
          let weight_diff := (weight_seen - last_split_attempt_at lf)%float in
          if (grace_period t <=? weight_diff)%float then
            _attempt_to_split leaf_node (found_parent found)
              (found_parent_branch found);;
            update_leaf leaf_node (set_last_split_attempt_at weight_seen)
          else mret tt
      else mret tt
  | Split test st d children =>
      let current := leaf_node in
      t ← get;
      l ← alloc (Leaf (_new_learning_node None (Some d) true t));
      '(test', branch_id) ← lift (add_new_branch test x);
      write_node current (Split test' st d children);;
      set_child current branch_id l;;
      modify (λ t, set_n_active_leaves (_n_active_leaves t + 1) t);;
      t ← get;
      update_leaf l (leaf_learn_one x y sample_weight t)
  end;;
  t ← get;
  due ← lift (memory_estimate_due t);
  (if due : bool then modify _estimate_model_size else mret tt);;
  mret PyNone.

(** [HoeffdingTreeRegressor.predict_one] *)
Definition predict_one (x : instance) : M tree float :=
  t ← get;
  match _tree_root t with
  | Some root =>
      match found_node (filter_instance_to_leaf t root x) with
      | None => raise AttributeError
      | Some l =>
          n ← read_node l;
          match n with
          | Leaf lf => lift (leaf_predict_one lf x t)
          | Split _ st _ _ => lift (py_div (stats_sum st) (stats_count st))
          end
      end
  | None => mret 0%float
  end.

(** [HoeffdingTreeRegressor.__init__] with the counters and the empty root
    the base class starts from. *)
Definition new_tree (grace_period split_confidence tie_threshold : float)
    (leaf_prediction : leaf_prediction_mode) (model : leaf_model)
    (remove_poor_atts : bool) (max_depth : option Z) (g : governor) : tree :=
  mkTree ∅ None 0 0 0 grace_period split_confidence tie_threshold
    leaf_prediction model remove_poor_atts max_depth true g.

(** *** Notions used to state the properties of the split procedure *)

Definition approved (r : result decision) : bool :=
  match r with Ok d => should_split d | Raise _ => false end.

(** The rule of the specification for two or more candidates. *)
Definition approval_rule (best second : AttributeSplitSuggestion) (hb tie : float) : bool :=
  ((0 <? merit best) && ((merit second / merit best <? 1 - hb) || (hb <? tie)))%float.

(** The counters and the root of a tree. *)
Definition shape (t : tree) : option loc * Z * Z * Z :=
  (_tree_root t, _n_active_leaves t, _n_inactive_leaves t, _n_decision_nodes t).

Definition is_leaf_at (t : tree) (l : loc) : Prop :=
  ∃ lf, heap t !! l = Some (Leaf lf).

(** An attribute is poor when a candidate that tests it alone has a merit
    ratio more than [2 * hb] below the ratio of the two best. *)
Definition is_poor (suggestions : list AttributeSplitSuggestion)
    (best second : AttributeSplitSuggestion) (hb : float) (a : attr) : Prop :=
  ∃ c test,
    c ∈ suggestions ∧ suggestion_test c = Some test
    ∧ get_atts_test_depends_on test = [a]
    ∧ (merit c / merit best <? merit second / merit best - 2 * hb)%float = true.

Definition same_config (t t' : tree) : Prop := set_heap ∅ t' = set_heap ∅ t.

(** The children a new Split Node gets from the loop of [apply_split]. *)
Definition children_map (cm : gmap Z loc) (branches : list nat) (cs : list loc)
    : gmap Z loc :=
  foldl (λ m ic, <[Z.of_nat ic.1 := ic.2]> m) cm (zip branches cs).

Definition placed_under (t : tree) (parent : option loc) (idx : Z) (l : loc) : Prop :=
  match parent with
  | None => _tree_root t = Some l
  | Some p => ∃ test st d cm,
      heap t !! p = Some (Split test st d cm) ∧ cm !! idx = Some l
  end.

Definition is_split_at (t : tree) (l : loc) : Prop :=
  ∃ test st d cm, heap t !! l = Some (Split test st d cm).

(** The tree [t2] is [t1] with the leaf [n] split on [test]: a new Split
    Node with one new active leaf per branch stands where the parent (or the
    root) pointed, and the counters have moved. *)
Definition split_into (winner : AttributeSplitSuggestion) (test : split_test)
    (n : node) (parent : option loc) (idx : Z) (t1 t2 : tree) : Prop :=
  ∃ (new_split : loc) (children : list loc),
    (new_split ∉ dom (heap t1))
    ∧ length children = num_splits winner
    ∧ NoDup children
    ∧ (∀ c, c ∈ children → (c ∉ dom (heap t1)) ∧ c ≠ new_split)
    ∧ heap t2 !! new_split
      = Some (Split test (node_stats n) (node_depth n)
                (children_map ∅ (seq 0 (num_splits winner)) children))
    ∧ (∀ i c, children !! i = Some c →
         ∃ st lf,
           resulting_class_distributions winner !! i = Some st
           ∧ heap t2 !! c = Some (Leaf lf)
           ∧ lf = _new_learning_node (Some st) (Some (node_depth n)) true t1
           ∧ leaf_stats lf = st ∧ leaf_active lf = true
           ∧ leaf_depth lf = (node_depth n + 1)%Z)
    ∧ placed_under t2 parent idx new_split
    ∧ _n_decision_nodes t2 = (_n_decision_nodes t1 + 1)%Z
    ∧ _n_active_leaves t2
      = (_n_active_leaves t1 + (Z.of_nat (num_splits winner) - 1))%Z
    ∧ _n_inactive_leaves t2 = _n_inactive_leaves t1.

(** The tree [t2] is [t1] with the leaf [lf] deactivated in place. *)
Definition deactivated_in (lf : LearningNode) (parent : option loc) (idx : Z)
    (t1 t2 : tree) : Prop :=
  ∃ (new_leaf : loc) (lf' : LearningNode),
    (new_leaf ∉ dom (heap t1))
    ∧ heap t2 !! new_leaf = Some (Leaf lf')
    ∧ leaf_active lf' = false
    ∧ leaf_stats lf' = leaf_stats lf
    ∧ placed_under t2 parent idx new_leaf
    ∧ _n_decision_nodes t2 = _n_decision_nodes t1
    ∧ _n_active_leaves t2 = (_n_active_leaves t1 - 1)%Z
    ∧ _n_inactive_leaves t2 = (_n_inactive_leaves t1 + 1)%Z.

Definition parent_ok (t : tree) (parent : option loc) : Prop :=
  match parent with None => True | Some p => is_split_at t p end.

(** The approval rule as the specification states it, with its two edge
    cases. *)
Definition stated_split_approval : Prop :=
  ∀ node lf t,
    heap t !! node = Some (Leaf lf) →
    let suggestions := list_sort (get_best_split_suggestions lf t) in
    let ok := approved (split_decision node t).1 in
    (∀ best second hb,
       best_two suggestions = Some (best, second) →
       _hoeffding_bound (get_range_of_merit (leaf_stats lf))
         (split_confidence t) (total_weight lf) = Ok hb →
       ok = approval_rule best second hb (tie_threshold t))
    ∧ (length suggestions < 2 → ok = bool_decide (suggestions ≠ []))
    ∧ (∀ best, last suggestions = Some best →
               (merit best =? 0)%float = true → ok = false).

(** Poor-attribute pruning as the specification states it: an attribute
    gets disabled exactly when the split is approved and the attribute is
    poor. *)
Definition stated_poor_attribute_pruning : Prop :=
  ∀ node lf t d t' lf' a,
    heap t !! node = Some (Leaf lf) →
    split_decision node t = (Ok d, t') →
    heap t' !! node = Some (Leaf lf') →
    a ∉ disabled_attributes lf →
    (a ∈ disabled_attributes lf' ↔
     should_split d = true
     ∧ ∃ best second hb,
         best_two (best_split_suggestions d) = Some (best, second)
         ∧ hoeffding_bound d = Some hb
         ∧ is_poor (best_split_suggestions d) best second hb a).

End Regressor.

(** *** Trees used in the examples *)

(** Attributes and split tests are names, statistics are numbers; a test
    depends on the attribute it names. *)
Definition demo_data : Data :=
  {| attr := string; attr_eq_dec := _; attr_countable := _;
     stats := Z; empty_stats := 0%Z;
     instance := unit; target := unit;
     split_test := string; get_atts_test_depends_on := λ a, [a];
     leaf_model := unit; observers := unit; new_observers := tt;
     governor := unit |}.

(** Modelled from CPython 3.11 ([Objects/listobject.c], which is not part of
    the sources): how [list.sort] orders fewer than 64 elements. It takes the
    run the list starts with, reversed when it is strictly descending, and
    inserts the other elements one by one at the place a binary search
    gives; [lt a b] is [key(a) < key(b)]. *)
Section ShortListSort.

Context {A : Type} (lt : A → A → bool).

Fixpoint count_descending (previous : A) (rest : list A) : nat :=
  match rest with
  | c :: rest => if lt c previous then S (count_descending c rest) else 0
  | [] => 0
  end.

Fixpoint count_ascending (previous : A) (rest : list A) : nat :=
  match rest with
  | c :: rest => if lt c previous then 0 else S (count_ascending c rest)
  | [] => 0
  end.

(** [count_run]: the length of the first run, and whether it descends. *)
Definition count_run (l : list A) : nat * bool :=
  match l with
  | [] => (0, false)
  | [_] => (1, false)
  | a :: b :: rest =>
      if lt b a then (2 + count_descending b rest, true)
      else (2 + count_ascending b rest, false)
  end.

(** The binary search of [binarysort] between [l] and [r]; the interval
    halves at each step, so that the length of [sorted] is fuel enough. *)
Fixpoint bisect (fuel : nat) (pivot : A) (sorted : list A) (l r : nat) : nat :=
  match fuel with
  | 0 => l
  | S fuel =>
      if (l <? r)%nat then
        let p := l + (r - l) / 2 in
        match sorted !! p with
        | Some x => if lt pivot x then bisect fuel pivot sorted l p
                    else bisect fuel pivot sorted (p + 1) r
        | None => l
        end
      else l
  end.

(** One step of [binarysort]. *)
Definition binary_insert (sorted : list A) (pivot : A) : list A :=
  let l := bisect (length sorted) pivot sorted 0 (length sorted) in
  take l sorted ++ pivot :: drop l sorted.

Definition short_list_sort (l : list A) : list A :=
  let '(n, descending) := count_run l in
  let run := if descending : bool then rev (take n l) else take n l in
  foldl binary_insert run (drop n l).

End ShortListSort.

(** Collaborators that give every leaf the same candidates and the same
    Hoeffding bound, route every instance to the root, and leave the rest
    alone; with a NaN merit the candidates are sorted as CPython sorts a
    short list. *)
Definition demo_env
    (candidates : list (AttributeSplitSuggestion (data := demo_data)))
    (bound : float) : Collaborators (data := demo_data) :=
  {| get_best_split_suggestions := λ _ _, candidates;
     sort_with_nan :=
       short_list_sort (λ a b, (merit (data := demo_data) a <? merit b)%float);
     get_range_of_merit := λ _, 1%float;
     _hoeffding_bound := λ _ _ _, Ok bound;
     total_weight := λ _, 200%float;
     manage_memory := λ _ _ _ l, l;
     _enforce_size_limit := λ t, t;
     filter_instance_to_leaf := λ _ root _, mkFound (Some root) None (-1);
     leaf_learn_one := λ _ _ _ _ l, l;
     leaf_predict_one := λ _ _ _, Ok 0%float;
     stats_sum := λ _, 0%float;
     stats_count := λ _, 1%float;
     add_new_branch := λ test _, Ok (test, 0%Z);
     memory_estimate_due := λ _, Ok false;
     _estimate_model_size := λ t, t |}.

Definition demo_leaf : LearningNode (data := demo_data) :=
  mkLeaf (data := demo_data) true TARGET_MEAN 7%Z 0 None 0%float ∅ tt.

(** A tree whose root is an active leaf. *)
Definition demo_tree (remove_poor_atts : bool) : tree (data := demo_data) :=
  mkTree (data := demo_data) {[ 0%nat := Leaf demo_leaf ]} (Some 0%nat) 1 0 0
    200 1e-7 0.05 TARGET_MEAN tt remove_poor_atts None true tt.

(** [HoeffdingTreeRegressor(leaf_prediction='mean')] before any [learn_one]. *)
Definition empty_tree : tree (data := demo_data) :=
  new_tree (data := demo_data) 200 1e-7 0.05 TARGET_MEAN tt false None tt.

(** One candidate, a real test, of merit [0]. *)
Definition one_candidate : list (AttributeSplitSuggestion (data := demo_data)) :=
  [mkSuggestion (data := demo_data) (Some "x") [3; 4]%Z 0%float].

(** Three candidates whose two best are close, and one poor one. *)
Definition three_candidates : list (AttributeSplitSuggestion (data := demo_data)) :=
  [mkSuggestion (data := demo_data) (Some "a") [3; 4]%Z 0.1%float;
   mkSuggestion (data := demo_data) (Some "b") [3; 4]%Z 0.9%float;
   mkSuggestion (data := demo_data) (Some "c") [3; 4]%Z 1%float].

(** Five candidates, one of them with the merit [NaN]. *)
Definition nan_candidates : list (AttributeSplitSuggestion (data := demo_data)) :=
  [mkSuggestion (data := demo_data) (Some "a") [3; 4]%Z 1%float;
   mkSuggestion (data := demo_data) (Some "b") [3; 4]%Z 0%float;
   mkSuggestion (data := demo_data) (Some "c") [3; 4]%Z nan;
   mkSuggestion (data := demo_data) (Some "d") [3; 4]%Z 0%float;
   mkSuggestion (data := demo_data) (Some "e") [3; 4]%Z 2%float].

(** A clear winner with three branches. *)
Definition clear_winner : list (AttributeSplitSuggestion (data := demo_data)) :=
  [mkSuggestion (data := demo_data) (Some "b") [1; 2; 4]%Z 1%float;
   mkSuggestion (data := demo_data) (Some "a") [3; 4]%Z 0.2%float].

(** The null split wins. *)
Definition null_wins : list (AttributeSplitSuggestion (data := demo_data)) :=
  [mkSuggestion (data := demo_data) None [7]%Z 1%float;
   mkSuggestion (data := demo_data) (Some "a") [3; 4]%Z 0.2%float].

End HTR.

(** ** The Hoeffding adaptive tree classifier, in its two versions *)

Module HATC.

(** The data the classifier handles without looking inside. The node
    classes ([AdaLearningNode], [AdaSplitNode], [InactiveLearningNodeMC], ...)
    are not part of the sources: a node is an opaque object. *)
Class Data : Type := {
  label : Type;
  label_eq_dec :: EqDecision label;
  label_countable :: Countable label;
  instance : Type;
  stats : Type;
  seed : Type;
  node : Type;
  other_attributes : Type
}.

Section Tree.

Context {data : Data}.

(** A class-weight distribution: a Python dict from class to weight. *)
Definition dist : Type := gmap label float.

(** [FoundNode(node, parent, parent_branch)] *)
Record FoundNode : Type := mkFound {
  found_node : option node;
  found_parent : option node;
  found_parent_branch : Z
}.

Record tree : Type := mkTree {
  _tree_root : option node;
  classes : gset label;
  _train_weight_seen_by_model : float;
  _n_active_leaves : Z;
  _n_alternate_trees : Z;
  _n_pruned_alternate_trees : Z;
  _n_switch_alternate_trees : Z;
  adwin_confidence : float;
  random_state : seed;
  others : other_attributes
}.

Definition set_root (r : option node) (t : tree) : tree :=
  mkTree r (classes t) (_train_weight_seen_by_model t) (_n_active_leaves t)
    (_n_alternate_trees t) (_n_pruned_alternate_trees t)
    (_n_switch_alternate_trees t) (adwin_confidence t) (random_state t) (others t).

Definition set_classes (c : gset label) (t : tree) : tree :=
  mkTree (_tree_root t) c (_train_weight_seen_by_model t) (_n_active_leaves t)
    (_n_alternate_trees t) (_n_pruned_alternate_trees t)
    (_n_switch_alternate_trees t) (adwin_confidence t) (random_state t) (others t).

Definition set_train_weight (w : float) (t : tree) : tree :=
  mkTree (_tree_root t) (classes t) w (_n_active_leaves t)
    (_n_alternate_trees t) (_n_pruned_alternate_trees t)
    (_n_switch_alternate_trees t) (adwin_confidence t) (random_state t) (others t).

Definition set_n_active_leaves (n : Z) (t : tree) : tree :=
  mkTree (_tree_root t) (classes t) (_train_weight_seen_by_model t) n
    (_n_alternate_trees t) (_n_pruned_alternate_trees t)
    (_n_switch_alternate_trees t) (adwin_confidence t) (random_state t) (others t).

(** Modelled from the spec: [add_dict_values] of [utils.skmultiflow_utils]
    is not part of the sources; predictions "are combined by summing each
    leaf's class-weight distribution": the weights of a class present on
    both sides are added, the other entries are kept. *)
Definition add_dict_values (dict_a dict_b : dist) : dist :=
  union_with (λ a b, Some (a + b)%float) dict_a dict_b.

End Tree.

(** The collaborators that are not part of the sources: methods of the node
    classes and of the base class, and the two normalisers. *)
Class Collaborators {data : Data} : Type := {
  (* [isinstance(self._tree_root, InactiveLeaf)] *)
  is_inactive_leaf : node → bool;
  (* the constructors called by [_new_learning_node] *)
  AdaLearningNode : option stats → Z → float → seed → node;
  InactiveLearningNodeMC : option stats → Z → node;
  (* [parent.depth] *)
  node_depth : node → Z;
  (* [self._tree_root.filter_instance_to_leaf(x, None, -1)] *)
  filter_instance_to_leaf : node → instance → FoundNode;
  (* [self._tree_root.filter_instance_to_leaves(x, split_parent,
     parent_branch, nodes)]: the results it appends to [nodes] *)
  filter_instance_to_leaves : node → instance → option node → Z → list FoundNode;
  (* creme: [leaf_node.predict_one(x, tree=self)] *)
  node_predict_one : node → instance → tree → result dist;
  (* river: [leaf_node.leaf_prediction(x, tree=self)] *)
  node_leaf_prediction : node → instance → tree → result dist;
  (* creme: [softmax], river: [normalize_values_in_dict] *)
  softmax : dist → result dist;
  normalize_values_in_dict : dist → result dist;
  (* creme: [self._tree_root.learn_one(x, y, weight=sample_weight, tree=self)]
     on an inactive root *)
  inactive_root_learn_one : instance → label → float → M tree unit;
  (* [self._tree_root.learn_one(x, y, sample_weight, self, None, -1)] *)
  root_learn_one : instance → label → float → M tree unit;
  (* [self._train_weight_seen_by_model % self.memory_estimate_period == 0] *)
  memory_estimate_due : tree → result bool;
  (* [self._estimate_model_size()] *)
  _estimate_model_size : tree → tree
}.

Section Classifier.

Context {data : Data} {env : Collaborators}.

(** The value that marks the root of an alternate subtree. *)
Definition ALTERNATE_ROOT : Z := (-999)%Z.

(** The loop body shared by the two versions of [predict_proba_one]: a result
    tagged [-999] is skipped; the others add the prediction of their leaf, or
    of their parent when there is no leaf, to [proba]. *)
Fixpoint combine_found (predict : node → result dist)
    (found_nodes : list FoundNode) (proba : dist) : result dist :=
  match found_nodes with
  | [] => Ok proba
  | fn :: rest =>
      if bool_decide (found_parent_branch fn ≠ ALTERNATE_ROOT) then
        leaf_node ←
          match found_node fn with
          | Some n => Ok n
          | None =>
              match found_parent fn with
              | Some p => Ok p
              | None => Raise AttributeError
              end
          end;
        dist ← predict leaf_node;
        combine_found predict rest (add_dict_values proba dist)
      else combine_found predict rest proba
  end.

(** [_filter_instance_to_leaves] *)
Definition _filter_instance_to_leaves (t : tree) (x : instance)
    (split_parent : option node) (parent_branch : Z) : result (list FoundNode) :=
  match _tree_root t with
  | Some root => Ok (filter_instance_to_leaves root x split_parent parent_branch)
  | None => Raise AttributeError
  end.

(** creme [HoeffdingAdaptiveTreeClassifier._new_learning_node] *)
Definition creme_new_learning_node (initial_stats : option stats)
    (parent : option node) (is_active : bool) (t : tree) : node :=
  let depth := match parent with
               | Some p => (node_depth p + 1)%Z
               | None => 0%Z
               end in
  if is_active then
    AdaLearningNode initial_stats depth (adwin_confidence t) (random_state t)
  else InactiveLearningNodeMC initial_stats depth.

(** creme [HoeffdingAdaptiveTreeClassifier.learn_one]: it has no [return]
    statement. *)
Definition creme_learn_one (x : instance) (y : label) (sample_weight : float)
    : M tree returned :=
  t ← get;
  (if _tree_root t is None then
     modify (set_root (Some (creme_new_learning_node None None true t)));;
     modify (set_n_active_leaves 1)
   else mret tt);;
  t ← get;
  match _tree_root t with
  | None => λ t, (Raise AttributeError, t)
  | Some root =>
      if is_inactive_leaf root then inactive_root_learn_one x y sample_weight
      else root_learn_one x y sample_weight
  end;;
  mret PyNone.

(** creme [HoeffdingAdaptiveTreeClassifier.predict_proba_one] *)
Definition creme_predict_proba_one (t : tree) (x : instance) : result dist :=
  let proba : dist := ∅ in
  proba ←
    match _tree_root t with
    | Some root =>
        found_nodes ←
          (if is_inactive_leaf root then Ok [filter_instance_to_leaf root x]
           else _filter_instance_to_leaves t x None (-1));
        combine_found (λ n, node_predict_one n x t) found_nodes proba
    | None => Ok proba
    end;
  softmax proba.


(** river [HoeffdingAdaptiveTreeClassifier._new_learning_node] *)
Definition river_new_learning_node (initial_stats : option stats)
    (parent : option node) (t : tree) : node :=
  let depth := match parent with
               | Some p => (node_depth p + 1)%Z
               | None => 0%Z
               end in
  AdaLearningNode initial_stats depth (adwin_confidence t) (random_state t).

(** river [HoeffdingAdaptiveTreeClassifier.learn_one] *)
Definition river_learn_one (x : instance) (y : label) (sample_weight : float)
    : M tree returned :=
  modify (λ t, set_classes ({[y]} ∪ classes t) t);;
  modify (λ t, set_train_weight
                 (_train_weight_seen_by_model t + sample_weight)%float t);;
  t ← get;
  (if _tree_root t is None then
     modify (set_root (Some (river_new_learning_node None None t)));;
     modify (set_n_active_leaves 1)
   else mret tt);;
  root_learn_one x y sample_weight;;
  t ← get;
  due ← lift (memory_estimate_due t);
  (if due : bool then modify _estimate_model_size else mret tt);;
  mret PySelf.

(** river [HoeffdingAdaptiveTreeClassifier.predict_proba_one] *)
Definition river_predict_proba_one (t : tree) (x : instance) : result dist :=
  let proba : dist := gset_to_gmap 0%float (classes t) in
  match _tree_root t with
  | Some root =>
      found_nodes ← _filter_instance_to_leaves t x None (-1);
      proba ← combine_found (λ n, node_leaf_prediction n x t) found_nodes proba;
      normalize_values_in_dict proba
  | None => Ok proba
  end.


(** The combination rule in the words of the specification: of the results
    of the traversal, those not tagged as the root of an alternate subtree
    are kept, the distributions of their leaves are summed, and the sum is
    normalised. *)
Definition included (found_nodes : list FoundNode) : list FoundNode :=
  filter (λ fn, found_parent_branch fn ≠ ALTERNATE_ROOT) found_nodes.

Definition predicting_node (fn : FoundNode) : result node :=
  match found_node fn, found_parent fn with
  | Some n, _ => Ok n
  | None, Some p => Ok p
  | None, None => Raise AttributeError
  end.

Fixpoint sum_distributions (predict : node → result dist)
    (leaves : list FoundNode) (acc : dist) : result dist :=
  match leaves with
  | [] => Ok acc
  | fn :: rest =>
      n ← predicting_node fn;
      d ← predict n;
      sum_distributions predict rest (add_dict_values acc d)
  end.

Definition spec_combination (predict : node → result dist)
    (normalise : dist → result dist) (start : dist)
    (found_nodes : list FoundNode) : result dist :=
  total ← sum_distributions predict (included found_nodes) start;
  normalise total.

End Classifier.

(** *** Trees used in the examples *)

(** Classes are numbers, a node is a number, and only the root exists. *)
Definition demo_data : Data :=
  {| label := Z; label_eq_dec := _; label_countable := _;
     instance := unit; stats := unit; seed := unit; node := nat;
     other_attributes := unit |}.

(** Collaborators with a [softmax] that returns an empty dict as it is, and
    a traversal that finds the root and the root of an alternate subtree. *)
Definition demo_env : Collaborators (data := demo_data) :=
  Build_Collaborators demo_data
    (* is_inactive_leaf *) (λ _, false)
    (* AdaLearningNode *) (λ _ _ _ _, 0%nat)
    (* InactiveLearningNodeMC *) (λ _ _, 1%nat)
    (* node_depth *) (λ _, 0%Z)
    (* filter_instance_to_leaf *)
    (λ n _, mkFound (data := demo_data) (Some n) None (-1))
    (* filter_instance_to_leaves *)
    (λ n _ _ _, [mkFound (data := demo_data) (Some n) None (-1);
                 mkFound (data := demo_data) (Some 5%nat) (Some n) (-999)])
    (* node_predict_one *) (λ n _ _, Ok {[ Z.of_nat n := 1%float ]})
    (* node_leaf_prediction *) (λ n _ _, Ok {[ Z.of_nat n := 1%float ]})
    (* softmax *) (λ d, Ok d)
    (* normalize_values_in_dict *) (λ d, Ok d)
    (* inactive_root_learn_one *) (λ _ _ _, mret tt)
    (* root_learn_one *) (λ _ _ _, mret tt)
    (* memory_estimate_due *) (λ _, Ok false)
    (* _estimate_model_size *) (λ t, t).

(** A classifier before any [learn_one]. *)
Definition empty_tree : tree (data := demo_data) :=
  mkTree (data := demo_data) None ∅ 0 0 0 0 0 0.002 tt tt.

(** A classifier that has seen the classes [0] and [1]; its root is the
    node [0]. *)
Definition demo_tree : tree (data := demo_data) :=
  mkTree (data := demo_data) (Some 0%nat) {[ 0%Z; 1%Z ]} 2 1 0 0 0 0.002 tt tt.

End HATC.

(** ** Chains of classifiers and regressors *)

Module Chain.

(** Feature dictionaries are Python objects passed by reference. *)
Definition loc : Set := nat.

(** Names of features and outputs: integers or strings. *)
Inductive key : Set := KInt (z : Z) | KStr (s : string).

#[global] Instance key_eq_dec : EqDecision key.
Proof. solve_decision. Defined.

#[global] Instance key_countable : Countable key :=
  inj_countable'
    (λ k, match k with KInt z => inl z | KStr s => inr s end)
    (λ x, match x with inl z => KInt z | inr s => KStr s end)
    (λ k, match k with KInt _ | KStr _ => eq_refl end).

(** Class labels: the booleans of a binary classifier, or names. *)
Inductive label : Set := LBool (b : bool) | LKey (k : key).

#[global] Instance label_eq_dec : EqDecision label.
Proof. solve_decision. Defined.

(** [str(k)], as an f-string formats it. *)
Definition str_key (k : key) : string :=
  match k with KInt z => pretty z | KStr s => s end.

Definition str_label (l : label) : string :=
  match l with
  | LBool true => "True"
  | LBool false => "False"
  | LKey k => str_key k
  end.

(** [f'{o}_{label}'] *)
Definition fstring (o l : string) : key := KStr (o +:+ "_" +:+ l).

(** [predict_proba_one] of a classifier returns a dict from label to
    probability; its items are visited in insertion order. *)
Definition proba : Set := list (label * float).

(** What a feature dictionary can hold. *)
Inductive value : Set :=
| VFloat (f : float)
| VStr (s : string)
| VBool (b : bool)
| VProba (p : proba).

Definition features : Type := gmap key value.

(** The wrapped estimators are not part of the sources. A method of theirs
    gets a reference to a feature dictionary: it may change its own state and
    the dictionary it was given, and it may raise. *)
Class Estimators : Type := {
  model : Type;
  target : Type;
  _multiclass : model → bool;
  clf_predict_proba_one : model → features → result proba * model * features;
  clf_learn_one : model → features → target → result unit * model * features;
  reg_predict_one : model → features → result float * model * features;
  reg_learn_one : model → features → target → result unit * model * features
}.

Section Chains.

Context {est : Estimators}.

(** The chain object ([self]: [model], [order] and the [UserDict] data, in
    insertion order) and the feature dictionaries that exist. *)
Record world : Type := mkWorld {
  dicts : gmap loc features;
  chain_model : model;
  order : option (list key);
  data : list (key * model)
}.

Definition set_dicts (d : gmap loc features) (w : world) : world :=
  mkWorld d (chain_model w) (order w) (data w).

Definition set_order (o : option (list key)) (w : world) : world :=
  mkWorld (dicts w) (chain_model w) o (data w).

Definition set_data (d : list (key * model)) (w : world) : world :=
  mkWorld (dicts w) (chain_model w) (order w) d.

Definition raise {A} (e : exn) : M world A := λ w, (Raise e, w).

(** [d[k] = v] on an insertion-ordered dict. *)
Fixpoint assoc_set {V} (k : key) (v : V) (d : list (key * V)) : list (key * V) :=
  match d with
  | [] => [(k, v)]
  | (k', v') :: d' => if decide (k' = k) then (k, v) :: d'
                      else (k', v') :: assoc_set k v d'
  end.

Fixpoint assoc_get {K V} `{EqDecision K} (k : K) (d : list (K * V)) : option V :=
  match d with
  | [] => None
  | (k', v) :: d' => if decide (k' = k) then Some v else assoc_get k d'
  end.

(** [BaseChain._init_models]: [copy.deepcopy(self.model)] of a model value is
    that value. *)
Definition _init_models : M world unit :=
  w ← get;
  modify (set_data (foldl (λ d o, assoc_set o (chain_model w) d) (data w)
                      (default [] (order w)))).

(** [x = copy.copy(x)]: a new dictionary with the same items; the local name
    [x] now refers to it. *)
Definition copy_copy (x : loc) : M world loc :=
  λ w, match dicts w !! x with
       | None => (Raise TypeError, w)
       | Some d =>
           let l := fresh (dom (dicts w)) in
           (Ok l, set_dicts (<[l := d]> (dicts w)) w)
       end.

(** [x[k] = v] *)
Definition setitem (x : loc) (k : key) (v : value) : M world unit :=
  λ w, match dicts w !! x with
       | None => (Raise TypeError, w)
       | Some d => (Ok tt, set_dicts (<[x := <[k := v]> d]> (dicts w)) w)
       end.

(** [clf = self[o]] *)
Definition getitem (o : key) : M world model :=
  w ← get;
  match assoc_get o (data w) with
  | Some m => mret m
  | None => raise KeyError
  end.

(** A method call [self[o].method(x, ...)]: the estimator stored under [o]
    and the dictionary [x] refers to are the two objects it can change. *)
Definition call {A} (method : model → features → result A * model * features)
    (o : key) (x : loc) : M world A :=
  λ w, match assoc_get o (data w), dicts w !! x with
       | Some m, Some d =>
           let '(r, m', d') := method m d in
           (r, set_data (assoc_set o m' (data w))
                 (set_dicts (<[x := d']> (dicts w)) w))
       | None, _ => (Raise KeyError, w)
       | _, None => (Raise TypeError, w)
       end.

(** Python's [for e in l: body(e)] *)
Fixpoint for_each {S A} (l : list A) (body : A → M S unit) : M S unit :=
  match l with
  | [] => mret tt
  | a :: l' => body a;; for_each l' body
  end.

(** [if self.order is None: self.order = list(y.keys()); self._init_models()] *)
Definition infer_order (y : list (key * target)) : M world unit :=
  w ← get;
  if order w is None then
    modify (set_order (Some (y.*1)));;
    _init_models
  else mret tt.

(** [ClassifierChain.learn_one] *)
Definition ClassifierChain_learn_one (x : loc) (y : list (key * target))
    : M world unit :=
  infer_order y;;
  x ← copy_copy x;
  w ← get;
  for_each (default [] (order w)) (λ o,
    clf ← getitem o;
    y_pred ← call clf_predict_proba_one o x;
    y_o ← match assoc_get o y with Some t => mret t | None => raise KeyError end;
    call (λ m d, clf_learn_one m d y_o) o x;;
    if _multiclass clf then
      for_each y_pred (λ '(label, p),
        setitem x (fstring (str_key o) (str_label label)) (VFloat p))
    else
      match assoc_get (LBool true) y_pred with
      | Some p => setitem x o (VFloat p)
      | None => raise KeyError
      end).

(** [ClassifierChain.predict_proba_one]; in its multi-class branch the loop
    runs over [y_pred.items()], the predictions made so far. *)
Fixpoint predict_proba_loop (x : loc) (os : list key)
    (y_pred : list (key * proba)) : M world (list (key * proba)) :=
  match os with
  | [] => mret y_pred
  | o :: rest =>
      clf ← getitem o;
      p ← call clf_predict_proba_one o x;
      let y_pred := assoc_set o p y_pred in
      (if _multiclass clf then
         for_each y_pred (λ '(label, proba),
           setitem x (fstring (str_key o) (str_key label)) (VProba proba))
       else
         match assoc_get (LBool true) p with
         | Some q => setitem x o (VFloat q)
         | None => raise KeyError
         end);;
      predict_proba_loop x rest y_pred
  end.

Definition ClassifierChain_predict_proba_one (x : loc)
    : M world (list (key * proba)) :=
  x ← copy_copy x;
  let y_pred := [] in
  w ← get;
  match order w with
  | None => mret y_pred
  | Some os => predict_proba_loop x os y_pred
  end.

(** [RegressorChain.learn_one] *)
Definition RegressorChain_learn_one (x : loc) (y : list (key * target))
    : M world unit :=
  infer_order y;;
  x ← copy_copy x;
  w ← get;
  for_each (default [] (order w)) (λ o,
    reg ← getitem o;
    y_pred ← call reg_predict_one o x;
    y_o ← match assoc_get o y with Some t => mret t | None => raise KeyError end;
    call (λ m d, reg_learn_one m d y_o) o x;;
    setitem x o (VFloat y_pred)).

(** [RegressorChain.predict_one]: the loop runs over [self.items()]. *)
Fixpoint predict_loop (x : loc) (os : list key) (y_pred : list (key * float))
    : M world (list (key * float)) :=
  match os with
  | [] => mret y_pred
  | o :: rest =>
      p ← call reg_predict_one o x;
      let y_pred := assoc_set o p y_pred in
      setitem x o (VFloat p);;
      predict_loop x rest y_pred
  end.

Definition RegressorChain_predict_one (x : loc) : M world (list (key * float)) :=
  x ← copy_copy x;
  w ← get;
  predict_loop x ((data w).*1) [].

(** The four operations of the chain models that take the caller's [x]. *)
Inductive operation : Type :=
| ClassifierLearn (y : list (key * target))
| ClassifierPredictProba
| RegressorLearn (y : list (key * target))
| RegressorPredict.

Definition run (op : operation) (x : loc) (w : world) : world :=
  match op with
  | ClassifierLearn y => (ClassifierChain_learn_one x y w).2
  | ClassifierPredictProba => (ClassifierChain_predict_proba_one x w).2
  | RegressorLearn y => (RegressorChain_learn_one x y w).2
  | RegressorPredict => (RegressorChain_predict_one x w).2
  end.

(** A computation that changes no feature dictionary but the one at [x]. *)
Definition touches_only {A} (x : loc) (m : M world A) : Prop :=
  ∀ w l, l ≠ x → dicts (m w).2 !! l = dicts w !! l.

End Chains.

(** *** A chain used in the examples *)

(** Regressors that count their calls, predict the count, and write a key
    of their own into the dictionary they are given. *)
Definition demo_estimators : Estimators :=
  {| model := Z; target := Z;
     _multiclass := λ _, false;
     clf_predict_proba_one := λ m d,
       (Ok [(LBool true, 0.5%float)], m, <[KStr "seen" := VBool true]> d);
     clf_learn_one := λ m d _, (Ok tt, (m + 1)%Z, d);
     reg_predict_one := λ m d,
       (Ok 1%float, m, <[KStr "seen" := VBool true]> d);
     reg_learn_one := λ m d _, (Ok tt, (m + 1)%Z, d) |}.

(** A chain over the outputs [0] and [1], and a caller's dictionary at [0]. *)
Definition demo_world : world (est := demo_estimators) :=
  mkWorld (est := demo_estimators) {[ 0%nat := {[ KStr "a" := VFloat 2 ]} ]} 0%Z
    (Some [KInt 0; KInt 1]) [(KInt 0, 0%Z); (KInt 1, 0%Z)].

End Chain.

(** ** Notions used to state further properties *)

(** A float that is not [NaN]. *)
Definition is_number (f : float) : Prop := (f =? f)%float = true.

Module HDDM_W_notions.

Import HDDM_W.

Definition set_two_sided_test (b : bool) (s : HDDM_W) : HDDM_W :=
  mkHDDM_W (_in_concept_change s) (_in_warning_zone s) (total s)
    (sample1_decr_monitor s) (sample1_incr_monitor s)
    (sample2_decr_monitor s) (sample2_incr_monitor s) (incr_cutpoint s)
    (decr_cutpoint s) (width s) (delay s) (drift_confidence s)
    (warning_confidence s) (lambda_option s) b (estimation s).

(** A detector that has seen no value since it was built or reset. *)
Definition emptied (s : HDDM_W) : Prop :=
  total s = SampleInfo_new ∧ sample1_incr_monitor s = SampleInfo_new
  ∧ sample2_incr_monitor s = SampleInfo_new ∧ decr_idle s.

(** [HDDM_W(drift_confidence=0.0)] *)
Definition zero_confidence_detector : HDDM_W :=
  init (ext := reference) 0 0.005 0.05 false.

End HDDM_W_notions.

Module HTR_notions.

Import HTR.

Section Notions.

Context {data : Data} {env : Collaborators}.

(** The order of the sorted candidates: [b] is not below [a]. *)
Definition by_merit (a b : AttributeSplitSuggestion) : Prop :=
  (merit b <? merit a)%float = false.

(** At the leaf [lf], [learn_one] neither deactivates the leaf nor attempts
    a split: the tree does not grow or the leaf is inactive, or the leaf is
    above the maximal depth and has seen less than [grace_period] of weight
    since the last attempt. *)
Definition no_attempt_due (t : tree) (lf : LearningNode) : Prop :=
  _growth_allowed t && leaf_active lf = false
  ∨ (match max_depth t with
     | Some m => bool_decide (m ≤ leaf_depth lf)%Z
     | None => false
     end = false
     ∧ (grace_period t <=? total_weight lf - last_split_attempt_at lf)%float
       = false).

End Notions.

(** Two candidates with real tests, both of merit [0]. *)
Definition zero_merits : list (AttributeSplitSuggestion (data := demo_data)) :=
  [mkSuggestion (data := demo_data) (Some "a") [3; 4]%Z 0%float;
   mkSuggestion (data := demo_data) (Some "b") [3; 4]%Z 0%float].

(** A tree whose root is an active leaf and whose grace period is longer
    than the weight the leaf has seen. *)
Definition patient_tree : tree (data := demo_data) :=
  mkTree (data := demo_data) {[ 0%nat := Leaf demo_leaf ]} (Some 0%nat) 1 0 0
    300 1e-7 0.05 TARGET_MEAN tt false None true tt.

End HTR_notions.

(** ** How a chain is built, and what it keeps *)

Module ChainSetup.

Import Chain.

Section Setup.

Context {est : Estimators}.

(** [BaseChain.__init__] *)
Definition BaseChain_init (model : model) (order : option (list key))
    (dicts : gmap loc features) : world :=
  let w := mkWorld dicts model order [] in
  if order is None then w else (_init_models w).2.

(** The outputs that have an estimator, in the order of the [UserDict]. *)
Definition outputs (w : world) : list key := (data w).*1.

(** Every output of the order has an estimator, and no output has two. *)
Definition has_models (w : world) : Prop :=
  NoDup (outputs w)
  ∧ ∀ os o, order w = Some os → o ∈ os → is_Some (assoc_get o (data w)).

(** A computation that leaves the order and the outputs as they are. *)
Definition keeps_chain {A} (m : M world A) : Prop :=
  ∀ w, order (m w).2 = order w ∧ outputs (m w).2 = outputs w.

End Setup.

(** A chain built without an order, and a caller's dictionary at [0]. *)
Definition new_chain : world (est := demo_estimators) :=
  BaseChain_init (est := demo_estimators) 0%Z None
    {[ 0%nat := {[ KStr "a" := VFloat 2 ]} ]}.

End ChainSetup.

(** ** The Gaussian observer of a numeric attribute *)

Module GaussianObserver.

(** What an operation of the observer can raise: the exceptions of [exn],
    and the [OverflowError] of the conversion of a Python [int] that is
    beyond the range of the floats. *)
Inductive error : Set :=
| Builtin (e : exn)
| OverflowError.

Inductive outcome (A : Type) : Type :=
| Returns (a : A)
| Raises (e : error).
Arguments Returns {A} a.
Arguments Raises {A} e.

#[global] Instance outcome_ret : MRet outcome := @Returns.
#[global] Instance outcome_bind : MBind outcome :=
  λ A B f m, match m with Returns a => f a | Raises e => Raises e end.

Definition of_result {A} (r : result A) : outcome A :=
  match r with Ok a => Returns a | Raise e => Raises (Builtin e) end.

(** The conversion of a Python [int] to a [float]: rounded to the nearest
    float, ties to even, and an [OverflowError] beyond the largest one. *)
Definition float_of_int (n : Z) : outcome float :=
  match binary_normalize prec emax n 0 false with
  | S754_infinity _ => Raises OverflowError
  | f => Returns (SF2Prim f)
  end.

(** A Python dict, in insertion order. *)
Definition dict (K V : Type) : Type := list (K * V).

Section Dicts.

Context {K V : Type} `{EqDecision K}.

(** [d[k]] *)
Fixpoint dict_get (k : K) (d : dict K V) : option V :=
  match d with
  | [] => None
  | (k', v) :: d' => if decide (k' = k) then Some v else dict_get k d'
  end.

(** [d[k] = v] *)
Fixpoint dict_set (k : K) (v : V) (d : dict K V) : dict K V :=
  match d with
  | [] => [(k, v)]
  | (k', v') :: d' => if decide (k' = k) then (k, v) :: d'
                      else (k', v') :: dict_set k v d'
  end.

Definition getitem (k : K) (d : dict K V) : outcome V :=
  match dict_get k d with
  | Some v => Returns v
  | None => Raises (Builtin KeyError)
  end.

End Dicts.

(** What the observer takes from outside the file: the class values, the
    estimator [creme.proba.Gaussian] with the methods and the attribute used
    here, the attribute index, and the split criterion with the distribution
    it is given. *)
Class Externals : Type := {
  label : Type;
  label_eq_dec :: EqDecision label;
  estimator : Type;
  Gaussian : estimator;
  estimator_update : estimator → float → float → estimator;
  pdf : estimator → float → float;
  cdf : estimator → float → float;
  n_samples : estimator → float;
  attribute : Type;
  criterion : Type;
  pre_split : Type;
  get_merit_of_split :
    criterion → pre_split → list (dict label float) → float
}.

Section Observer.

Context {ext : Externals}.

Record observer : Type := mkObserver {
  _min_per_class : dict label float;
  _max_per_class : dict label float;
  _att_dist_per_class : dict label estimator;
  n_bins : Z
}.

Definition set_min (d : dict label float) (o : observer) : observer :=
  mkObserver d (_max_per_class o) (_att_dist_per_class o) (n_bins o).

Definition set_max (d : dict label float) (o : observer) : observer :=
  mkObserver (_min_per_class o) d (_att_dist_per_class o) (n_bins o).

Definition set_att_dist (d : dict label estimator) (o : observer) : observer :=
  mkObserver (_min_per_class o) (_max_per_class o) d (n_bins o).

(** [NumericAttributeClassObserverGaussian.__init__] *)
Definition init (n_bins : Z) : observer := mkObserver [] [] [] n_bins.

(** The [try] block of [update], up to the first [KeyError]: the observer
    as the block has left it, and the estimator when no lookup has failed. *)
Definition update_try (att_val : float) (class_val : label) (o : observer)
    : observer * option estimator :=
  match dict_get class_val (_att_dist_per_class o) with
  | None => (o, None)
  | Some val_dist =>
      match dict_get class_val (_min_per_class o) with
      | None => (o, None)
      | Some m =>
          let o := if (att_val <? m)%float
                   then set_min (dict_set class_val att_val (_min_per_class o)) o
                   else o in
          match dict_get class_val (_max_per_class o) with
          | None => (o, None)
          | Some M =>
              let o := if (M <? att_val)%float
                       then set_max (dict_set class_val att_val (_max_per_class o)) o
                       else o in
              (o, Some val_dist)
          end
      end
  end.

(** [update]; [val_dist.update(...)] changes the estimator the dict holds. *)
Definition update (att_val : option float) (class_val : label)
    (sample_weight : float) (o : observer) : observer :=
  match att_val with
  | None => o
  | Some att_val =>
      let '(o, val_dist) :=
        match update_try att_val class_val o with
        | (o, Some val_dist) => (o, val_dist)
        | (o, None) =>
            let o := set_att_dist
                       (dict_set class_val Gaussian (_att_dist_per_class o)) o in
            let o := set_min (dict_set class_val att_val (_min_per_class o)) o in
            let o := set_max (dict_set class_val att_val (_max_per_class o)) o in
            (o, Gaussian)
        end in
      set_att_dist
        (dict_set class_val (estimator_update val_dist att_val sample_weight)
           (_att_dist_per_class o)) o
  end.

(** [probability_of_attribute_value_given_class] *)
Definition probability_of_attribute_value_given_class (att_val : float)
    (class_val : label) (o : observer) : float :=
  match dict_get class_val (_att_dist_per_class o) with
  | Some obs => pdf obs att_val
  | None => 0.0%float
  end.

(** Modelled from the documentation of [sortedcontainers]: [SortedList.add]
    puts the value after the values that are not greater. *)
Fixpoint SortedList_add (v : float) (l : list float) : list float :=
  match l with
  | [] => [v]
  | a :: l' => if (v <? a)%float then v :: a :: l' else a :: SortedList_add v l'
  end.

(** The first loop of [get_split_point_suggestions]. *)
Fixpoint value_range (items : dict label estimator) (o : observer)
    (min_value max_value : float) : outcome (float * float) :=
  match items with
  | [] => Returns (min_value, max_value)
  | (k, _) :: rest =>
      m ← getitem k (_min_per_class o);
      let min_value := if (m <? min_value)%float then m else min_value in
      M ← getitem k (_max_per_class o);
      let max_value := if (max_value <? M)%float then M else max_value in
      value_range rest o min_value max_value
  end.

(** Its second loop, over [range(self.n_bins)]. *)
Fixpoint bin_values (range : list Z) (min_value max_value bin_size : float)
    (suggested_split_values : list float) : outcome (list float) :=
  match range with
  | [] => Returns suggested_split_values
  | i :: rest =>
      f ← float_of_int (i + 1);
      let split_value := (min_value + bin_size * f)%float in
      bin_values rest min_value max_value bin_size
        (if ((min_value <? split_value) && (split_value <? max_value))%float
         then SortedList_add split_value suggested_split_values
         else suggested_split_values)
  end.

(** [range(n)] *)
Definition range (n : Z) : list Z := Z.of_nat <$> seq 0 (Z.to_nat n).

(** [get_split_point_suggestions] *)
Definition get_split_point_suggestions (o : observer) : outcome (list float) :=
  '(min_value, max_value) ←
    value_range (_att_dist_per_class o) o infinity neg_infinity;
  if (min_value <? infinity)%float then
    let bin_size := (max_value - min_value)%float in
    n ← float_of_int (n_bins o);
    bin_size ← of_result (py_div bin_size (n + 1.0)%float);
    bin_values (range (n_bins o)) min_value max_value bin_size []
  else Returns [].

(** The loop of [get_class_dists_from_binary_split]. *)
Fixpoint split_loop (items : dict label estimator) (o : observer)
    (split_value : float) (lhs_dist rhs_dist : dict label float)
    : outcome (dict label float * dict label float) :=
  match items with
  | [] => Returns (lhs_dist, rhs_dist)
  | (k, estimator) :: rest =>
      m ← getitem k (_min_per_class o);
      if (split_value <? m)%float then
        split_loop rest o split_value lhs_dist
          (dict_set k (n_samples estimator) rhs_dist)
      else
        M ← getitem k (_max_per_class o);
        if (M <=? split_value)%float then
          split_loop rest o split_value
            (dict_set k (n_samples estimator) lhs_dist) rhs_dist
        else
          let l := (cdf estimator split_value * n_samples estimator)%float in
          split_loop rest o split_value (dict_set k l lhs_dist)
            (dict_set k (n_samples estimator - l)%float rhs_dist)
  end.

(** [get_class_dists_from_binary_split] *)
Definition get_class_dists_from_binary_split (split_value : float)
    (o : observer) : outcome (list (dict label float)) :=
  '(lhs_dist, rhs_dist) ← split_loop (_att_dist_per_class o) o split_value [] [];
  Returns [lhs_dist; rhs_dist].

(** [AttributeSplitSuggestion(NumericAttributeBinaryTest(att_idx, split_value,
    True), post_split_dist, merit)]: the two constructors are not part of the
    sources, the record keeps what they are given. *)
Record suggestion : Type := mkSuggestion {
  test_att_idx : attribute;
  test_split_value : float;
  test_equal_passes : bool;
  resulting_class_distributions : list (dict label float);
  merit : float
}.

(** The loop of [get_best_evaluated_split_suggestion]. *)
Fixpoint best_loop (c : criterion) (pre_split_dist : pre_split)
    (att_idx : attribute) (values : list float) (o : observer)
    (best_suggestion : option suggestion) : outcome (option suggestion) :=
  match values with
  | [] => Returns best_suggestion
  | split_value :: rest =>
      post_split_dist ← get_class_dists_from_binary_split split_value o;
      let m := get_merit_of_split c pre_split_dist post_split_dist in
      best_loop c pre_split_dist att_idx rest o
        (if match best_suggestion with
            | None => true
            | Some b => (merit b <? m)%float
            end
         then Some (mkSuggestion att_idx split_value true post_split_dist m)
         else best_suggestion)
  end.

(** [get_best_evaluated_split_suggestion] *)
Definition get_best_evaluated_split_suggestion (c : criterion)
    (pre_split_dist : pre_split) (att_idx : attribute) (binary_only : bool)
    (o : observer) : outcome (option suggestion) :=
  suggested_split_values ← get_split_point_suggestions o;
  best_loop c pre_split_dist att_idx suggested_split_values o None.

(** *** Notions used to state the properties of the observer *)

(** One call [observer.update(att_val, class_val, sample_weight)]. *)
Definition observation : Type := option float * label * float.

(** The observer after the calls of [h], in order. *)
Definition observe (h : list observation) (o : observer) : observer :=
  foldl (λ o e, update e.1.1 e.1.2 e.2 o) o h.

(** The values of the class [c] among the observations. *)
Definition values_of (c : label) (h : list observation) : list float :=
  omap (λ e : observation,
          if decide (e.1.2 = c) then e.1.1 else None) h.

(** The classes seen so far. *)
Definition classes (o : observer) : list label := (_att_dist_per_class o).*1.

(** The three dicts have the same keys. *)
Definition aligned (o : observer) : Prop :=
  (_min_per_class o).*1 = classes o ∧ (_max_per_class o).*1 = classes o.

(** What the observer holds on the class [c] after the values [S] of that
    class: the keys of the three dicts agree, the class is known when a value
    was seen, and its least and greatest value are kept. *)
Definition bracket (c : label) (S : list float) (o : observer) : Prop :=
  aligned o
  ∧ (c ∈ classes o ↔ S ≠ [])
  ∧ (S ≠ [] →
     ∃ m M,
       dict_get c (_min_per_class o) = Some m
       ∧ dict_get c (_max_per_class o) = Some M
       ∧ m ∈ S ∧ M ∈ S
       ∧ ∀ v, v ∈ S → (v <? m)%float = false ∧ (M <? v)%float = false).

(** The values of all classes among the observations. *)
Definition observed_values (h : list observation) : list float :=
  omap (λ e : observation, e.1.1) h.

End Observer.

(** *** An observer used in the examples *)

(** Two classes; an estimator that only adds up the weights; a criterion
    that takes the weight on the left of the split as the merit. *)
Definition demo : Externals :=
  {| label := bool; label_eq_dec := _;
     estimator := float; Gaussian := 0%float;
     estimator_update := λ g _ w, (g + w)%float;
     pdf := λ _ _, 0%float;
     cdf := λ _ _, 0.5%float;
     n_samples := λ g, g;
     attribute := Z; criterion := unit; pre_split := unit;
     get_merit_of_split := λ _ _ post,
       match post with
       | lhs :: _ => foldr (λ kv acc, (kv.2 + acc)%float) 0%float lhs
       | [] => 0%float
       end |}.

(** The class [true] has seen [1] and [5], the class [false] has seen [3]. *)
Definition demo_history : list (observation (ext := demo)) :=
  [(Some 1%float, true, 1%float); (Some 5%float, true, 1%float);
   (None, false, 1%float); (Some 3%float, false, 1%float)].

Definition demo_observer : observer (ext := demo) :=
  observe (ext := demo) demo_history (init (ext := demo) 3).

End GaussianObserver.

(** ** Leaves of the adaptive classifier that are switched off and on *)

Module AdaptiveLeaves.

(** Nodes are Python objects: the tree and the split nodes hold references. *)
Definition loc : Set := nat.

Class Data : Type := {
  stats : Type;
  empty_stats : stats;
  seed : Type;
  split_test : Type
}.

Section Nodes.

Context {data : Data}.

(** Modelled from the spec: the node classes of [creme.tree._nodes] are not
    part of the sources. A node keeps what its constructor is given; a
    learning node built without statistics starts from the empty ones; a split
    node has [children] indexed by branch and an [_alternate_tree]. *)
Inductive node : Type :=
| AdaLearningNode (node_stats : stats) (depth : Z) (adwin_delta : float)
    (random_state : seed)
| InactiveLearningNodeMC (node_stats : stats) (depth : Z)
| AdaSplitNode (test : split_test) (node_stats : stats) (depth : Z)
    (adwin_delta : float) (random_state : seed)
    (children : gmap Z loc) (_alternate_tree : option loc).

Definition node_stats (n : node) : stats :=
  match n with
  | AdaLearningNode st _ _ _ | InactiveLearningNodeMC st _
  | AdaSplitNode _ st _ _ _ _ _ => st
  end.

Definition node_depth (n : node) : Z :=
  match n with
  | AdaLearningNode _ d _ _ | InactiveLearningNodeMC _ d
  | AdaSplitNode _ _ d _ _ _ _ => d
  end.

Definition set_depth (d : Z) (n : node) : node :=
  match n with
  | AdaLearningNode st _ a r => AdaLearningNode st d a r
  | InactiveLearningNodeMC st _ => InactiveLearningNodeMC st d
  | AdaSplitNode t st _ a r cs alt => AdaSplitNode t st d a r cs alt
  end.

Record tree : Type := mkTree {
  heap : gmap loc node;
  _tree_root : option loc;
  _n_active_leaves : Z;
  _n_inactive_leaves : Z;
  adwin_confidence : float;
  random_state : seed
}.

Definition set_heap (h : gmap loc node) (t : tree) : tree :=
  mkTree h (_tree_root t) (_n_active_leaves t) (_n_inactive_leaves t)
    (adwin_confidence t) (random_state t).

Definition set_root (r : option loc) (t : tree) : tree :=
  mkTree (heap t) r (_n_active_leaves t) (_n_inactive_leaves t)
    (adwin_confidence t) (random_state t).

Definition set_n_active_leaves (n : Z) (t : tree) : tree :=
  mkTree (heap t) (_tree_root t) n (_n_inactive_leaves t)
    (adwin_confidence t) (random_state t).

Definition set_n_inactive_leaves (n : Z) (t : tree) : tree :=
  mkTree (heap t) (_tree_root t) (_n_active_leaves t) n
    (adwin_confidence t) (random_state t).

Definition raise {A} (e : exn) : M tree A := λ t, (Raise e, t).

(** Attribute access on the object a reference points to. *)
Definition read_node (l : loc) : M tree node :=
  λ t, match heap t !! l with
       | Some n => (Ok n, t)
       | None => (Raise AttributeError, t)
       end.

Definition write_node (l : loc) (n : node) : M tree unit :=
  modify (λ t, set_heap (<[l := n]> (heap t)) t).

(** A new object gets a reference no live object has. *)
Definition alloc (n : node) : M tree loc :=
  λ t, let l := fresh (dom (heap t)) in
       (Ok l, set_heap (<[l := n]> (heap t)) t).

(** Modelled from the spec: [SplitNode.set_child]; on a learning node it is
    an [AttributeError]. *)
Definition set_child (parent : loc) (branch : Z) (child : loc) : M tree unit :=
  n ← read_node parent;
  match n with
  | AdaSplitNode t st d a r cs alt =>
      write_node parent (AdaSplitNode t st d a r (<[branch := child]> cs) alt)
  | _ => raise AttributeError
  end.

(** [parent._alternate_tree = new_leaf]: any Python object takes the
    attribute; only a split node has it in this model. *)
Definition set_alternate_tree (parent : loc) (child : loc) : M tree unit :=
  n ← read_node parent;
  match n with
  | AdaSplitNode t st d a r cs _ =>
      write_node parent (AdaSplitNode t st d a r cs (Some child))
  | _ => raise AttributeError
  end.

(** creme [HoeffdingAdaptiveTreeClassifier._new_learning_node] *)
Definition _new_learning_node (initial_stats : option stats)
    (parent : option loc) (is_active : bool) : M tree loc :=
  depth ← match parent with
          | Some p => n ← read_node p; mret (node_depth n + 1)%Z
          | None => mret 0%Z
          end;
  t ← get;
  if is_active then
    alloc (AdaLearningNode (default empty_stats initial_stats) depth
             (adwin_confidence t) (random_state t))
  else
    alloc (InactiveLearningNodeMC (default empty_stats initial_stats) depth).

(** creme [HoeffdingAdaptiveTreeClassifier._new_split_node] *)
Definition _new_split_node (test : split_test) (target_stats : stats)
    (depth : Z) : M tree loc :=
  t ← get;
  alloc (AdaSplitNode test target_stats depth (adwin_confidence t)
           (random_state t) ∅ None).

(** The lines that [_deactivate_leaf] and [_activate_leaf] share: the new
    leaf takes the place of the old one. *)
Definition put_in_place (new_leaf : loc) (parent : option loc)
    (parent_branch : Z) : M tree unit :=
  match parent with
  | None => modify (set_root (Some new_leaf))
  | Some p =>
      if decide (parent_branch = -999)%Z then
        n ← read_node new_leaf;
        write_node new_leaf (set_depth (node_depth n - 1) n);;
        set_alternate_tree p new_leaf
      else set_child p parent_branch new_leaf
  end.

(** creme [HoeffdingAdaptiveTreeClassifier._deactivate_leaf] *)
Definition _deactivate_leaf (to_deactivate : loc) (parent : option loc)
    (parent_branch : Z) : M tree unit :=
  old ← read_node to_deactivate;
  new_leaf ← _new_learning_node (Some (node_stats old)) parent false;
  put_in_place new_leaf parent parent_branch;;
  modify (λ t, set_n_active_leaves (_n_active_leaves t - 1) t);;
  modify (λ t, set_n_inactive_leaves (_n_inactive_leaves t + 1) t).

(** creme [HoeffdingAdaptiveTreeClassifier._activate_leaf] *)
Definition _activate_leaf (to_activate : loc) (parent : option loc)
    (parent_branch : Z) : M tree unit :=
  old ← read_node to_activate;
  new_leaf ← _new_learning_node (Some (node_stats old)) parent true;
  put_in_place new_leaf parent parent_branch;;
  modify (λ t, set_n_active_leaves (_n_active_leaves t + 1) t);;
  modify (λ t, set_n_inactive_leaves (_n_inactive_leaves t - 1) t).

(** *** Notions used to state the properties *)

(** The node that stands at a place of the tree: the root, a child of a
    split node, or its alternate tree. *)
Definition node_at (t : tree) (parent : option loc) (parent_branch : Z)
    : option loc :=
  match parent with
  | None => _tree_root t
  | Some p =>
      match heap t !! p with
      | Some (AdaSplitNode _ _ _ _ _ cs alt) =>
          if decide (parent_branch = -999)%Z then alt else cs !! parent_branch
      | _ => None
      end
  end.

(** The depth of a leaf put at that place. *)
Definition depth_at (t : tree) (parent : option loc) (parent_branch : Z) : Z :=
  match parent with
  | None => 0
  | Some p =>
      match heap t !! p with
      | Some n => if decide (parent_branch = -999)%Z then node_depth n
                  else (node_depth n + 1)%Z
      | None => 0
      end
  end.

(** The parent is no node, or a split node of the tree. *)
Definition is_place (t : tree) (parent : option loc) : Prop :=
  match parent with
  | None => True
  | Some p => ∃ test st d a r cs alt,
      heap t !! p = Some (AdaSplitNode test st d a r cs alt)
  end.

End Nodes.

(** *** A tree used in the examples *)

Definition demo_data : Data :=
  {| stats := Z; empty_stats := 0%Z; seed := unit; split_test := string |}.

(** A split node at the root, with an active leaf on its branch [0]. *)
Definition demo_tree : tree (data := demo_data) :=
  mkTree (data := demo_data)
    {[ 0%nat := AdaSplitNode (data := demo_data) "x" 9%Z 0 0.002 tt
                  {[ 0%Z := 1%nat ]} None;
       1%nat := AdaLearningNode (data := demo_data) 4%Z 1 0.002 tt ]}
    (Some 0%nat) 1 0 0.002 tt.

End AdaptiveLeaves.

(** * Properties *)

(** ** Facts on binary64 floats, from their specification *)

Module FloatFacts.

Lemma binary_round_aux_sign prec emax sx mx ex lx :
  sign_or_nan sx (binary_round_aux prec emax sx mx ex lx).
Proof.
  unfold binary_round_aux.
  destruct (shr_fexp prec emax mx ex lx) as [mrs' e'].
  destruct (shr_fexp prec emax _ e' loc_Exact) as [mrs'' e''].
  destruct (shr_m mrs''); simpl; trivial.
  destruct (Z.leb _ _); reflexivity.
Qed.

Lemma SFltb_zero_false r :
  sign_or_nan false r ∨ (∃ s, r = S754_zero s) → SFltb r (S754_zero false) = false.
Proof.
  intros [H | [s ->]]; [|reflexivity].
  destruct r as [s| s| |s m e]; simpl in H; subst; reflexivity.
Qed.

Lemma Prim2SF_zero : Prim2SF 0 = S754_zero false.
Proof. reflexivity. Qed.

Lemma Prim2SF_infinity : Prim2SF infinity = S754_infinity false.
Proof. reflexivity. Qed.

(** Nothing is greater than [+inf]. *)
Lemma ltb_infinity_l x : (infinity <? x)%float = false.
Proof.
  rewrite FloatAxioms.ltb_spec, Prim2SF_infinity.
  destruct (Prim2SF x) as [s| [|]| |s m e]; reflexivity.
Qed.

(** A square root is never negative. *)
Lemma sqrt_not_neg y : (PrimFloat.sqrt y <? 0)%float = false.
Proof.
  rewrite FloatAxioms.ltb_spec, sqrt_spec, Prim2SF_zero. unfold SF64sqrt, SFsqrt.
  destruct (Prim2SF y) as [s| [|]| |[|] m e]; try reflexivity.
  destruct (SFsqrt_core_binary _ _ _ _) as [[mz ez] lz].
  apply SFltb_zero_false. left. apply binary_round_aux_sign.
Qed.

(** A float equal to zero is not positive. *)
Lemma eqb_zero_not_pos d : (d =? 0)%float = true → (0 <? d)%float = false.
Proof.
  rewrite FloatAxioms.eqb_spec, FloatAxioms.ltb_spec, Prim2SF_zero.
  destruct (Prim2SF d) as [s| [|]| |[|] m e]; cbv; congruence.
Qed.

Lemma Prim2SF_two : Prim2SF 2 = S754_finite false 4503599627370496 (-51).
Proof. reflexivity. Qed.

(** [0 * l / 2] is a zero or [NaN], whatever [l] is. *)
Lemma zero_mul_half_not_neg l : (0 * l / 2 <? 0)%float = false.
Proof.
  rewrite FloatAxioms.ltb_spec, div_spec, mul_spec, Prim2SF_zero, Prim2SF_two.
  destruct (Prim2SF l) as [s| [|]| |[|] m e]; reflexivity.
Qed.

End FloatFacts.

(** ** Facts on the state-and-exception monad *)

Module MonadFacts.

Ltac msimpl :=
  unfold mbind, M_bind, mret, M_ret, get, modify, lift in *; simpl in *.

Lemma bind_unfold {S A B} (m : M S A) (f : A → M S B) s :
  (m ≫= f) s = match m s with
               | (Ok a, s') => f a s'
               | (Raise e, s') => (Raise e, s')
               end.
Proof. reflexivity. Qed.

Lemma bind_state_inv {S A B} (P : S → Prop) (m : M S A) (f : A → M S B) s :
  P s → (∀ s, P s → P (m s).2) → (∀ a s, P s → P (f a s).2) →
  P ((m ≫= f) s).2.
Proof.
  intros Hs Hm Hf. rewrite bind_unfold. specialize (Hm s Hs).
  destruct (m s) as [[a|e] s']; simpl in *; auto.
Qed.

Lemma returns_ret {S A} (P : A → Prop) (a : A) :
  P a → returns (S := S) P (mret a).
Proof. intros Ha s r s' [= <- _]. done. Qed.

Lemma returns_bind {S A B} (P : B → Prop) (m : M S A) (f : A → M S B) :
  (∀ a, returns P (f a)) → returns P (m ≫= f).
Proof.
  intros Hf s r s'. rewrite bind_unfold.
  destruct (m s) as [[a|e] s1]; [|done]. apply Hf.
Qed.

End MonadFacts.

(** ** Properties of the HDDM_W detector *)

Module HDDM_W_proofs.

Import FloatFacts MonadFacts HDDM_W.

Section Facts.

Context {ext : Externals}.

Lemma hoeffding_eps_inv ibc c b :
  hoeffding_eps ibc c = Ok b →
  ∃ q l, py_div 1 c = Ok q ∧ py_log ln q = Ok l ∧ py_sqrt (ibc * l / 2) = Ok b.
Proof.
  unfold hoeffding_eps. destruct (py_div 1 c) as [q|] eqn:Hq; [|discriminate].
  simpl. destruct (py_log ln q) as [l|] eqn:Hl; [|discriminate]. simpl.
  intros Hb. by exists q, l.
Qed.

Lemma hoeffding_eps_zero ibc c b :
  hoeffding_eps ibc c = Ok b → ∃ b0, hoeffding_eps 0 c = Ok b0.
Proof.
  intros (q & l & Hq & Hl & _)%hoeffding_eps_inv.
  unfold hoeffding_eps. rewrite Hq. simpl. rewrite Hl. simpl.
  unfold py_sqrt. rewrite zero_mul_half_not_neg. eauto.
Qed.

Lemma update_incr_statistics_frame v c s :
  let s' := (_update_incr_statistics v c s).2 in
  total s' = total s ∧ decr_cutpoint s' = decr_cutpoint s
  ∧ sample1_decr_monitor s' = sample1_decr_monitor s
  ∧ sample2_decr_monitor s' = sample2_decr_monitor s
  ∧ drift_confidence s' = drift_confidence s
  ∧ warning_confidence s' = warning_confidence s
  ∧ lambda_option s' = lambda_option s
  ∧ two_sided_test s' = two_sided_test s.
Proof.
  unfold _update_incr_statistics. msimpl.
  destruct (hoeffding_eps _ c); simpl; [|done].
  destruct (_ <? _)%float; simpl; done.
Qed.

Lemma update_incr_statistics_ok v c s s' :
  _update_incr_statistics v c s = (Ok tt, s') →
  ∃ b, hoeffding_eps (independent_bounded_condition_sum (total s)) c = Ok b.
Proof.
  unfold _update_incr_statistics. msimpl.
  destruct (hoeffding_eps _ c); simpl; [eauto|]. intros [=].
Qed.


Lemma update_stats_unfold v s :
  update_stats v s = _update_incr_statistics v (drift_confidence s) (with_total v s).
Proof. reflexivity. Qed.

Lemma update_stats_frame v s :
  let s' := (update_stats v s).2 in
  total s' = ewma_step (lambda_option s) (1.0 - lambda_option s) v (total s)
  ∧ decr_cutpoint s' = decr_cutpoint s
  ∧ sample1_decr_monitor s' = sample1_decr_monitor s
  ∧ sample2_decr_monitor s' = sample2_decr_monitor s
  ∧ drift_confidence s' = drift_confidence s
  ∧ warning_confidence s' = warning_confidence s
  ∧ lambda_option s' = lambda_option s
  ∧ two_sided_test s' = two_sided_test s.
Proof.
  rewrite update_stats_unfold.
  pose proof (update_incr_statistics_frame v (drift_confidence s) (with_total v s))
    as H. cbv zeta in *.
  destruct H as (-> & -> & -> & -> & -> & -> & -> & ->).
  done.
Qed.

Lemma update_stats_ok v s s1 :
  update_stats v s = (Ok tt, s1) →
  ∃ b, hoeffding_eps (independent_bounded_condition_sum (total s1))
         (drift_confidence s1) = Ok b.
Proof.
  intros Hs. pose proof (update_stats_frame v s) as (Ht & _ & _ & _ & Hd & _).
  rewrite Hs in Ht, Hd. simpl in Ht, Hd. rewrite Ht, Hd.
  rewrite update_stats_unfold in Hs.
  by apply update_incr_statistics_ok in Hs.
Qed.

Lemma update_incr_flags_unfold s :
  update_incr_flags s =
  match monitor s (drift_confidence s) with
  | Raise e => (Raise e, s)
  | Ok true => (Ok tt, set_flags true false (reset s))
  | Ok false =>
      match monitor s (warning_confidence s) with
      | Raise e => (Raise e, s)
      | Ok warning => (Ok tt, set_flags false warning s)
      end
  end.
Proof.
  unfold update_incr_flags, _monitor_mean_incr, monitor. msimpl.
  destruct (_detect_mean_increment _ _ (drift_confidence s)) as [[|]|]; try done.
  destruct (_detect_mean_increment _ _ (warning_confidence s)) as [[|]|]; done.
Qed.

Lemma detect_idle s2 c : _detect_mean_increment s2 SampleInfo_new c = Ok false.
Proof.
  unfold _detect_mean_increment. simpl.
  by rewrite orb_true_r.
Qed.

Lemma update_decr_idle v s :
  decr_idle s →
  update_decr v s =
  match hoeffding_eps (independent_bounded_condition_sum (total s))
          (drift_confidence s) with
  | Raise e => (Raise e, s)
  | Ok _ => (Ok tt, after_decr v s)
  end.
Proof.
  intros [Hc H1]. unfold update_decr, _update_decr_statistics, _monitor_mean_decr.
  msimpl. destruct (hoeffding_eps _ _) as [eps|]; simpl; [|done].
  rewrite Hc, ltb_infinity_l. simpl.
  destruct (two_sided_test s); simpl; [rewrite H1, detect_idle|]; done.
Qed.

Lemma decr_idle_reset s : decr_idle (reset s).
Proof. done. Qed.

Lemma decr_idle_init dc wc lam ts : decr_idle (init dc wc lam ts).
Proof. done. Qed.

Lemma update_stats_idle v s : decr_idle s → decr_idle (update_stats v s).2.
Proof.
  intros [Hc H1]. pose proof (update_stats_frame v s) as (_ & Hc' & H1' & _).
  split; congruence.
Qed.

Lemma update_incr_flags_idle s : decr_idle s → decr_idle (update_incr_flags s).2.
Proof.
  intros Hs. rewrite update_incr_flags_unfold.
  destruct (monitor s (drift_confidence s)) as [[|]|]; try done.
  destruct (monitor s (warning_confidence s)) as [[|]|]; done.
Qed.

Lemma update_decr_keeps_idle v s : decr_idle s → decr_idle (update_decr v s).2.
Proof.
  intros Hs. rewrite update_decr_idle by done.
  destruct (hoeffding_eps _ _); done.
Qed.

Lemma update_idle v s : decr_idle s → decr_idle (update v s).2.
Proof.
  intros Hs. unfold update.
  apply bind_state_inv; [done|apply update_stats_idle|intros _ s1 H1].
  apply bind_state_inv; [done|apply update_incr_flags_idle|intros _ s2 H2].
  apply bind_state_inv; [done|apply update_decr_keeps_idle|intros _ s3 H3].
  done.
Qed.

Lemma reachable_idle s : reachable s → decr_idle s.
Proof.
  induction 1; auto using decr_idle_init, update_idle, decr_idle_reset.
Qed.


Lemma update_unfold v s :
  update v s =
  match update_stats v s with
  | (Raise e, s1) => (Raise e, s1)
  | (Ok _, s1) =>
      match update_incr_flags s1 with
      | (Raise e, s2) => (Raise e, s2)
      | (Ok _, s2) =>
          match update_decr v s2 with
          | (Raise e, s3) => (Raise e, s3)
          | (Ok _, s3) => (Ok (_in_concept_change s3, _in_warning_zone s3), s3)
          end
      end
  end.
Proof.
  unfold update. rewrite bind_unfold.
  destruct (update_stats v s) as [[[]|e] s1]; [|done].
  rewrite bind_unfold.
  destruct (update_incr_flags s1) as [[[]|e] s2]; [|done].
  rewrite bind_unfold.
  destruct (update_decr v s2) as [[[]|e] s3]; done.
Qed.

Lemma detect_fires a b c :
  _detect_mean_increment a b c = Ok true ↔
  (EWMA_estimator a <? 0)%float = false
  ∧ (EWMA_estimator b <? 0)%float = false
  ∧ ∃ bound,
      hoeffding_eps (independent_bounded_condition_sum a
                     + independent_bounded_condition_sum b)%float c = Ok bound
      ∧ (bound <? EWMA_estimator b - EWMA_estimator a)%float = true.
Proof.
  unfold _detect_mean_increment.
  destruct (EWMA_estimator a <? 0)%float; simpl.
  { split; [discriminate|]. by intros [? _]. }
  destruct (EWMA_estimator b <? 0)%float; simpl.
  { split; [discriminate|]. by intros (_ & ? & _). }
  destruct (hoeffding_eps _ c) as [bound|e]; simpl.
  - split.
    + intros [= Hb]. repeat split; try done. by exists bound.
    + intros (_ & _ & bound' & [= <-] & Hb). by rewrite Hb.
  - split; [discriminate|]. by intros (_ & _ & ? & ? & _).
Qed.

Lemma update_after_stats s value s1 b :
  decr_idle s1 →
  update_stats value s = (Ok tt, s1) →
  hoeffding_eps (independent_bounded_condition_sum (total s1))
    (drift_confidence s1) = Ok b →
  update value s =
    match monitor s1 (drift_confidence s1) with
    | Raise e => (Raise e, s1)
    | Ok true =>
        (Ok (true, false), after_decr value (set_flags true false (reset s1)))
    | Ok false =>
        match monitor s1 (warning_confidence s1) with
        | Raise e => (Raise e, s1)
        | Ok warning =>
            (Ok (false, warning), after_decr value (set_flags false warning s1))
        end
    end.
Proof.
  intros Hidle Hs Hb.
  rewrite update_unfold, Hs, update_incr_flags_unfold.
  destruct (monitor s1 (drift_confidence s1)) as [[|]|]; [| |done].
  - destruct (hoeffding_eps_zero _ _ _ Hb) as [b0 Hb0].
    rewrite update_decr_idle by done. simpl. by rewrite Hb0.
  - destruct (monitor s1 (warning_confidence s1)) as [w|]; [|done].
    rewrite update_decr_idle by done. simpl. by rewrite Hb.
Qed.

(** Claim C2, amended. In every reachable state, once [update] has updated
    its statistics, it tests the increase monitor at the drift confidence
    first: if that test fires, the detector is reset and [update] returns
    [(True, False)]; only otherwise is the monitor tested at the warning
    confidence, and [update] returns [(False, True)] if it fires and
    [(False, False)] if not. The monitor fires exactly when both of its EWMAs
    are initialised (not negative) and [sample2.EWMA - sample1.EWMA] exceeds
    the bound. *)
Theorem update_increase_tests s value s1 :
  reachable s →
  update_stats value s = (Ok tt, s1) →
  update value s =
    match monitor s1 (drift_confidence s1) with
    | Raise e => (Raise e, s1)
    | Ok true =>
        (Ok (true, false), after_decr value (set_flags true false (reset s1)))
    | Ok false =>
        match monitor s1 (warning_confidence s1) with
        | Raise e => (Raise e, s1)
        | Ok warning =>
            (Ok (false, warning), after_decr value (set_flags false warning s1))
        end
    end
  ∧ ∀ a b c,
      _detect_mean_increment a b c = Ok true ↔
      (EWMA_estimator a <? 0)%float = false
      ∧ (EWMA_estimator b <? 0)%float = false
      ∧ ∃ bound,
          hoeffding_eps (independent_bounded_condition_sum a
                         + independent_bounded_condition_sum b)%float c = Ok bound
          ∧ (bound <? EWMA_estimator b - EWMA_estimator a)%float = true.
Proof.
  intros Hr Hs. split; [|apply detect_fires].
  assert (decr_idle s1) as Hidle.
  { replace s1 with (update_stats value s).2 by by rewrite Hs.
    by apply update_stats_idle, reachable_idle. }
  destruct (update_stats_ok _ _ _ Hs) as [b Hb].
  by apply update_after_stats with b.
Qed.






Lemma update_core v s :
  decr_idle s →
  update v s =
  match update v (core s) with
  | (Ok o, sf) => (Ok o, sf)
  | (Raise e, sf) => (Raise e, restore s sf)
  end.
Proof.
  intros [Hc H1]. destruct s. simpl in Hc, H1. subst.
  rewrite !update_unfold, !update_stats_unfold.
  unfold _update_incr_statistics, core, with_total. msimpl.
  destruct (hoeffding_eps _ _) as [b|e] eqn:Hb; simpl; [|done].
  destruct (_ <? _)%float eqn:Hcut; simpl.
  - rewrite !update_incr_flags_unfold. unfold monitor. simpl.
    destruct (_detect_mean_increment _ _ _) as [[|]|]; simpl; [| |done].
    + rewrite !update_decr_idle by done. simpl.
      destruct (hoeffding_eps_zero _ _ _ Hb) as [b0 ->]. done.
    + destruct (_detect_mean_increment _ _ _) as [w|]; simpl; [|done].
      rewrite !update_decr_idle by done. simpl. rewrite Hb. done.
  - rewrite !update_incr_flags_unfold. unfold monitor. simpl.
    destruct (_detect_mean_increment _ _ _) as [[|]|]; simpl; [| |done].
    + rewrite !update_decr_idle by done. simpl.
      destruct (hoeffding_eps_zero _ _ _ Hb) as [b0 ->]. done.
    + destruct (_detect_mean_increment _ _ _) as [w|]; simpl; [|done].
      rewrite !update_decr_idle by done. simpl. rewrite Hb. done.
Qed.

Lemma core_restore s sf : core (restore s sf) = core sf.
Proof. by destruct sf. Qed.

Lemma decr_idle_core s : decr_idle s → decr_idle (core s).
Proof. done. Qed.

Lemma feed_core v vs s s' :
  decr_idle s → decr_idle s' → core s = core s' →
  (feed (v :: vs) s).1 = (feed (v :: vs) s').1
  ∧ core (feed (v :: vs) s).2 = core (feed (v :: vs) s').2
  ∧ ((feed (v :: vs) s).1.1 ≠ [] → (feed (v :: vs) s).2 = (feed (v :: vs) s').2).
Proof.
  intros Hs Hs' Hcore. simpl.
  rewrite (update_core v s), (update_core v s') by done. rewrite Hcore.
  destruct (update v (core s')) as [[o|e] sf]; simpl.
  - destruct (feed vs sf) as [[os e] sf']. done.
  - rewrite !core_restore. done.
Qed.

Lemma hoeffding_eps_not_neg x c bound :
  hoeffding_eps x c = Ok bound → (bound <? 0)%float = false.
Proof.
  intros (q & l & _ & _ & Hb)%hoeffding_eps_inv. revert Hb. unfold py_sqrt.
  destruct (_ <? 0)%float; [done|]. intros [= <-]. apply sqrt_not_neg.
Qed.

Lemma bit_not_neg b : is_bit b → (b <? 0)%float = false.
Proof. by intros [-> | ->]. Qed.

Lemma bit_sub_self b : is_bit b → (b - b)%float = 0%float.
Proof. by intros [-> | ->]. Qed.

Lemma detect_quiet b m1 m2 c :
  is_bit b → quiet b m1 → quiet b m2 → _detect_mean_increment m1 m2 c ≠ Ok true.
Proof.
  intros Hb H1 H2 (N1 & N2 & bound & Hbound & Hlt)%detect_fires.
  destruct H1 as [H1|H1]; [by rewrite H1 in N1|].
  destruct H2 as [H2|H2]; [by rewrite H2 in N2|].
  rewrite H1, H2, bit_sub_self in Hlt by done.
  by rewrite (hoeffding_eps_not_neg _ _ _ Hbound) in Hlt.
Qed.

Lemma ewma_step_quiet lam b m :
  is_bit b → ewma_fixed lam b → quiet b m →
  EWMA_estimator (ewma_step lam (1.0 - lam) b m) = b.
Proof.
  intros Hb Hfix [Hm|Hm]; unfold ewma_step; rewrite Hm.
  - done.
  - rewrite bit_not_neg by done. simpl. apply Hfix.
Qed.

Lemma calm_update b s :
  is_bit b → ewma_fixed (lambda_option s) b → calm b s →
  calm b (update b s).2
  ∧ lambda_option (update b s).2 = lambda_option s
  ∧ ∀ o, (update b s).1 = Ok o → o = (false, false).
Proof.
  intros Hb Hfix (Hidle & Ht & H1 & H2).
  assert (quiet b SampleInfo_new) as Hnew by by left.
  pose proof (ewma_step_quiet _ _ _ Hb Hfix Ht) as Ht'.
  pose proof (ewma_step_quiet _ _ _ Hb Hfix H2) as H2'.
  rewrite update_unfold, update_stats_unfold.
  unfold _update_incr_statistics. msimpl.
  destruct (hoeffding_eps _ _) as [bound|e] eqn:Hbound; simpl.
  2:{ unfold calm, quiet; simpl; split_and!; auto; done. }
  match goal with |- context [if ?c then _ else _] => destruct c end; simpl.
  - rewrite update_incr_flags_unfold. unfold monitor. simpl.
    rewrite !detect_idle. simpl.
    rewrite update_decr_idle by done. simpl. rewrite Hbound. simpl.
    unfold calm, quiet; simpl; split_and!; auto; try done. by intros o [= <-].
  - rewrite update_incr_flags_unfold. unfold monitor. simpl.
    match goal with |- context [_detect_mean_increment ?a ?c ?d] =>
      pose proof (detect_quiet b a c d Hb H1 (or_intror H2')) as Hd;
      destruct (_detect_mean_increment a c d) as [[|]|] end;
      [done| |unfold calm, quiet; simpl; split_and!; auto; done].
    match goal with |- context [_detect_mean_increment ?a ?c ?d] =>
      pose proof (detect_quiet b a c d Hb H1 (or_intror H2')) as Hw;
      destruct (_detect_mean_increment a c d) as [[|]|] end;
      [done| |unfold calm, quiet; simpl; split_and!; auto; done].
    rewrite update_decr_idle by done. simpl. rewrite Hbound. simpl.
    unfold calm, quiet; simpl; split_and!; auto; try done. by intros o [= <-].
Qed.

Lemma calm_feed b k s :
  is_bit b → ewma_fixed (lambda_option s) b → calm b s →
  Forall no_signal (feed (repeat b k) s).1.1.
Proof.
  intros Hb. revert s. induction k as [|k IH]; intros s Hfix Hs; simpl; [done|].
  destruct (calm_update b s Hb Hfix Hs) as (Hcalm & Hlam & Ho).
  destruct (update b s) as [[o|e] s']; simpl in *; [|done].
  rewrite <- Hlam in Hfix. specialize (IH s' Hfix Hcalm).
  destruct (feed (repeat b k) s') as [[os e] sf]. simpl in *.
  constructor; [by apply Ho|done].
Qed.


Lemma update_norm v s :
  decr_idle s →
  (update v s).1 = (update v (norm s)).1
  ∧ norm (update v s).2 = norm (update v (norm s)).2
  ∧ (is_ok (update v s).1 →
     forget_decr2 (update v s).2 = forget_decr2 (update v (norm s)).2).
Proof.
  intros [Hc H1]. destruct s. simpl in Hc, H1. subst.
  rewrite !update_unfold, !update_stats_unfold.
  unfold _update_incr_statistics, norm, core, forget_decr2, with_total. msimpl.
  destruct (hoeffding_eps _ _) as [b|e] eqn:Hb; simpl; [|done].
  destruct (_ <? _)%float eqn:Hcut; simpl.
  - rewrite !update_incr_flags_unfold. unfold monitor. simpl.
    destruct (_detect_mean_increment _ _ _) as [[|]|]; simpl; [| |done].
    + rewrite !update_decr_idle by done. simpl.
      destruct (hoeffding_eps_zero _ _ _ Hb) as [b0 ->]. done.
    + destruct (_detect_mean_increment _ _ _) as [w|]; simpl; [|done].
      rewrite !update_decr_idle by done. simpl. rewrite Hb. done.
  - rewrite !update_incr_flags_unfold. unfold monitor. simpl.
    destruct (_detect_mean_increment _ _ _) as [[|]|]; simpl; [| |done].
    + rewrite !update_decr_idle by done. simpl.
      destruct (hoeffding_eps_zero _ _ _ Hb) as [b0 ->]. done.
    + destruct (_detect_mean_increment _ _ _) as [w|]; simpl; [|done].
      rewrite !update_decr_idle by done. simpl. rewrite Hb. done.
Qed.

Lemma norm_forget s : norm (forget_decr2 s) = norm s.
Proof. by destruct s. Qed.

Lemma decr_idle_norm s : decr_idle s → decr_idle (norm s).
Proof. done. Qed.

Lemma decr_idle_forget s : decr_idle s → decr_idle (forget_decr2 s).
Proof. done. Qed.

Lemma forget_norm s s' : forget_decr2 s = forget_decr2 s' → norm s = norm s'.
Proof. unfold norm. by intros ->. Qed.

Lemma feed_idle vs s : decr_idle s → decr_idle (feed vs s).2.
Proof.
  revert s. induction vs as [|v vs IH]; intros s Hs; simpl; [done|].
  pose proof (update_idle v s Hs) as H.
  destruct (update v s) as [[o|e] s1]; simpl in *; [|done].
  specialize (IH s1 H). by destruct (feed vs s1) as [[os e] sf].
Qed.

Lemma update_forget v s :
  decr_idle s →
  (update v s).1 = (update v (forget_decr2 s)).1
  ∧ forget_decr2 (update v s).2 = forget_decr2 (update v (forget_decr2 s)).2.
Proof.
  intros [Hc H1]. destruct s. simpl in Hc, H1. subst.
  rewrite !update_unfold, !update_stats_unfold.
  unfold _update_incr_statistics, forget_decr2, with_total. msimpl.
  destruct (hoeffding_eps _ _) as [b|e] eqn:Hb; simpl; [|done].
  destruct (_ <? _)%float eqn:Hcut; simpl.
  - rewrite !update_incr_flags_unfold. unfold monitor. simpl.
    destruct (_detect_mean_increment _ _ _) as [[|]|]; simpl; [| |done].
    + rewrite !update_decr_idle by done. simpl.
      destruct (hoeffding_eps_zero _ _ _ Hb) as [b0 ->]. done.
    + destruct (_detect_mean_increment _ _ _) as [w|]; simpl; [|done].
      rewrite !update_decr_idle by done. simpl. rewrite Hb. done.
  - rewrite !update_incr_flags_unfold. unfold monitor. simpl.
    destruct (_detect_mean_increment _ _ _) as [[|]|]; simpl; [| |done].
    + rewrite !update_decr_idle by done. simpl.
      destruct (hoeffding_eps_zero _ _ _ Hb) as [b0 ->]. done.
    + destruct (_detect_mean_increment _ _ _) as [w|]; simpl; [|done].
      rewrite !update_decr_idle by done. simpl. rewrite Hb. done.
Qed.

Lemma feed_forget vs s s' :
  decr_idle s → decr_idle s' → forget_decr2 s = forget_decr2 s' →
  (feed vs s).1 = (feed vs s').1
  ∧ forget_decr2 (feed vs s).2 = forget_decr2 (feed vs s').2.
Proof.
  revert s s'. induction vs as [|v vs IH]; intros s s' Hs Hs' Heq; simpl; [done|].
  destruct (update_forget v s Hs) as (Hr & Hf).
  destruct (update_forget v s' Hs') as (Hr' & Hf').
  rewrite <- Heq in Hr', Hf'. rewrite <- Hr in Hr'. rewrite <- Hf in Hf'.
  pose proof (update_idle v s Hs) as Hi. pose proof (update_idle v s' Hs') as Hi'.
  destruct (update v s) as [[o|e] s1], (update v s') as [[o'|e'] s1'];
    simpl in *; try done.
  - injection Hr' as <-.
    destruct (IH s1 s1' Hi Hi' (eq_sym Hf')) as [IH1 IH2].
    destruct (feed vs s1) as [[os e] sf], (feed vs s1') as [[os' e'] sf'].
    simpl in *. by injection IH1 as -> ->.
  - by injection Hr' as <-.
Qed.

Lemma feed_norm v vs s s' :
  decr_idle s → decr_idle s' → norm s = norm s' →
  (feed (v :: vs) s).1 = (feed (v :: vs) s').1
  ∧ norm (feed (v :: vs) s).2 = norm (feed (v :: vs) s').2
  ∧ ((feed (v :: vs) s).1.1 ≠ [] →
     forget_decr2 (feed (v :: vs) s).2 = forget_decr2 (feed (v :: vs) s').2).
Proof.
  intros Hs Hs' Heq. simpl.
  destruct (update_norm v s Hs) as (Hr & Hn & Hf).
  destruct (update_norm v s' Hs') as (Hr' & Hn' & Hf').
  rewrite <- Heq in Hr', Hn', Hf'. rewrite <- Hr in Hr'. rewrite <- Hn in Hn'.
  pose proof (update_idle v s Hs) as Hi. pose proof (update_idle v s' Hs') as Hi'.
  destruct (update v s) as [[o|e] s1], (update v s') as [[o'|e'] s1'];
    simpl in *; try done.
  - injection Hr' as <-.
    assert (forget_decr2 s1 = forget_decr2 s1') as H1 by by rewrite Hf, Hf'.
    destruct (feed_forget vs s1 s1' Hi Hi' H1) as [IH1 IH2].
    destruct (feed vs s1) as [[os e] sf], (feed vs s1') as [[os' e'] sf'].
    simpl in *. injection IH1 as -> ->. split_and!; try done.
    by apply forget_norm.
  - injection Hr' as <-. done.
Qed.

Lemma feed_reachable vs s : reachable s → reachable (feed vs s).2.
Proof.
  revert s. induction vs as [|v vs IH]; intros s Hs; simpl; [done|].
  pose proof (reachable_update v s Hs) as H.
  destruct (update v s) as [[o|e] s1]; simpl in *; [|done].
  specialize (IH s1 H). by destruct (feed vs s1) as [[os e] sf].
Qed.

Lemma calm_reset b s : calm b (reset s).
Proof. unfold calm, quiet. simpl. split_and!; auto. done. Qed.

Lemma drift_state v s w sD :
  reachable s → update v s = (Ok (true, w), sD) →
  ∃ s1, sD = after_decr v (set_flags true false (reset s1))
        ∧ fresh_like s1 = fresh_like s.
Proof.
  intros Hr Hu. destruct (update_stats v s) as [[[]|e] s1] eqn:Hs.
  - assert (decr_idle s1) as Hidle.
    { replace s1 with (update_stats v s).2 by by rewrite Hs.
      by apply update_stats_idle, reachable_idle. }
    destruct (update_stats_ok _ _ _ Hs) as [b Hb].
    pose proof (update_after_stats s v s1 b Hidle Hs Hb) as H.
    pose proof (update_stats_frame v s) as (_ & _ & _ & _ & Hd & Hw & Hl & Ht).
    rewrite Hs in Hd, Hw, Hl, Ht. simpl in *.
    rewrite Hu in H. exists s1. split.
    + destruct (monitor s1 (drift_confidence s1)) as [[|]|]; [congruence| |done].
      destruct (monitor s1 (warning_confidence s1)); done.
    + unfold fresh_like. congruence.
  - rewrite update_unfold, Hs in Hu. done.
Qed.

(** Claim C6, amended. Fed one or more times the constant bit [b], a detector
    that has just been [reset()] returns what a fresh detector with the same
    parameters returns, and ends in the same state if the first [update]
    returned. A detector whose [update] has just signalled a drift also
    returns what the fresh detector returns, and ends in the same state but
    for [sample2_decr_monitor], which took in the input that triggered the
    drift. Where the EWMA of the constant input stays at [b], neither a drift
    nor a warning is signalled. *)
Theorem reset_law b k :
  is_bit b →
  (∀ s0,
     let after_reset := feed (repeat b (S k)) (reset s0) in
     let from_fresh := feed (repeat b (S k)) (fresh_like s0) in
     after_reset.1 = from_fresh.1
     ∧ (after_reset.1.1 ≠ [] → after_reset.2 = from_fresh.2)
     ∧ (ewma_fixed (lambda_option s0) b → Forall no_signal after_reset.1.1))
  ∧ (∀ s0 value warning sD,
       reachable s0 →
       update value s0 = (Ok (true, warning), sD) →
       let after_drift := feed (repeat b (S k)) sD in
       let from_fresh := feed (repeat b (S k)) (fresh_like s0) in
       after_drift.1 = from_fresh.1
       ∧ (after_drift.1.1 ≠ [] →
          forget_decr2 after_drift.2 = forget_decr2 from_fresh.2)
       ∧ (ewma_fixed (lambda_option s0) b → Forall no_signal after_drift.1.1)).
Proof.
  intros Hb. split.
  - intros s0. cbv zeta.
    destruct (feed_core b (repeat b k) (reset s0) (fresh_like s0))
      as (H1 & _ & H2); [done..|].
    split_and!; [done|done|].
    intros Hfix. apply (calm_feed b (S k) (reset s0)); [done|done|].
    apply calm_reset.
  - intros s0 v w sD Hr Hu. cbv zeta.
    destruct (drift_state _ _ _ _ Hr Hu) as (s1 & -> & Hfresh).
    rewrite <- Hfresh.
    destruct (feed_norm b (repeat b k)
                (after_decr v (set_flags true false (reset s1))) (fresh_like s1))
      as (H1 & _ & H2); [done..|].
    split_and!; [done|done|].
    intros Hfix. apply (calm_feed b (S k)); [done| |].
    + simpl. injection Hfresh as _ _ Hl _. by rewrite Hl.
    + unfold calm, quiet. simpl. split_and!; auto. done.
Qed.

End Facts.

(** *** The claims on concrete detectors *)

#[local] Existing Instance reference.

Lemma before_drift_reachable : reachable (ext := reference) before_drift.
Proof. apply feed_reachable, reachable_init. Qed.

Lemma at_drift_signalled :
  update (ext := reference) 1 before_drift = (Ok (true, false), at_drift).
Proof. vm_compute. reflexivity. Qed.

(** At the eighteenth [1] the default detector signals a drift, is reset,
    and its decrease monitor takes the [1] in. *)
Lemma update_increase_tests_witness :
  reachable (ext := reference) before_drift
  ∧ update_stats (ext := reference) 1 before_drift
    = (Ok tt, (update_stats (ext := reference) 1 before_drift).2)
  ∧ (update (ext := reference) 1 before_drift).1 = Ok (true, false)
  ∧ sample2_decr_monitor (update (ext := reference) 1 before_drift).2
    = mkSampleInfo 1 1.
Proof.
  pose proof before_drift_reachable as Hr.
  assert (update_stats (ext := reference) 1 before_drift
          = (Ok tt, (update_stats (ext := reference) 1 before_drift).2)) as Hs
    by (vm_compute; reflexivity).
  destruct (update_increase_tests (ext := reference) before_drift 1 _ Hr Hs)
    as [Hu _].
  split_and!; [exact Hr|exact Hs|rewrite Hu; vm_compute; reflexivity
              |rewrite Hu; vm_compute; reflexivity].
Defined.

(** A fresh detector with [drift_confidence=1e-320] is fed a [1]: its
    bound is infinite, [sample1] stays uninitialised while [sample2] takes
    the [1] in, and [update] returns [(False, False)]; the unguarded
    comparison at the warning confidence holds ([2 > 1.63]), so [update]
    should return [(False, True)] according to the claim. *)
Lemma stated_update_counterexample : ¬ stated_update (ext := reference).
Proof.
  intros H.
  assert (update_stats (ext := reference) 1 strict_detector
          = (Ok tt, (update_stats (ext := reference) 1 strict_detector).2)) as Hs
    by (vm_compute; reflexivity).
  assert (update (ext := reference) 1 strict_detector
          = (Ok (false, false), (update (ext := reference) 1 strict_detector).2))
    as Hu by (vm_compute; reflexivity).
  specialize (H strict_detector 1%float _ _ _
                (reachable_init _ _ _ _) (or_intror eq_refl) Hs Hu).
  vm_compute in H. discriminate.
Qed.

(** The detector that has just signalled a drift is fed one [1], and so is a
    fresh detector: the variance proxy of [sample2_decr_monitor] is
    [0.905] in the first and [1] in the second. *)
Lemma stated_reset_law_counterexample : ¬ stated_reset_law (ext := reference).
Proof.
  intros H. destruct (H at_drift 1%float 1%nat) as [Heq _].
  - right. exists before_drift, 1%float, false.
    split; [apply before_drift_reachable|apply at_drift_signalled].
  - by right.
  - apply (f_equal (λ m, (independent_bounded_condition_sum
                            (sample2_decr_monitor m) =? 1)%float)) in Heq.
    vm_compute in Heq. discriminate.
Qed.

(** Before the first sample, a detector that was [reset()] still has the
    [estimation] of its past, which a fresh detector has not. *)
Example reset_keeps_estimation :
  estimation (reset (ext := reference) before_drift) ≠ estimation default_detector.
Proof. vm_compute. discriminate. Qed.

(** The reset law on the default detector: after the drift at the
    eighteenth [1], and after an explicit [reset()], three more [1]s. *)
Lemma reset_law_witness :
  is_bit 1
  ∧ reachable (ext := reference) before_drift
  ∧ update (ext := reference) 1 before_drift = (Ok (true, false), at_drift)
  ∧ ewma_fixed 0.05 1
  ∧ (feed (ext := reference) (repeat 1%float 3) (reset (ext := reference) before_drift)).2
    = (feed (ext := reference) (repeat 1%float 3) default_detector).2
  ∧ Forall no_signal
      (feed (ext := reference) (repeat 1%float 3) (reset (ext := reference) before_drift)).1.1
  ∧ forget_decr2 (feed (ext := reference) (repeat 1%float 3) at_drift).2
    = forget_decr2 (feed (ext := reference) (repeat 1%float 3) default_detector).2
  ∧ Forall no_signal (feed (ext := reference) (repeat 1%float 3) at_drift).1.1.
Proof.
  assert (is_bit 1) as Hb by by right.
  assert (ewma_fixed 0.05 1) as Hfix by reflexivity.
  destruct (reset_law (ext := reference) 1 2 Hb) as [Hreset Hdrift].
  destruct (Hreset before_drift) as (_ & Hstate & Hquiet).
  destruct (Hdrift before_drift 1%float false at_drift
              before_drift_reachable at_drift_signalled)
    as (_ & Hstate' & Hquiet').
  split_and!; [exact Hb|exact before_drift_reachable|exact at_drift_signalled
              |exact Hfix| | | |].
  - apply Hstate. vm_compute. discriminate.
  - apply Hquiet, Hfix.
  - apply Hstate'. vm_compute. discriminate.
  - apply Hquiet', Hfix.
Defined.



End HDDM_W_proofs.

(** ** Properties of the Hoeffding tree regressor *)

Module HTR_proofs.

Import FloatFacts MonadFacts HTR.

Section Facts.

Context {data : Data} {env : Collaborators}.

Lemma read_node_ok l n t : heap t !! l = Some n → read_node l t = (Ok n, t).
Proof. unfold read_node. by intros ->. Qed.

Lemma read_leaf_ok l lf t : heap t !! l = Some (Leaf lf) → read_leaf l t = (Ok lf, t).
Proof. intros H. unfold read_leaf. rewrite bind_unfold, (read_node_ok _ _ _ H). done. Qed.

Lemma read_leaf_inv l lf t t' : read_leaf l t = (Ok lf, t') → t' = t ∧ heap t !! l = Some (Leaf lf).
Proof.
  unfold read_leaf, read_node. rewrite bind_unfold.
  destruct (heap t !! l) as [[lf'|]|]; try done. by intros [= -> ->].
Qed.

Lemma split_condition_rule best second hb tie :
  match split_condition best second hb tie with
  | Ok b => b = approval_rule best second hb tie
  | Raise _ => False
  end.
Proof.
  unfold split_condition, approval_rule, py_div.
  destruct (0 <? merit best)%float eqn:Hpos; simpl; [|done].
  destruct (merit best =? 0)%float eqn:Hz; simpl; [|done].
  by rewrite (eqb_zero_not_pos _ Hz) in Hpos.
Qed.

Lemma update_leaf_ok l lf f t :
  heap t !! l = Some (Leaf lf) →
  update_leaf l f t = (Ok tt, set_heap (<[l := Leaf (f lf)]> (heap t)) t).
Proof.
  intros H. unfold update_leaf. by rewrite bind_unfold, (read_leaf_ok _ _ _ H).
Qed.

(** What [split_decision] computes, case by case. *)
Lemma split_decision_unfold node lf t :
  heap t !! node = Some (Leaf lf) →
  let suggestions := list_sort (get_best_split_suggestions lf t) in
  split_decision node t =
  if (length suggestions <? 2)%nat then
    (Ok (mkDecision suggestions (0 <? length suggestions)%nat None), t)
  else
    match _hoeffding_bound (get_range_of_merit (leaf_stats lf))
            (split_confidence t) (total_weight lf) with
    | Raise e => (Raise e, t)
    | Ok hb =>
        match best_two suggestions with
        | None => (Raise IndexError, t)
        | Some (best, second) =>
            let d := mkDecision suggestions
                       (approval_rule best second hb (tie_threshold t)) (Some hb) in
            if remove_poor_atts t then
              match py_div (merit second) (merit best) with
              | Raise e => (Raise e, t)
              | Ok best_ratio =>
                  match poor_atts_scan suggestions (merit best) best_ratio hb ∅ with
                  | Raise e => (Raise e, t)
                  | Ok poor =>
                      (Ok d, set_heap (<[node := Leaf (disable_attributes poor lf)]>
                                         (heap t)) t)
                  end
              end
            else (Ok d, t)
        end
    end.
Proof.
  intros H suggestions. unfold split_decision.
  rewrite bind_unfold, (read_leaf_ok _ _ _ H). rewrite bind_unfold. simpl.
  fold suggestions. destruct (length suggestions <? 2)%nat; [done|].
  rewrite bind_unfold. unfold lift at 1.
  destruct (_hoeffding_bound _ _ _) as [hb|e]; [|done].
  destruct (best_two suggestions) as [[best second]|]; [|done].
  rewrite bind_unfold. unfold lift at 1.
  pose proof (split_condition_rule best second hb (tie_threshold t)) as Hrule.
  destruct (split_condition _ _ _ _) as [b|]; [subst b|done].
  rewrite bind_unfold.
  destruct (remove_poor_atts t); [|done].
  rewrite bind_unfold. unfold lift at 1.
  destruct (py_div _ _) as [ratio|]; [|done].
  rewrite bind_unfold. unfold lift at 1.
  destruct (poor_atts_scan _ _ _ _ _) as [poor|]; [|done].
  by rewrite (update_leaf_ok _ _ _ _ H).
Qed.

Lemma best_two_length l :
  (length l <? 2)%nat = false ↔ is_Some (best_two l).
Proof.
  unfold best_two. rewrite <- (length_rev l).
  destruct (rev l) as [|a [|b r]]; simpl; split; try done;
    intros [? ?]; done.
Qed.

Lemma best_two_last l best second :
  best_two l = Some (best, second) → last l = Some best.
Proof.
  unfold best_two. intros H. rewrite <- (rev_involutive l).
  destruct (rev l) as [|a [|b r]]; simplify_eq. simpl.
  by rewrite last_snoc.
Qed.

Lemma poor_atts_scan_spec l bm ratio hb acc :
  (bm =? 0)%float = false →
  ∃ poor,
    poor_atts_scan l bm ratio hb acc = Ok poor
    ∧ ∀ a, a ∈ poor ↔
           a ∈ acc ∨ ∃ c test, c ∈ l ∧ suggestion_test c = Some test
                     ∧ get_atts_test_depends_on test = [a]
                     ∧ (merit c / bm <? ratio - 2 * hb)%float = true.
Proof.
  intros Hbm. revert acc. induction l as [|c l IH]; intros acc; simpl.
  { exists acc. split; [done|]. intros a. split; [by left|].
    intros [?|(c & t & Hc & _)]; [done|]. by apply elem_of_nil in Hc. }
  assert (∃ acc',
    match suggestion_test c with
    | Some test =>
        match get_atts_test_depends_on test with
        | [a] => r ← py_div (merit c) bm;
                 if (r <? ratio - 2 * hb)%float then Ok ({[a]} ∪ acc) else Ok acc
        | _ => Ok acc
        end
    | None => Ok acc
    end = Ok acc'
    ∧ ∀ a, a ∈ acc' ↔
           a ∈ acc ∨ ∃ test, suggestion_test c = Some test
                     ∧ get_atts_test_depends_on test = [a]
                     ∧ (merit c / bm <? ratio - 2 * hb)%float = true)
    as (acc' & -> & Hacc').
  { destruct (suggestion_test c) as [test|].
    2:{ exists acc. split; [done|]. intros a. split; [by left|].
        by intros [?|(? & ? & _)]. }
    destruct (get_atts_test_depends_on test) as [|a0 [|a1 r]] eqn:Hatts.
    1,3: exists acc; split; [done|]; intros a; split; [by left|];
         intros [?|(t' & Ht' & Ha & _)]; [done|simplify_eq; congruence].
    unfold py_div. rewrite Hbm. simpl.
    destruct (_ <? _)%float eqn:Hlt.
    - exists ({[a0]} ∪ acc). split; [done|]. intros a. rewrite elem_of_union, elem_of_singleton.
      split.
      + intros [->|?]; [right|by left]. by exists test.
      + intros [?|(t' & Ht' & Ha & _)]; [by right|left; simplify_eq; congruence].
    - exists acc. split; [done|]. intros a. split; [by left|].
      intros [?|(t' & Ht' & Ha & Hlt')]; [done|simplify_eq; congruence]. }
  simpl. destruct (IH acc') as (poor & -> & Hpoor). exists poor. split; [done|].
  intros a. rewrite Hpoor, Hacc'. split.
  - intros [[?|(test & ? & ? & ?)]|(c' & test & ? & ? & ? & ?)].
    + by left.
    + right. exists c, test. split_and!; try done. by left.
    + right. exists c', test. split_and!; try done. by right.
  - intros [?|(c' & test & Hin & ? & ? & ?)].
    + by left; left.
    + apply elem_of_cons in Hin as [->|Hin].
      * left; right. by exists test.
      * right. by exists c', test.
Qed.

Lemma disable_attributes_spec poor lf a :
  a ∈ disabled_attributes (disable_attributes poor lf)
  ↔ a ∈ poor ∨ a ∈ disabled_attributes lf.
Proof.
  unfold disable_attributes. rewrite <- (elem_of_elements poor).
  induction (elements poor) as [|b l IH]; simpl.
  - rewrite elem_of_nil. tauto.
  - rewrite elem_of_union, elem_of_singleton, elem_of_cons, IH. tauto.
Qed.

Lemma split_decision_shape node lf t :
  heap t !! node = Some (Leaf lf) →
  shape (split_decision node t).2 = shape t
  ∧ is_leaf_at (split_decision node t).2 node.
Proof.
  intros H. rewrite (split_decision_unfold _ _ _ H). cbv zeta.
  assert (is_leaf_at t node) as Hl by by exists lf.
  destruct (_ <? 2)%nat; [done|].
  destruct (_hoeffding_bound _ _ _); [|done].
  destruct (best_two _) as [[best second]|]; [|done].
  destruct (remove_poor_atts t); [|done].
  destruct (py_div _ _); [|done].
  destruct (poor_atts_scan _ _ _ _ _); [|done].
  split; [done|]. eexists. simpl. apply lookup_insert_eq.
Qed.

Lemma not_approved_keeps_leaf node parent parent_idx lf t :
  heap t !! node = Some (Leaf lf) →
  approved (split_decision node t).1 = false →
  shape (_attempt_to_split node parent parent_idx t).2 = shape t
  ∧ is_leaf_at (_attempt_to_split node parent parent_idx t).2 node.
Proof.
  intros H Hno. destruct (split_decision_shape _ _ _ H) as [Hshape [lf' Hleaf]].
  enough (∃ t', (_attempt_to_split node parent parent_idx t).2 = t'
                ∧ shape t' = shape t ∧ is_leaf_at t' node)
    as (t' & -> & ?); [done|].
  assert (is_leaf_at (split_decision node t).2 node) as Hl by by exists lf'.
  unfold _attempt_to_split. rewrite bind_unfold.
  destruct (split_decision node t) as [[d|e] t1]; simpl in *; [|by exists t1].
  rewrite Hno.
  destruct (best_two _) as [[best second]|]; [|by exists t1].
  destruct (hoeffding_bound d) as [hb|]; [|by exists t1].
  destruct (_ && _); [|by exists t1].
  rewrite bind_unfold. unfold lift at 1.
  destruct (py_div _ _); [|by exists t1].
  rewrite (update_leaf_ok _ _ _ _ Hleaf). simpl. eexists. split; [done|].
  split; [done|]. eexists. apply lookup_insert_eq.
Qed.

(** Claim C1, amended. On a split attempt at a leaf: with fewer than two
    candidates the split is approved if and only if there is a candidate,
    whatever its merit; with two or more, it is approved exactly when the
    merit of the best is positive and the ratio of the second best to the
    best is below [1 - bound] or the bound is below the tie threshold, so
    that a best merit of [0] is never approved; and an attempt that is not
    approved leaves the leaf a leaf and the counters as they were. The best
    and the second best are the last two candidates of the list as
    [list.sort] leaves it, whether or not a merit is [NaN]. *)
Theorem split_approval node parent parent_idx lf t :
  heap t !! node = Some (Leaf lf) →
  let suggestions := list_sort (get_best_split_suggestions lf t) in
  let ok := approved (split_decision node t).1 in
  (length suggestions < 2 → ok = bool_decide (suggestions ≠ []))
  ∧ (∀ best second hb,
       best_two suggestions = Some (best, second) →
       _hoeffding_bound (get_range_of_merit (leaf_stats lf))
         (split_confidence t) (total_weight lf) = Ok hb →
       ok = approval_rule best second hb (tie_threshold t)
       ∧ ((merit best =? 0)%float = true → ok = false))
  ∧ (ok = false →
     shape (_attempt_to_split node parent parent_idx t).2 = shape t
     ∧ is_leaf_at (_attempt_to_split node parent parent_idx t).2 node).
Proof.
  intros H suggestions ok. split_and!.
  - intros Hlen. unfold ok. rewrite (split_decision_unfold _ _ _ H). cbv zeta.
    fold suggestions. destruct suggestions as [|a [|b l]]; simpl in *; try done.
    lia.
  - intros best second hb Hbest Hhb.
    assert (ok = approval_rule best second hb (tie_threshold t)) as Hok.
    { unfold ok. rewrite (split_decision_unfold _ _ _ H). cbv zeta.
      fold suggestions.
      destruct (length suggestions <? 2)%nat eqn:Hlen.
      { apply not_false_iff_true in Hlen. destruct Hlen.
        apply best_two_length. by rewrite Hbest. }
      rewrite Hhb, Hbest. destruct (remove_poor_atts t); [|done].
      unfold py_div.
      destruct (merit best =? 0)%float eqn:Hz; simpl.
      { unfold approval_rule. by rewrite (eqb_zero_not_pos _ Hz). }
      destruct (poor_atts_scan_spec suggestions (merit best)
                  (merit second / merit best) hb ∅ Hz) as (poor & -> & _).
      done. }
    split; [done|]. intros Hz. rewrite Hok. unfold approval_rule.
    by rewrite (eqb_zero_not_pos _ Hz).
  - by apply (not_approved_keeps_leaf _ _ _ lf).
Qed.

(** Claim C4, amended. A split attempt disables an attribute at the leaf
    exactly when poor attributes are to be removed, there are two or more
    candidates, and a candidate that tests this attribute alone has a merit
    ratio more than twice the bound below the ratio of the two best,
    whether the split is approved or not. The two best are the last two
    candidates of the list as [list.sort] leaves it, whether or not a merit
    is [NaN]. *)
Theorem poor_attribute_pruning node lf t d t' :
  heap t !! node = Some (Leaf lf) →
  split_decision node t = (Ok d, t') →
  ∃ lf',
    heap t' !! node = Some (Leaf lf')
    ∧ ∀ a, a ∈ disabled_attributes lf' ↔
           a ∈ disabled_attributes lf
           ∨ (remove_poor_atts t = true
              ∧ ∃ best second hb,
                  best_two (best_split_suggestions d) = Some (best, second)
                  ∧ hoeffding_bound d = Some hb
                  ∧ is_poor (best_split_suggestions d) best second hb a).
Proof.
  intros H. rewrite (split_decision_unfold _ _ _ H). cbv zeta.
  set (suggestions := list_sort _).
  destruct (length suggestions <? 2)%nat eqn:Hlen.
  { intros [= <- <-]. exists lf. split; [done|]. intros a. split; [by left|].
    intros [?|(_ & best & second & hb & Hb & _)]; [done|]. simpl in Hb.
    assert (is_Some (best_two suggestions)) as Hs by by rewrite Hb.
    apply best_two_length in Hs. congruence. }
  destruct (_hoeffding_bound _ _ _) as [hb|]; [|done].
  destruct (best_two suggestions) as [[best second]|] eqn:Hbest; [|done].
  destruct (remove_poor_atts t) eqn:Hrm.
  2:{ intros [= <- <-]. exists lf. split; [done|]. intros a. split; [by left|].
      by intros [?|[? _]]. }
  unfold py_div. destruct (merit best =? 0)%float eqn:Hz; [done|].
  destruct (poor_atts_scan_spec suggestions (merit best)
              (merit second / merit best) hb ∅ Hz) as (poor & -> & Hpoor).
  intros [= <- <-]. eexists. split; [apply lookup_insert_eq|].
  intros a. rewrite disable_attributes_spec, Hpoor. simpl. split.
  - intros [[Hempty|Hp]|?]; [by apply not_elem_of_empty in Hempty| |by left].
    right. split; [done|]. by exists best, second, hb.
  - intros [?|(_ & best' & second' & hb' & Hb & Hh & Hp)]; [by right|].
    left; right. by simplify_eq.
Qed.

Lemma alloc_unfold n t :
  alloc n t = (Ok (fresh (dom (heap t))),
               set_heap (<[fresh (dom (heap t)) := n]> (heap t)) t).
Proof. reflexivity. Qed.

Lemma fresh_heap t : fresh (dom (heap t)) ∉ dom (heap t).
Proof. apply is_fresh. Qed.

Lemma set_child_ok p b c test st d cm t :
  heap t !! p = Some (Split test st d cm) →
  set_child p b c t
  = (Ok tt, set_heap (<[p := Split test st d (<[b := c]> cm)]> (heap t)) t).
Proof.
  intros H. unfold set_child. by rewrite bind_unfold, (read_node_ok _ _ _ H).
Qed.

Lemma new_learning_node_config st pd a t t' :
  same_config t t' → _new_learning_node st pd a t' = _new_learning_node st pd a t.
Proof.
  unfold same_config, _new_learning_node. destruct t, t'. simpl.
  by intros [= -> -> -> -> -> -> -> -> -> -> -> -> ->].
Qed.

Lemma add_children_spec winner node ns n test st d branches :
  ∀ cm t,
    heap t !! node = Some n →
    heap t !! ns = Some (Split test st d cm) →
    node ≠ ns →
    ∃ cs t',
      add_children winner node ns branches t = (Ok tt, t')
      ∧ length cs = length branches
      ∧ NoDup cs
      ∧ (∀ c, c ∈ cs → c ∉ dom (heap t))
      ∧ heap t' !! ns = Some (Split test st d (children_map cm branches cs))
      ∧ (∀ j i c, branches !! j = Some i → cs !! j = Some c →
           heap t' !! c
           = Some (Leaf (_new_learning_node (resulting_stats_from_split winner i)
                           (Some (node_depth n)) true t)))
      ∧ (∀ l, l ∈ dom (heap t) → l ≠ ns → heap t' !! l = heap t !! l)
      ∧ same_config t t'.
Proof.
  induction branches as [|i rest IH]; intros cm t Hnode Hns Hne.
  { exists [], t. simpl. split_and!; try done; [apply NoDup_nil_2|].
    by intros c ?%elem_of_nil. }
  simpl. set (l := fresh (dom (heap t))).
  assert (l ∉ dom (heap t)) as Hl by apply fresh_heap.
  assert (l ≠ ns) as Hlns. { intros ->. apply Hl, elem_of_dom. eauto. }
  assert (l ≠ node) as Hlnode. { intros ->. apply Hl, elem_of_dom. eauto. }
  set (leaf := Leaf (_new_learning_node (resulting_stats_from_split winner i)
                       (Some (node_depth n)) true t)).
  set (t1 := set_heap (<[l := leaf]> (heap t)) t).
  set (t2 := set_heap (<[ns := Split test st d (<[Z.of_nat i := l]> cm)]> (heap t1)) t1).
  destruct (IH (<[Z.of_nat i := l]> cm) t2) as (cs & t' & Hrun & Hlen & Hnd & Hfresh & Hsplit & Hleaves & Hframe & Hcfg).
  { simpl. rewrite lookup_insert_ne, lookup_insert_ne; done. }
  { simpl. apply lookup_insert_eq. }
  { done. }
  assert (dom (heap t2) = {[ns]} ∪ ({[l]} ∪ dom (heap t))) as Hdom.
  { simpl. by rewrite !dom_insert_L. }
  exists (l :: cs), t'. split_and!.
  - rewrite bind_unfold, (read_node_ok _ _ _ Hnode). rewrite bind_unfold. simpl.
    rewrite bind_unfold, alloc_unfold. fold l leaf t1.
    rewrite bind_unfold.
    rewrite (set_child_ok ns (Z.of_nat i) l test st d cm t1).
    2:{ simpl. by rewrite lookup_insert_ne. }
    exact Hrun.
  - simpl. by rewrite Hlen.
  - apply NoDup_cons. split; [|done]. intros Hin. apply (Hfresh _ Hin).
    rewrite Hdom. apply elem_of_union_r, elem_of_union_l. by apply elem_of_singleton.
  - intros c [->|Hin]%elem_of_cons; [done|]. intros Hc. apply (Hfresh _ Hin).
    rewrite Hdom. by apply elem_of_union_r, elem_of_union_r.
  - exact Hsplit.
  - intros [|j] i' c; simpl.
    + intros [= <-] [= <-]. rewrite (Hframe l).
      * simpl. rewrite lookup_insert_ne by done. apply lookup_insert_eq.
      * rewrite Hdom. apply elem_of_union_r, elem_of_union_l.
        by apply elem_of_singleton.
      * done.
    + intros Hi Hc. rewrite (Hleaves j i' c Hi Hc).
      do 2 f_equal; by apply new_learning_node_config.
  - intros l' Hl' Hne'. rewrite (Hframe l').
    + simpl. rewrite lookup_insert_ne by done. rewrite lookup_insert_ne; [done|].
      intros <-. done.
    + rewrite Hdom. by apply elem_of_union_r, elem_of_union_r.
    + done.
  - unfold same_config in *. rewrite Hcfg. by destruct t.
Qed.

Lemma children_map_lookup cs : ∀ k cm z,
  children_map cm (seq k (length cs)) cs !! z
  = if decide (Z.of_nat k ≤ z < Z.of_nat (k + length cs))%Z
    then cs !! (Z.to_nat z - k)%nat else cm !! z.
Proof.
  unfold children_map.
  induction cs as [|c cs IH]; intros k cm z; simpl.
  { case_decide; [lia|done]. }
  rewrite IH. repeat case_decide; try lia.
  - replace (Z.to_nat z - k)%nat with (S (Z.to_nat z - S k)) by lia. done.
  - assert (z = Z.of_nat k) as -> by lia. rewrite lookup_insert_eq.
    by replace (Z.to_nat (Z.of_nat k) - k)%nat with 0%nat by lia.
  - rewrite lookup_insert_ne; [done|lia].
Qed.

Lemma same_config_fields t t' :
  same_config t t' →
  _tree_root t' = _tree_root t
  ∧ _n_active_leaves t' = _n_active_leaves t
  ∧ _n_inactive_leaves t' = _n_inactive_leaves t
  ∧ _n_decision_nodes t' = _n_decision_nodes t.
Proof.
  unfold same_config. destruct t, t'. simpl.
  by intros [= -> -> -> -> -> -> -> -> -> -> -> -> ->].
Qed.

Lemma apply_split_some winner test node n parent parent_idx t :
  suggestion_test winner = Some test →
  heap t !! node = Some n →
  parent_ok t parent →
  ∃ t2, apply_split winner node parent parent_idx t = (Ok tt, t2)
        ∧ split_into winner test n parent parent_idx t t2.
Proof.
  intros Htest Hnode Hparent. unfold apply_split. rewrite Htest.
  rewrite bind_unfold, (read_node_ok _ _ _ Hnode).
  rewrite bind_unfold, alloc_unfold.
  set (ns := fresh (dom (heap t))).
  assert (ns ∉ dom (heap t)) as Hns by apply fresh_heap.
  assert (node ≠ ns) as Hne. { intros <-. apply Hns, elem_of_dom. eauto. }
  set (t0 := set_heap (<[ns := _new_split_node test (node_stats n) (node_depth n)]>
                         (heap t)) t).
  destruct (add_children_spec winner node ns n test (node_stats n) (node_depth n)
              (seq 0 (num_splits winner)) ∅ t0)
    as (cs & t' & Hrun & Hlen & Hnd & Hfresh & Hsplit & Hleaves & Hframe & Hcfg).
  { simpl. by rewrite lookup_insert_ne. }
  { simpl. apply lookup_insert_eq. }
  { done. }
  rewrite length_seq in Hlen.
  assert (same_config t t') as Hcfg'.
  { unfold same_config in *. rewrite Hcfg. by destruct t. }
  destruct (same_config_fields _ _ Hcfg') as (Hroot & Hact & Hin & Hdec).
  assert (dom (heap t0) = {[ns]} ∪ dom (heap t)) as Hdom.
  { simpl. by rewrite dom_insert_L. }
  assert (∀ c, c ∈ cs → (c ∉ dom (heap t)) ∧ c ≠ ns) as Hcs.
  { intros c Hc. specialize (Hfresh c Hc). rewrite Hdom in Hfresh.
    rewrite not_elem_of_union, not_elem_of_singleton in Hfresh. tauto. }
  assert (∀ i c, cs !! i = Some c →
            ∃ st lf,
              resulting_class_distributions winner !! i = Some st
              ∧ heap t' !! c = Some (Leaf lf)
              ∧ lf = _new_learning_node (Some st) (Some (node_depth n)) true t
              ∧ leaf_stats lf = st ∧ leaf_active lf = true
              ∧ leaf_depth lf = (node_depth n + 1)%Z) as Hkids.
  { intros i c Hc.
    assert (i < num_splits winner)%nat as Hi.
    { rewrite <- Hlen. by eapply lookup_lt_Some. }
    destruct (lookup_lt_is_Some_2 (resulting_class_distributions winner) i Hi)
      as [st Hst].
    exists st. eexists. split; [done|]. split.
    - rewrite (Hleaves i i c); [|by apply lookup_seq|done].
      unfold resulting_stats_from_split. rewrite Hst. do 2 f_equal.
    - split_and!; try done. }
  rewrite bind_unfold, Hrun.
  do 3 (rewrite bind_unfold; unfold modify at 1).
  destruct parent as [p|]; simpl.
  - destruct Hparent as (ptest & pst & pd & pcm & Hp).
    assert (p ≠ ns) as Hpns. { intros ->. apply Hns, elem_of_dom. eauto. }
    rewrite (set_child_ok p parent_idx ns ptest pst pd pcm).
    2:{ simpl. rewrite Hframe; [|rewrite Hdom, elem_of_union, elem_of_dom; eauto|done].
        simpl. by rewrite lookup_insert_ne. }
    eexists. split; [done|]. exists ns, cs. simpl.
    split_and!; try done.
    + by rewrite lookup_insert_ne.
    + intros i c Hc. destruct (Hcs c) as [Hc1 Hc2]; [by eapply list_elem_of_lookup_2|].
      destruct (Hkids i c Hc) as (st & lf & ? & ? & ?). exists st, lf.
      split; [done|]. split; [|done].
      rewrite lookup_insert_ne; [done|]. intros <-.
      apply Hc1, elem_of_dom. eauto.
    + eexists _, _, _, _. rewrite lookup_insert_eq. split; [done|].
      apply lookup_insert_eq.
    + lia.
    + lia.
  - eexists. split; [done|]. exists ns, cs. simpl.
    split_and!; try done; lia.
Qed.

Lemma deactivate_leaf_ok lf node parent parent_idx t :
  heap t !! node = Some (Leaf lf) →
  parent_ok t parent →
  ∃ t2, _deactivate_leaf node parent parent_idx t = (Ok tt, t2)
        ∧ deactivated_in lf parent parent_idx t t2.
Proof.
  intros Hnode Hparent. unfold _deactivate_leaf.
  rewrite bind_unfold, (read_leaf_ok _ _ _ Hnode). rewrite bind_unfold. simpl.
  set (l := fresh (dom (heap t))).
  assert (l ∉ dom (heap t)) as Hl by apply fresh_heap.
  destruct parent as [p|]; simpl.
  - destruct Hparent as (ptest & pst & pd & pcm & Hp).
    assert (p ≠ l) as Hpl. { intros ->. apply Hl, elem_of_dom. eauto. }
    rewrite !bind_unfold, (read_node_ok _ _ _ Hp). simpl.
    rewrite bind_unfold, alloc_unfold. fold l. rewrite !bind_unfold.
    rewrite (set_child_ok p parent_idx l ptest pst pd pcm).
    2:{ simpl. by rewrite lookup_insert_ne. }
    unfold modify. simpl. eexists. split; [done|].
    exists l, (_new_learning_node (Some (leaf_stats lf)) (Some pd) false t).
    simpl. split_and!; try done.
    + rewrite lookup_insert_ne by done. apply lookup_insert_eq.
    + eexists _, _, _, _. rewrite lookup_insert_eq. split; [done|].
      apply lookup_insert_eq.
  - rewrite bind_unfold. simpl. rewrite bind_unfold, alloc_unfold. fold l.
    rewrite !bind_unfold.
    unfold modify. simpl. eexists. split; [done|].
    exists l, (_new_learning_node (Some (leaf_stats lf)) None false t).
    simpl. split_and!; try done. apply lookup_insert_eq.
Qed.

Lemma disable_attributes_keeps poor lf :
  leaf_stats (disable_attributes poor lf) = leaf_stats lf
  ∧ leaf_depth (disable_attributes poor lf) = leaf_depth lf
  ∧ leaf_active (disable_attributes poor lf) = leaf_active lf.
Proof.
  unfold disable_attributes. induction (elements poor) as [|a l IH]; [done|].
  simpl. apply IH.
Qed.

Lemma split_decision_leaf node lf t d t1 :
  heap t !! node = Some (Leaf lf) →
  split_decision node t = (Ok d, t1) →
  ∃ lf1,
    heap t1 !! node = Some (Leaf lf1)
    ∧ leaf_stats lf1 = leaf_stats lf ∧ leaf_depth lf1 = leaf_depth lf
    ∧ (∀ l, l ≠ node → heap t1 !! l = heap t !! l).
Proof.
  intros H. rewrite (split_decision_unfold _ _ _ H). cbv zeta.
  destruct (_ <? 2)%nat; [intros [= <- <-]; by exists lf|].
  destruct (_hoeffding_bound _ _ _); [|done].
  destruct (best_two _) as [[best second]|]; [|done].
  destruct (remove_poor_atts t); [|intros [= <- <-]; by exists lf].
  destruct (py_div _ _); [|done].
  destruct (poor_atts_scan _ _ _ _ _) as [poor|]; [|done].
  intros [= <- <-]. eexists. simpl. rewrite lookup_insert_eq.
  destruct (disable_attributes_keeps poor lf) as (? & ? & _).
  split_and!; try done. intros l Hne. by rewrite lookup_insert_ne.
Qed.

(** Claim C3. An approved split whose winner is the null split deactivates
    the leaf in place; any other winner replaces the leaf, under its parent
    or as root, by a new Split Node with the winning test and one new active
    leaf per branch that holds the statistics of that branch, adds one to the
    count of decision nodes and the number of branches less one to the count
    of active leaves. This is the tree the memory governor is then given. The
    winner is the last candidate of the list as [list.sort] leaves it. *)
Theorem approved_split node parent parent_idx lf t d t1 winner :
  heap t !! node = Some (Leaf lf) →
  parent_ok t parent →
  split_decision node t = (Ok d, t1) →
  should_split d = true →
  last (best_split_suggestions d) = Some winner →
  ∃ lf1 t2,
    heap t1 !! node = Some (Leaf lf1)
    ∧ leaf_stats lf1 = leaf_stats lf ∧ leaf_depth lf1 = leaf_depth lf
    ∧ _attempt_to_split node parent parent_idx t
      = (Ok tt, _enforce_size_limit t2)
    ∧ match suggestion_test winner with
      | None => deactivated_in lf1 parent parent_idx t1 t2
      | Some test => split_into winner test (Leaf lf1) parent parent_idx t1 t2
      end.
Proof.
  intros Hnode Hparent Hd Hyes Hwin.
  destruct (split_decision_leaf _ _ _ _ _ Hnode Hd) as (lf1 & H1 & Hst & Hdp & Hframe).
  assert (parent_ok t1 parent) as Hparent1.
  { destruct parent as [p|]; [|done].
    destruct Hparent as (ptest & pst & pd & pcm & Hp).
    exists ptest, pst, pd, pcm. rewrite Hframe; [done|]. intros ->. congruence. }
  exists lf1.
  assert (∃ t2, apply_split winner node parent parent_idx t1 = (Ok tt, t2)
                ∧ match suggestion_test winner with
                  | None => deactivated_in lf1 parent parent_idx t1 t2
                  | Some test =>
                      split_into winner test (Leaf lf1) parent parent_idx t1 t2
                  end) as (t2 & Happly & Heffect).
  { destruct (suggestion_test winner) as [test|] eqn:Htest.
    - by apply apply_split_some.
    - unfold apply_split. rewrite Htest. by apply deactivate_leaf_ok. }
  exists t2. split_and!; try done.
  unfold _attempt_to_split. rewrite bind_unfold, Hd, Hyes, Hwin.
  by rewrite bind_unfold, Happly.
Qed.

Lemma learn_one_returns x y w : returns (λ r, r = PyNone) (learn_one x y w).
Proof.
  unfold learn_one. repeat (apply returns_bind; intros ?).
  by apply returns_ret.
Qed.

Lemma predict_one_empty x t : _tree_root t = None → predict_one x t = (Ok 0%float, t).
Proof. intros H. unfold predict_one. rewrite bind_unfold. simpl. by rewrite H. Qed.

End Facts.

(** *** The claims on concrete trees *)

(** A single candidate of merit [0] is approved. *)
Lemma stated_split_approval_counterexample :
  ¬ stated_split_approval (env := demo_env one_candidate 0.1).
Proof.
  intros H.
  destruct (H 0%nat demo_leaf (demo_tree false) eq_refl) as (_ & _ & Hzero).
  specialize (Hzero (mkSuggestion (data := demo_data) (Some "x") [3; 4]%Z 0%float)
                eq_refl eq_refl).
  vm_compute in Hzero. discriminate.
Qed.

(** And the leaf is split on it: the root is a Split Node afterwards. *)
Example zero_merit_split :
  let t := (_attempt_to_split (env := demo_env one_candidate 0.1)
              0%nat None (-1) (demo_tree false)).2 in
  _n_decision_nodes t = 1%Z ∧ _n_active_leaves t = 2%Z
  ∧ ∃ root cm, _tree_root t = Some root
               ∧ heap t !! root = Some (Split (data := demo_data) "x" 7%Z 0%Z cm).
Proof.
  split_and!; [reflexivity..|]. eexists _, _. split; vm_compute; reflexivity.
Qed.

(** With [0.2] against [1] and a bound of [0.1] the split is approved; with
    [0.9] against [1] and a bound of [0.3] it is not. *)
Lemma split_approval_witness :
  heap (demo_tree false) !! 0%nat = Some (Leaf demo_leaf)
  ∧ approved (split_decision (env := demo_env clear_winner 0.1)
                0%nat (demo_tree false)).1 = true
  ∧ approved (split_decision (env := demo_env three_candidates 0.3)
                0%nat (demo_tree false)).1 = false.
Proof.
  destruct (split_approval (env := demo_env clear_winner 0.1)
              0%nat None (-1) demo_leaf (demo_tree false) eq_refl)
    as (_ & Hyes & _).
  destruct (split_approval (env := demo_env three_candidates 0.3)
              0%nat None (-1) demo_leaf (demo_tree false) eq_refl)
    as (_ & Hno & _).
  destruct (Hyes _ _ 0.1%float eq_refl eq_refl) as [-> _].
  destruct (Hno _ _ 0.3%float eq_refl eq_refl) as [-> _].
  split_and!; reflexivity.
Defined.

(** The attempt is not approved ([0.9] is not below [0.7], [0.3] not below
    [0.05]), and the attribute ["a"] is disabled ([0.1] is below [0.3]). *)
Lemma stated_poor_attribute_pruning_counterexample :
  ¬ stated_poor_attribute_pruning (env := demo_env three_candidates 0.3).
Proof.
  intros H.
  assert (∃ d t' lf',
            split_decision (env := demo_env three_candidates 0.3)
              0%nat (demo_tree true) = (Ok d, t')
            ∧ heap t' !! 0%nat = Some (Leaf lf')
            ∧ "a" ∈ disabled_attributes lf'
            ∧ should_split d = false) as (d & t' & lf' & Hd & Hlf & Ha & Hno).
  { eexists _, _, _. split_and!.
    - vm_compute. reflexivity.
    - vm_compute. reflexivity.
    - refine (bool_decide_unpack _ _). vm_compute. exact I.
    - reflexivity. }
  destruct (H 0%nat demo_leaf (demo_tree true) d t' lf' "a" eq_refl Hd Hlf)
    as [Hyes _].
  { apply not_elem_of_empty. }
  destruct (Hyes Ha) as [Hsplit _]. congruence.
Qed.

(** The same attempt: ["a"] is disabled although the split is not approved. *)
Lemma poor_attribute_pruning_witness :
  heap (demo_tree true) !! 0%nat = Some (Leaf demo_leaf)
  ∧ ∃ d t' lf',
      split_decision (env := demo_env three_candidates 0.3)
        0%nat (demo_tree true) = (Ok d, t')
      ∧ should_split d = false
      ∧ heap t' !! 0%nat = Some (Leaf lf')
      ∧ "a" ∈ disabled_attributes lf'.
Proof.
  split; [reflexivity|].
  set (r := split_decision (env := demo_env three_candidates 0.3)
              0%nat (demo_tree true)).
  set (d := match r.1 with
            | Ok d => d
            | Raise _ => mkDecision [] false None
            end).
  assert (r = (Ok d, r.2)) as Hr by (vm_compute; reflexivity).
  destruct (poor_attribute_pruning (env := demo_env three_candidates 0.3)
              0%nat demo_leaf (demo_tree true) d r.2 eq_refl Hr)
    as (lf' & Hlf & Hdis).
  exists d, r.2, lf'. split_and!; [exact Hr|reflexivity|exact Hlf|].
  apply Hdis. right. split; [reflexivity|].
  eexists _, _, _. split_and!; [vm_compute; reflexivity..|].
  exists (mkSuggestion (data := demo_data) (Some "a") [3; 4]%Z 0.1%float), "a".
  split_and!; [|reflexivity..]. vm_compute. apply list_elem_of_here.
Defined.

(** A winner with three branches: one decision node and three active leaves
    in place of the one leaf. And a null split that wins: no decision node,
    and an inactive leaf in place of the active one. *)
Lemma approved_split_witness :
  heap (demo_tree false) !! 0%nat = Some (Leaf demo_leaf)
  ∧ parent_ok (demo_tree false) None
  ∧ (∃ t2, _attempt_to_split (env := demo_env clear_winner 0.1)
             0%nat None (-1) (demo_tree false) = (Ok tt, t2)
           ∧ _n_decision_nodes t2 = 1%Z ∧ _n_active_leaves t2 = 3%Z
           ∧ _n_inactive_leaves t2 = 0%Z)
  ∧ (∃ t2, _attempt_to_split (env := demo_env null_wins 0.1)
             0%nat None (-1) (demo_tree false) = (Ok tt, t2)
           ∧ _n_decision_nodes t2 = 0%Z ∧ _n_active_leaves t2 = 0%Z
           ∧ _n_inactive_leaves t2 = 1%Z).
Proof.
  split; [reflexivity|]. split; [exact I|]. split.
  - set (r := split_decision (env := demo_env clear_winner 0.1)
                0%nat (demo_tree false)).
    set (d := match r.1 with
              | Ok d => d
              | Raise _ => mkDecision [] false None
              end).
    assert (r = (Ok d, r.2)) as Hr by (vm_compute; reflexivity).
    destruct (approved_split (env := demo_env clear_winner 0.1)
                0%nat None (-1) demo_leaf (demo_tree false) d r.2
                (mkSuggestion (data := demo_data) (Some "b") [1; 2; 4]%Z 1%float)
                eq_refl I Hr eq_refl eq_refl)
      as (lf1 & t2 & _ & _ & _ & Hrun & Hinto).
    exists t2. split; [exact Hrun|].
    destruct Hinto as (ns & cs & _ & _ & _ & _ & _ & _ & _ & Hdec & Hact & Hina).
    split_and!; [rewrite Hdec|rewrite Hact|rewrite Hina]; reflexivity.
  - set (r := split_decision (env := demo_env null_wins 0.1)
                0%nat (demo_tree false)).
    set (d := match r.1 with
              | Ok d => d
              | Raise _ => mkDecision [] false None
              end).
    assert (r = (Ok d, r.2)) as Hr by (vm_compute; reflexivity).
    destruct (approved_split (env := demo_env null_wins 0.1)
                0%nat None (-1) demo_leaf (demo_tree false) d r.2
                (mkSuggestion (data := demo_data) None [7]%Z 1%float)
                eq_refl I Hr eq_refl eq_refl)
      as (lf1 & t2 & _ & _ & _ & Hrun & Hdeact).
    exists t2. split; [exact Hrun|].
    destruct Hdeact as (nl & lf' & _ & _ & _ & _ & _ & Hdec & Hact & Hina).
    split_and!; [rewrite Hdec|rewrite Hact|rewrite Hina]; reflexivity.
Defined.

End HTR_proofs.

(** ** Properties of the Hoeffding adaptive tree classifier *)

Module HATC_proofs.

Import MonadFacts HATC.

Section Facts.

Context {data : Data} {env : Collaborators}.

Lemma creme_learn_one_returns x y w :
  returns (λ r, r = PyNone) (creme_learn_one x y w).
Proof.
  unfold creme_learn_one. repeat (apply returns_bind; intros ?).
  by apply returns_ret.
Qed.

Lemma river_learn_one_returns x y w :
  returns (λ r, r = PySelf) (river_learn_one x y w).
Proof.
  unfold river_learn_one. repeat (apply returns_bind; intros ?).
  by apply returns_ret.
Qed.

Lemma combine_found_spec predict found : ∀ proba,
  combine_found predict found proba
  = sum_distributions predict (included found) proba.
Proof.
  unfold included.
  induction found as [|fn rest IH]; intros proba; simpl; [done|].
  rewrite filter_cons. case_bool_decide as Hb; case_decide; try done.
  simpl. unfold predicting_node.
  destruct (found_node fn) as [n|]; simpl.
  - destruct (predict n); simpl; [apply IH|done].
  - destruct (found_parent fn) as [p|]; simpl; [|done].
    destruct (predict p); simpl; [apply IH|done].
Qed.

Lemma included_skip l1 fn l2 :
  found_parent_branch fn = ALTERNATE_ROOT →
  included (l1 ++ fn :: l2) = included (l1 ++ l2).
Proof.
  intros Hfn. unfold included. rewrite !filter_app, filter_cons.
  by case_decide.
Qed.

(** Claim C5. On a tree with a root, both versions of [predict_proba_one]
    return the combination the specification describes: of the results of
    the traversal those not tagged [-999] are kept, the class-weight
    distributions of their leaves are summed, and the sum is normalised, by
    [softmax] in one version and by [normalize_values_in_dict] in the other.
    A result tagged [-999] has no influence on the prediction. *)
Theorem predict_proba_one_combination t x root :
  _tree_root t = Some root →
  creme_predict_proba_one t x
  = spec_combination (λ n, node_predict_one n x t) softmax ∅
      (if is_inactive_leaf root then [filter_instance_to_leaf root x]
       else filter_instance_to_leaves root x None (-1))
  ∧ river_predict_proba_one t x
    = spec_combination (λ n, node_leaf_prediction n x t)
        normalize_values_in_dict (gset_to_gmap 0%float (classes t))
        (filter_instance_to_leaves root x None (-1))
  ∧ ∀ predict l1 fn l2 start,
      found_parent_branch fn = ALTERNATE_ROOT →
      combine_found predict (l1 ++ fn :: l2) start
      = combine_found predict (l1 ++ l2) start.
Proof.
  intros Hroot. split_and!.
  - unfold creme_predict_proba_one, spec_combination, _filter_instance_to_leaves.
    rewrite Hroot. destruct (is_inactive_leaf root); cbn -[combine_found];
      by rewrite combine_found_spec.
  - unfold river_predict_proba_one, spec_combination, _filter_instance_to_leaves.
    rewrite Hroot. cbn -[combine_found]. by rewrite combine_found_spec.
  - intros predict l1 fn l2 start Hfn.
    by rewrite !combine_found_spec, included_skip.
Qed.

Lemma creme_predict_empty t x :
  _tree_root t = None → creme_predict_proba_one t x = softmax ∅.
Proof. intros H. unfold creme_predict_proba_one. by rewrite H. Qed.

Lemma river_predict_empty t x :
  _tree_root t = None →
  river_predict_proba_one t x = Ok (gset_to_gmap 0%float (classes t)).
Proof. intros H. unfold river_predict_proba_one. by rewrite H. Qed.

End Facts.

(** *** The claims on a concrete tree *)

(** The traversal finds the root and, tagged [-999], the root of an
    alternate subtree: only the distribution of the root is counted. *)
Lemma predict_proba_one_combination_witness :
  _tree_root demo_tree = Some 0%nat
  ∧ river_predict_proba_one (env := demo_env) demo_tree tt
    = Ok {[ 0%Z := 1%float; 1%Z := 0%float ]}
  ∧ creme_predict_proba_one (env := demo_env) demo_tree tt
    = Ok {[ 0%Z := 1%float ]}.
Proof.
  destruct (predict_proba_one_combination (env := demo_env) demo_tree tt 0%nat
              eq_refl) as (Hcreme & Hriver & _).
  split_and!; [reflexivity|rewrite Hriver|rewrite Hcreme]; vm_compute; reflexivity.
Defined.

End HATC_proofs.

(** ** Properties of the chain models *)

Module Chain_proofs.

Import MonadFacts Chain.

Section Facts.

Context {est : Estimators}.

Lemma touches_only_ret {A} x (a : A) : touches_only x (mret a).
Proof. done. Qed.

Lemma touches_only_raise {A} x e : touches_only x (raise (A := A) e).
Proof. done. Qed.

Lemma touches_only_get x : touches_only x get.
Proof. done. Qed.

Lemma touches_only_bind {A B} x (m : M world A) (f : A → M world B) :
  touches_only x m → (∀ a, touches_only x (f a)) → touches_only x (m ≫= f).
Proof.
  intros Hm Hf w l Hl. rewrite bind_unfold. specialize (Hm w l Hl).
  destruct (m w) as [[a|e] w']; simpl in *; [|done].
  by rewrite (Hf a w' l Hl).
Qed.

Lemma touches_only_setitem x k v : touches_only x (setitem x k v).
Proof.
  intros w l Hl. unfold setitem. destruct (dicts w !! x); [|done].
  simpl. by rewrite lookup_insert_ne.
Qed.

Lemma touches_only_getitem x o : touches_only x (getitem o).
Proof.
  apply touches_only_bind; [done|]. intros w. by destruct (assoc_get o (data w)).
Qed.

Lemma touches_only_call {A} x o
    (method : model → features → result A * model * features) :
  touches_only x (call method o x).
Proof.
  intros w l Hl. unfold call.
  destruct (assoc_get o (data w)); [|done]. destruct (dicts w !! x); [|done].
  destruct (method _ _) as [[r m'] d']. simpl. by rewrite lookup_insert_ne.
Qed.

Lemma touches_only_for_each {A} x (l : list A) (body : A → M world unit) :
  (∀ a, touches_only x (body a)) → touches_only x (for_each l body).
Proof.
  intros Hbody. induction l as [|a l IH]; simpl; [done|].
  apply touches_only_bind; auto.
Qed.

Lemma touches_only_match_option {A B} x (o : option B) (f : B → M world A) m :
  (∀ b, touches_only x (f b)) → touches_only x m →
  touches_only x (match o with Some b => f b | None => m end).
Proof. by destruct o. Qed.

Lemma touches_only_if {A} x (b : bool) (m1 m2 : M world A) :
  touches_only x m1 → touches_only x m2 → touches_only x (if b then m1 else m2).
Proof. by destruct b. Qed.

Create HintDb frame.
#[local] Hint Resolve touches_only_ret touches_only_raise touches_only_get
  touches_only_setitem touches_only_getitem touches_only_call
  touches_only_for_each touches_only_match_option touches_only_if : frame.
#[local] Hint Extern 2 (touches_only _ (_ ≫= _)) =>
  apply touches_only_bind; [|intros ?] : frame.
#[local] Hint Extern 3 (touches_only _ (let '(_, _) := ?p in _)) => destruct p : frame.
#[local] Hint Extern 1 (touches_only _ (λ _, _)) => progress simpl : frame.

Lemma touches_only_predict_proba_loop x os : ∀ y_pred,
  touches_only x (predict_proba_loop x os y_pred).
Proof.
  induction os as [|o rest IH]; intros y_pred; simpl; eauto 10 with frame.
Qed.

Lemma touches_only_predict_loop x os : ∀ y_pred,
  touches_only x (predict_loop x os y_pred).
Proof.
  induction os as [|o rest IH]; intros y_pred; simpl; eauto 10 with frame.
Qed.

(** Nothing the chain does before the copy changes a feature dictionary. *)
Lemma infer_order_dicts y w : dicts (infer_order y w).2 = dicts w.
Proof.
  unfold infer_order. rewrite bind_unfold. simpl. by destruct (order w).
Qed.

(** After [x = copy.copy(x)] the work goes on a dictionary that is not the
    caller's. *)
Lemma after_copy {A} x (rest : loc → M world A) w l :
  (∀ x', touches_only x' (rest x')) →
  is_Some (dicts w !! l) ∨ l = x →
  dicts ((copy_copy x ≫= rest) w).2 !! l = dicts w !! l.
Proof.
  intros Hrest Hl. rewrite bind_unfold. unfold copy_copy.
  destruct (dicts w !! x) as [d|] eqn:Hx; [|done].
  assert (is_Some (dicts w !! l)) as Hl'.
  { destruct Hl as [?| ->]; [done|]. by rewrite Hx. }
  assert (l ≠ fresh (dom (dicts w))) as Hne.
  { intros Heq. apply (is_fresh (dom (dicts w))). rewrite <- Heq.
    by apply elem_of_dom. }
  rewrite (Hrest _ _ l Hne). simpl. by rewrite lookup_insert_ne.
Qed.

Lemma chain_keeps_features op x w l :
  is_Some (dicts w !! l) ∨ l = x →
  dicts (run op x w) !! l = dicts w !! l.
Proof.
  intros Hl. destruct op as [y| |y|]; simpl.
  - unfold ClassifierChain_learn_one. rewrite bind_unfold.
    pose proof (infer_order_dicts y w) as Hd.
    destruct (infer_order y w) as [[[]|e] w1]; simpl in *; [|by rewrite Hd].
    rewrite <- Hd in *. apply after_copy; [|done]. intros x'.
    eauto 12 with frame.
  - unfold ClassifierChain_predict_proba_one. apply after_copy; [|done].
    intros x'. apply touches_only_bind; [done|intros w'].
    destruct (order w'); [apply touches_only_predict_proba_loop|done].
  - unfold RegressorChain_learn_one. rewrite bind_unfold.
    pose proof (infer_order_dicts y w) as Hd.
    destruct (infer_order y w) as [[[]|e] w1]; simpl in *; [|by rewrite Hd].
    rewrite <- Hd in *. apply after_copy; [|done]. intros x'.
    eauto 12 with frame.
  - unfold RegressorChain_predict_one. apply after_copy; [|done].
    intros x'. apply touches_only_bind; [done|intros w'].
    apply touches_only_predict_loop.
Qed.

(** Claim C10. Whatever the wrapped estimators do with the dictionary they
    are handed, [learn_one] and the prediction operation of both chain models
    leave the caller's feature dictionary [x] as it was: the predictions are
    inserted into a copy. *)
Theorem chain_keeps_x op x w : dicts (run op x w) !! x = dicts w !! x.
Proof. apply chain_keeps_features. by right. Qed.

End Facts.

(** *** The claim on a concrete chain *)

(** The regressors of the demonstration write a key ["seen"] into the
    dictionary they get, and the chain adds the predictions for the outputs
    [0] and [1]: all of it lands in the copy. *)
Example chain_copy :
  let w := run (est := demo_estimators)
             (RegressorLearn (est := demo_estimators) [(KInt 0, 5%Z); (KInt 1, 6%Z)])
             0%nat demo_world in
  dicts w !! 0%nat = Some {[ KStr "a" := VFloat 2 ]}
  ∧ dicts w !! 1%nat
    = Some {[ KStr "a" := VFloat 2; KStr "seen" := VBool true;
              KInt 0 := VFloat 1; KInt 1 := VFloat 1 ]}.
Proof. split; vm_compute; reflexivity. Qed.

End Chain_proofs.

(** ** What the trees hand back *)

Module Interface_proofs.

Import MonadFacts.

(** Claim C8, where the code departs from it. On a tree without a root, the
    [learn_one] of the creme regressor and of the creme adaptive classifier
    hand back [None]; the [learn_one] of the river adaptive classifier hands
    back [self]. *)
Theorem creme_learn_one_returns_None :
  (HTR.learn_one (env := HTR.demo_env [] 0.1) tt tt 1 HTR.empty_tree).1
  = Ok PyNone
  ∧ (HATC.creme_learn_one (env := HATC.demo_env) tt 0%Z 1 HATC.empty_tree).1
    = Ok PyNone
  ∧ (HATC.river_learn_one (env := HATC.demo_env) tt 0%Z 1 HATC.empty_tree).1
    = Ok PySelf.
Proof. split_and!; vm_compute; reflexivity. Qed.

(** Claim C9. On a tree that has no root yet, the regressor predicts [0.0],
    the river classifier returns the zero distribution over the classes it
    knows (the empty dict when it knows none), and the creme classifier
    returns what [softmax] makes of the empty dict, which is the empty dict
    when [softmax] returns an empty dict as it is. None of them raises. *)
Theorem empty_tree_prediction :
  (∀ (data : HTR.Data) (env : HTR.Collaborators) x t,
     HTR._tree_root t = None → HTR.predict_one x t = (Ok 0%float, t))
  ∧ (∀ (data : HATC.Data) (env : HATC.Collaborators) x t,
       HATC._tree_root t = None →
       HATC.river_predict_proba_one t x
       = Ok (gset_to_gmap 0%float (HATC.classes t))
       ∧ (HATC.classes t = ∅ → HATC.river_predict_proba_one t x = Ok ∅)
       ∧ HATC.creme_predict_proba_one t x = HATC.softmax ∅
       ∧ (HATC.softmax ∅ = Ok ∅ → HATC.creme_predict_proba_one t x = Ok ∅)).
Proof.
  split.
  - intros data env x t. apply HTR_proofs.predict_one_empty.
  - intros data env x t Hroot.
    rewrite (HATC_proofs.river_predict_empty t x Hroot).
    rewrite (HATC_proofs.creme_predict_empty t x Hroot).
    split_and!; try done. intros ->. by rewrite gset_to_gmap_empty.
Qed.

(** The three predictions on trees that have never learnt. *)
Lemma empty_tree_prediction_witness :
  HTR._tree_root HTR.empty_tree = None
  ∧ HATC._tree_root HATC.empty_tree = None
  ∧ HATC.classes HATC.empty_tree = ∅
  ∧ HATC.softmax (Collaborators := HATC.demo_env) ∅ = Ok ∅
  ∧ (HTR.predict_one (env := HTR.demo_env [] 0.1) tt HTR.empty_tree).1 = Ok 0%float
  ∧ HATC.river_predict_proba_one (env := HATC.demo_env) HATC.empty_tree tt = Ok ∅
  ∧ HATC.creme_predict_proba_one (env := HATC.demo_env) HATC.empty_tree tt = Ok ∅.
Proof.
  destruct empty_tree_prediction as [Hreg Hcls].
  destruct (Hcls HATC.demo_data HATC.demo_env tt HATC.empty_tree eq_refl)
    as (_ & Hriver & _ & Hcreme).
  split_and!; [reflexivity..| | |].
  - by rewrite (Hreg HTR.demo_data (HTR.demo_env [] 0.1) tt HTR.empty_tree eq_refl).
  - exact (Hriver eq_refl).
  - exact (Hcreme eq_refl).
Defined.

End Interface_proofs.

(** ** The order of binary64 floats *)

Module FloatOrder.

Lemma SFltb_irrefl x : SFltb x x = false.
Proof.
  unfold SFltb.
  destruct x as [[|]|[|]| |[|] m e]; simpl; try reflexivity;
    rewrite Z.compare_refl, Pos.compare_cont_refl; reflexivity.
Qed.

Ltac order_cases e1 e2 e3 m1 m2 m3 :=
  destruct (Z.compare_spec e1 e2), (Z.compare_spec e2 e3); subst;
  try discriminate; try rewrite Z.compare_refl;
  repeat match goal with
  | H : (?a < ?b)%Z |- context [(?a ?= ?b)%Z] =>
      rewrite (proj2 (Z.compare_lt_iff a b) H)
  | H : (?b < ?a)%Z |- context [(?a ?= ?b)%Z] =>
      rewrite (proj2 (Z.compare_gt_iff a b) H)
  | H1 : (?a < ?b)%Z, H2 : (?b < ?c)%Z |- context [(?a ?= ?c)%Z] =>
      rewrite (proj2 (Z.compare_lt_iff a c) (Z.lt_trans _ _ _ H1 H2))
  | H1 : (?b < ?a)%Z, H2 : (?c < ?b)%Z |- context [(?a ?= ?c)%Z] =>
      rewrite (proj2 (Z.compare_gt_iff a c) (Z.lt_trans _ _ _ H2 H1))
  end; try (reflexivity || discriminate);
  fold (Pos.compare m1 m2); fold (Pos.compare m2 m3); fold (Pos.compare m1 m3);
  destruct (Pos.compare_spec m1 m2), (Pos.compare_spec m2 m3); subst; simpl;
  try discriminate; intros _ _;
  try rewrite Pos.compare_refl; try reflexivity;
  try (rewrite (proj2 (Pos.compare_lt_iff m1 m3)) by lia; reflexivity);
  try (rewrite (proj2 (Pos.compare_gt_iff m1 m3)) by lia; reflexivity).

Lemma SFltb_trans x y z : SFltb x y = true → SFltb y z = true → SFltb x z = true.
Proof.
  unfold SFltb.
  destruct x as [[|]|[|]| |[|] m1 e1], y as [[|]|[|]| |[|] m2 e2],
    z as [[|]|[|]| |[|] m3 e3]; simpl; try (reflexivity || discriminate);
    order_cases e1 e2 e3 m1 m2 m3.
Qed.

(** [x <= y <= z] gives [x <= z] when [y] is a number. *)
Lemma SFltb_neg_trans x y z :
  SFeqb y y = true → SFltb y x = false → SFltb z y = false → SFltb z x = false.
Proof.
  unfold SFltb, SFeqb.
  destruct x as [[|]|[|]| |[|] m1 e1], y as [[|]|[|]| |[|] m2 e2],
    z as [[|]|[|]| |[|] m3 e3]; simpl; try (reflexivity || discriminate);
    intros _.
  all: destruct (Z.compare_spec e2 e1), (Z.compare_spec e3 e2); subst;
    try discriminate; try rewrite Z.compare_refl;
    repeat match goal with
    | H : (?a < ?b)%Z |- context [(?a ?= ?b)%Z] =>
        rewrite (proj2 (Z.compare_lt_iff a b) H)
    | H : (?b < ?a)%Z |- context [(?a ?= ?b)%Z] =>
        rewrite (proj2 (Z.compare_gt_iff a b) H)
    | H1 : (?a < ?b)%Z, H2 : (?b < ?c)%Z |- context [(?a ?= ?c)%Z] =>
        rewrite (proj2 (Z.compare_lt_iff a c) (Z.lt_trans _ _ _ H1 H2))
    | H1 : (?b < ?a)%Z, H2 : (?c < ?b)%Z |- context [(?a ?= ?c)%Z] =>
        rewrite (proj2 (Z.compare_gt_iff a c) (Z.lt_trans _ _ _ H2 H1))
    end; try (reflexivity || discriminate).
  all: fold (Pos.compare m2 m1); fold (Pos.compare m3 m2); fold (Pos.compare m3 m1).
  all: destruct (Pos.compare_spec m2 m1), (Pos.compare_spec m3 m2); subst; simpl;
       try discriminate; intros _ _;
       try rewrite Pos.compare_refl; try reflexivity.
  all: try (rewrite (proj2 (Pos.compare_lt_iff m3 m1)) by lia; reflexivity).
  all: try (rewrite (proj2 (Pos.compare_gt_iff m3 m1)) by lia; reflexivity).
  all: try (match goal with H : (?a < ?b)%positive |- context [(?a ?= ?b)%positive] =>
        rewrite (proj2 (Pos.compare_lt_iff a b) H) end; reflexivity).
  all: try (match goal with H : (?b < ?a)%positive |- context [(?a ?= ?b)%positive] =>
        rewrite (proj2 (Pos.compare_gt_iff a b) H) end; reflexivity).
Qed.

Lemma ltb_irrefl x : (x <? x)%float = false.
Proof. rewrite FloatAxioms.ltb_spec. apply SFltb_irrefl. Qed.

Lemma ltb_trans x y z :
  (x <? y)%float = true → (y <? z)%float = true → (x <? z)%float = true.
Proof. rewrite !FloatAxioms.ltb_spec. apply SFltb_trans. Qed.

Lemma ltb_asym x y : (x <? y)%float = true → (y <? x)%float = false.
Proof.
  intros H. destruct (y <? x)%float eqn:H'; [|done].
  by rewrite <- (ltb_irrefl x), (ltb_trans x y x).
Qed.

Lemma ltb_neg_trans x y z :
  (y =? y)%float = true → (y <? x)%float = false → (z <? y)%float = false →
  (z <? x)%float = false.
Proof. rewrite !FloatAxioms.ltb_spec, FloatAxioms.eqb_spec. apply SFltb_neg_trans. Qed.

End FloatOrder.

(** ** Further properties of the HDDM_W detector *)

Module Detector_behaviour.

Import FloatFacts MonadFacts HDDM_W HDDM_W_proofs HDDM_W_notions.

Section Facts.

Context {ext : Externals}.

Lemma emptied_update v s o s' :
  emptied s → update v s = (Ok o, s') → o = (false, false).
Proof.
  intros (Ht & H1 & H2 & Hidle) Hu.
  destruct (update_stats v s) as [[[]|e] s1] eqn:Hs.
  2:{ rewrite update_unfold, Hs in Hu. done. }
  assert (decr_idle s1) as Hidle1.
  { replace s1 with (update_stats v s).2 by by rewrite Hs.
    by apply update_stats_idle. }
  destruct (update_stats_ok _ _ _ Hs) as [b Hb].
  rewrite (update_after_stats s v s1 b Hidle1 Hs Hb) in Hu.
  assert (monitor s1 (drift_confidence s1) = Ok false
          ∧ monitor s1 (warning_confidence s1) = Ok false) as [Hd Hw].
  { rewrite update_stats_unfold in Hs.
    unfold _update_incr_statistics in Hs. rewrite bind_unfold in Hs. simpl in Hs.
    rewrite bind_unfold in Hs. unfold lift in Hs.
    destruct (hoeffding_eps _ _) as [bound|]; [|done].
    unfold monitor, _detect_mean_increment.
    destruct (_ <? _)%float eqn:Hc in Hs.
    - injection Hs as <-. simpl. by rewrite !orb_true_r.
    - injection Hs as <-. simpl. rewrite H1. done. }
  rewrite Hd, Hw in Hu. by injection Hu as <- _.
Qed.

(** The first [update] after [reset()], and the first one after [__init__],
    signals neither a drift nor a warning, whatever the value and the
    parameters: one of the two monitors of the increase test is still
    uninitialised. *)
Theorem first_update_never_signals v :
  (∀ s0 o s', update v (reset s0) = (Ok o, s') → o = (false, false))
  ∧ (∀ dc wc lam ts o s',
       update v (init dc wc lam ts) = (Ok o, s') → o = (false, false)).
Proof.
  split.
  - intros s0 o s'. apply emptied_update.
    unfold emptied. split_and!; first [done | apply decr_idle_reset].
  - intros dc wc lam ts o s'. apply emptied_update.
    unfold emptied. split_and!; first [done | apply decr_idle_init].
Qed.

(** An [update] that signals a drift leaves the warning flag off and the
    detector emptied: [width] and [delay] are [0], [total] and the monitors of
    the increase test are new, the cut point is [inf], and [estimation] is the
    sentinel [-1.0] of an empty sample, not a mean. *)
Theorem drift_empties_detector s v w s' :
  reachable s → update v s = (Ok (true, w), s') →
  w = false
  ∧ width s' = 0%Z ∧ delay s' = 0%Z
  ∧ total s' = SampleInfo_new
  ∧ sample1_incr_monitor s' = SampleInfo_new
  ∧ sample2_incr_monitor s' = SampleInfo_new
  ∧ incr_cutpoint s' = infinity
  ∧ estimation s' = Some (-1.0)%float.
Proof.
  intros Hr Hu.
  destruct (update_stats v s) as [[[]|e] s1] eqn:Hs.
  2:{ rewrite update_unfold, Hs in Hu. done. }
  assert (decr_idle s1) as Hidle1.
  { replace s1 with (update_stats v s).2 by by rewrite Hs.
    by apply update_stats_idle, reachable_idle. }
  destruct (update_stats_ok _ _ _ Hs) as [b Hb].
  rewrite (update_after_stats s v s1 b Hidle1 Hs Hb) in Hu.
  destruct (monitor s1 (drift_confidence s1)) as [[|]|]; [| |done].
  - injection Hu as <- <-. done.
  - destruct (monitor s1 (warning_confidence s1)); done.
Qed.

(** With [drift_confidence == 0], [update] raises [ZeroDivisionError], from
    [1.0 / confidence] in [_update_incr_statistics], in every state and for
    every value; [width] and [total] have been updated by then. *)
Theorem zero_drift_confidence_raises s v :
  (drift_confidence s =? 0)%float = true →
  update v s = (Raise ZeroDivisionError, with_total v s).
Proof.
  intros H0. rewrite update_unfold, update_stats_unfold.
  unfold _update_incr_statistics. rewrite bind_unfold. simpl.
  rewrite bind_unfold. unfold lift, hoeffding_eps, py_div. by rewrite H0.
Qed.

Lemma counters_update v s :
  (0 ≤ delay s ≤ width s)%Z → (0 ≤ delay (update v s).2 ≤ width (update v s).2)%Z.
Proof.
  intros H.
  rewrite update_unfold, update_stats_unfold.
  assert (∀ s, (0 ≤ delay s ≤ width s)%Z →
               (0 ≤ delay (update_incr_flags s).2 ≤ width (update_incr_flags s).2)%Z)
    as Hflags.
  { intros s1 H1. rewrite update_incr_flags_unfold.
    destruct (monitor s1 (drift_confidence s1)) as [[|]|]; simpl; try done.
    destruct (monitor s1 (warning_confidence s1)) as [w|]; simpl; done. }
  assert (∀ s, (0 ≤ delay s ≤ width s)%Z →
               (0 ≤ delay (update_decr v s).2 ≤ width (update_decr v s).2)%Z)
    as Hdecr.
  { intros s1 H1.
    unfold update_decr, _update_decr_statistics, _monitor_mean_decr, lift.
    repeat (rewrite bind_unfold; simpl).
    destruct (hoeffding_eps _ _) as [eps|]; [|done].
    destruct (_ <? _)%float; simpl; repeat (rewrite bind_unfold; simpl);
      destruct (two_sided_test s1); simpl; repeat (rewrite bind_unfold; simpl);
      try destruct (_detect_mean_increment _ _ _) as [[|]|]; simpl; done. }
  assert (0 ≤ delay (_update_incr_statistics v (drift_confidence s) (with_total v s)).2
          ≤ width (_update_incr_statistics v (drift_confidence s) (with_total v s)).2)%Z
    as Hstats.
  { unfold _update_incr_statistics. rewrite bind_unfold. simpl.
    rewrite bind_unfold. unfold lift.
    destruct (hoeffding_eps _ _) as [bound|]; simpl; [|lia].
    destruct (_ <? _)%float; simpl; lia. }
  destruct (_update_incr_statistics _ _ _) as [[[]|e] s1]; simpl in *; [|done].
  specialize (Hflags s1 Hstats).
  destruct (update_incr_flags s1) as [[[]|e] s2]; simpl in *; [|done].
  specialize (Hdecr s2 Hflags).
  destruct (update_decr v s2) as [[[]|e] s3]; simpl in *; done.
Qed.

(** In every state a detector can reach, [delay] is not negative and not
    above [width]. *)
Theorem delay_within_width s : reachable s → (0 ≤ delay s ≤ width s)%Z.
Proof.
  induction 1 as [dc wc lam ts|v s Hr IH|s Hr IH]; simpl; [done| |done].
  by apply counters_update.
Qed.

Lemma update_two_sided b v s :
  decr_idle s →
  update v (set_two_sided_test b s)
  = ((update v s).1, set_two_sided_test b (update v s).2).
Proof.
  intros Hidle.
  assert (∀ s, update_stats v (set_two_sided_test b s)
               = ((update_stats v s).1, set_two_sided_test b (update_stats v s).2))
    as Hstats.
  { intros s1. rewrite !update_stats_unfold.
    unfold _update_incr_statistics. rewrite !bind_unfold. simpl.
    rewrite !bind_unfold. unfold lift.
    destruct (hoeffding_eps _ _) as [bound|]; simpl; [|done].
    destruct (_ <? _)%float; simpl; done. }
  assert (∀ s, update_incr_flags (set_two_sided_test b s)
               = ((update_incr_flags s).1,
                  set_two_sided_test b (update_incr_flags s).2)) as Hflags.
  { intros s1. rewrite !update_incr_flags_unfold. unfold monitor. simpl.
    destruct (_detect_mean_increment _ _ (drift_confidence s1)) as [[|]|]; try done.
    destruct (_detect_mean_increment _ _ (warning_confidence s1)) as [w|]; done. }
  assert (∀ s, decr_idle s →
               update_decr v (set_two_sided_test b s)
               = ((update_decr v s).1, set_two_sided_test b (update_decr v s).2))
    as Hdecr.
  { intros s1 H1. rewrite !update_decr_idle by done. simpl.
    destruct (hoeffding_eps _ _); done. }
  rewrite !update_unfold, Hstats.
  pose proof (update_stats_idle v s Hidle) as Hi1.
  destruct (update_stats v s) as [[[]|e] s1]; simpl in *; [|done].
  rewrite Hflags.
  pose proof (update_incr_flags_idle s1 Hi1) as Hi2.
  destruct (update_incr_flags s1) as [[[]|e] s2]; simpl in *; [|done].
  rewrite Hdecr by done.
  destruct (update_decr v s2) as [[[]|e] s3]; simpl in *; done.
Qed.

Lemma feed_two_sided b vs : ∀ s,
  decr_idle s →
  feed vs (set_two_sided_test b s)
  = ((feed vs s).1, set_two_sided_test b (feed vs s).2).
Proof.
  induction vs as [|v vs IH]; intros s Hidle; simpl; [done|].
  rewrite update_two_sided by done.
  pose proof (update_idle v s Hidle) as Hi.
  destruct (update v s) as [[o|e] s1]; simpl in *; [|done].
  rewrite IH by done. by destruct (feed vs s1) as [[os e] sf].
Qed.

(** A detector built with [two_sided_test=True] returns, on every sequence
    of values, what the detector built with [two_sided_test=False] returns,
    raises where it raises, and ends in the same state but for the flag
    itself: [decr_cutpoint] starts at [inf], so the decrease test never
    fires. *)
Theorem two_sided_test_is_inert dc wc lam vs :
  feed vs (init dc wc lam true)
  = ((feed vs (init dc wc lam false)).1,
     set_two_sided_test true (feed vs (init dc wc lam false)).2).
Proof.
  apply (feed_two_sided true vs (init dc wc lam false)), decr_idle_init.
Qed.

End Facts.

(** *** The properties on concrete detectors *)

#[local] Existing Instance reference.

(** The default detector is fed its first [1]; so is a detector that was
    reset after forty-seven values. *)
Lemma first_update_never_signals_witness :
  (update (ext := reference) 1 (reset (ext := reference) before_drift)).1
  = Ok (false, false)
  ∧ (update (ext := reference) 1 default_detector).1 = Ok (false, false).
Proof.
  destruct (first_update_never_signals (ext := reference) 1) as [Hreset Hinit].
  set (r := update (ext := reference) 1 (reset (ext := reference) before_drift)).
  set (o := match r.1 with Ok o => o | Raise _ => (true, true) end).
  assert (r = (Ok o, r.2)) as Hr by (vm_compute; reflexivity).
  set (r' := update (ext := reference) 1 default_detector).
  set (o' := match r'.1 with Ok o => o | Raise _ => (true, true) end).
  assert (r' = (Ok o', r'.2)) as Hr' by (vm_compute; reflexivity).
  split.
  - rewrite Hr. cbn [fst].
    by rewrite (Hreset before_drift o r.2 Hr).
  - rewrite Hr'. cbn [fst].
    by rewrite (Hinit 0.001%float 0.005%float 0.05%float false o' r'.2 Hr').
Defined.

(** The default detector signals a drift at the eighteenth [1] after thirty
    [0]s. *)
Lemma drift_empties_detector_witness :
  reachable (ext := reference) before_drift
  ∧ update (ext := reference) 1 before_drift = (Ok (true, false), at_drift)
  ∧ width at_drift = 0%Z
  ∧ estimation at_drift = Some (-1.0)%float.
Proof.
  pose proof before_drift_reachable as Hr.
  pose proof at_drift_signalled as Hu.
  destruct (drift_empties_detector (ext := reference) before_drift 1 false
              at_drift Hr Hu) as (_ & Hw & _ & _ & _ & _ & _ & He).
  split_and!; [exact Hr|exact Hu|exact Hw|exact He].
Defined.

(** [HDDM_W(drift_confidence=0.0).update(1)] *)
Lemma zero_drift_confidence_raises_witness :
  (drift_confidence zero_confidence_detector =? 0)%float = true
  ∧ (update (ext := reference) 1 zero_confidence_detector).1
    = Raise ZeroDivisionError
  ∧ width (update (ext := reference) 1 zero_confidence_detector).2 = 1%Z.
Proof.
  assert ((drift_confidence zero_confidence_detector =? 0)%float = true) as H0
    by reflexivity.
  rewrite (zero_drift_confidence_raises (ext := reference)
             zero_confidence_detector 1 H0).
  split_and!; [exact H0|reflexivity|reflexivity].
Defined.

(** After thirty [0]s and seventeen [1]s, the cut point last moved
    seventeen values ago. *)
Lemma delay_within_width_witness :
  reachable (ext := reference) before_drift
  ∧ (0 ≤ delay before_drift ≤ width before_drift)%Z
  ∧ delay before_drift = 17%Z ∧ width before_drift = 47%Z.
Proof.
  pose proof before_drift_reachable as Hr.
  split; [exact Hr|].
  split; [exact (delay_within_width before_drift Hr)|].
  split; vm_compute; reflexivity.
Defined.

End Detector_behaviour.

(** ** Further properties of the Hoeffding tree regressor *)

Module Split_candidates.

Import FloatFacts FloatOrder MonadFacts HTR HTR_proofs HTR_notions.

Section Facts.

Context {data : Data} {env : Collaborators}.

Lemma insert_by_merit_perm c l : insert_by_merit c l ≡ₚ c :: l.
Proof.
  induction l as [|d l IH]; simpl; [done|].
  destruct (merit d <? merit c)%float; [|done].
  rewrite IH. apply Permutation_swap.
Qed.

Lemma sort_by_merit_perm l : sort_by_merit l ≡ₚ l.
Proof.
  induction l as [|c l IH]; simpl; [done|].
  fold (sort_by_merit l). by rewrite insert_by_merit_perm, IH.
Qed.

Lemma insert_by_merit_sorted c l :
  Forall (λ d, is_number (merit d)) l →
  StronglySorted by_merit l → StronglySorted by_merit (insert_by_merit c l).
Proof.
  intros Hnum Hs. induction Hs as [|d l Hs IH Hd]; simpl.
  - repeat constructor.
  - apply Forall_cons in Hnum as [Hnd Hnum].
    destruct (merit d <? merit c)%float eqn:Hlt.
    + constructor; [by apply IH|].
      rewrite insert_by_merit_perm. constructor; [|done].
      by apply ltb_asym.
    + constructor; [by constructor|].
      constructor; [done|].
      eapply Forall_impl; [exact Hd|]. intros e He.
      by apply (ltb_neg_trans (merit c) (merit d) (merit e)).
Qed.

Lemma sort_by_merit_sorted l :
  Forall (λ d, is_number (merit d)) l → StronglySorted by_merit (sort_by_merit l).
Proof.
  induction l as [|c l IH]; simpl; intros Hnum; [constructor|].
  apply Forall_cons in Hnum as [_ Hnum]. fold (sort_by_merit l).
  apply insert_by_merit_sorted; [|by apply IH].
  by rewrite sort_by_merit_perm.
Qed.

(** On merits that are numbers, [list.sort] is the stable sort by merit. *)
Lemma list_sort_numbers l :
  Forall (λ c, is_number (merit c)) l → list_sort l = sort_by_merit l.
Proof.
  intros Hnum. unfold list_sort.
  assert (forallb (λ c, (merit c =? merit c)%float) l = true) as ->; [|done].
  induction Hnum as [|c l Hc Hnum IH]; simpl; [done|].
  rewrite IH, andb_true_r. exact Hc.
Qed.

Lemma sorted_last l winner :
  StronglySorted by_merit l → last l = Some winner →
  ∀ c, c ∈ l → (merit winner <? merit c)%float = false.
Proof.
  intros Hs. induction Hs as [|d l Hs IH Hd]; [done|].
  intros Hlast c Hc. destruct l as [|d' l'].
  - simpl in Hlast. injection Hlast as <-.
    apply list_elem_of_singleton in Hc as ->. apply ltb_irrefl.
  - change (last (d :: d' :: l')) with (last (d' :: l')) in Hlast.
    apply elem_of_cons in Hc as [->|Hc]; [|by apply IH].
    rewrite Forall_forall in Hd. apply Hd.
    by apply last_Some_elem_of.
Qed.

(** [_attempt_to_split] sorts the candidates by merit and takes the last
    one: the sorted list holds the candidates it was given, and when no merit
    is [NaN], no candidate has a merit above the one of the candidate
    taken; the list is then the one [list.sort] gives. *)
Theorem winner_has_greatest_merit l :
  sort_by_merit l ≡ₚ l
  ∧ (∀ winner,
      Forall (λ c, is_number (merit c)) l →
      last (sort_by_merit l) = Some winner →
      winner ∈ l ∧ ∀ c, c ∈ l → (merit winner <? merit c)%float = false)
  ∧ (Forall (λ c, is_number (merit c)) l → list_sort l = sort_by_merit l).
Proof.
  split_and!; [apply sort_by_merit_perm| |apply list_sort_numbers].
  intros winner Hnum Hlast. split.
  - rewrite <- (sort_by_merit_perm l). by apply last_Some_elem_of.
  - intros c Hc. apply (sorted_last (sort_by_merit l)); try done.
    + by apply sort_by_merit_sorted.
    + by rewrite sort_by_merit_perm.
Qed.

(** With [remove_poor_atts] set, two or more candidates and a best merit
    equal to [0], [_attempt_to_split] raises [ZeroDivisionError], from
    [best_ratio = second_best_suggestion.merit / best_suggestion.merit], and
    leaves the tree as it was. The best candidate is the last of the list as
    [list.sort] leaves it. *)
Theorem zero_merit_pruning_raises node parent parent_idx lf t best second hb :
  heap t !! node = Some (Leaf lf) →
  remove_poor_atts t = true →
  best_two (list_sort (get_best_split_suggestions lf t)) = Some (best, second) →
  _hoeffding_bound (get_range_of_merit (leaf_stats lf))
    (split_confidence t) (total_weight lf) = Ok hb →
  (merit best =? 0)%float = true →
  _attempt_to_split node parent parent_idx t = (Raise ZeroDivisionError, t).
Proof.
  intros Hnode Hrm Hbest Hhb Hzero.
  unfold _attempt_to_split. rewrite bind_unfold.
  rewrite (split_decision_unfold node lf t Hnode). cbv zeta.
  assert ((length (list_sort (get_best_split_suggestions lf t)) <? 2)%nat = false)
    as -> by (apply best_two_length; by rewrite Hbest).
  rewrite Hhb, Hbest, Hrm. unfold py_div. by rewrite Hzero.
Qed.

(** When the instance is sorted to a leaf at which neither a split attempt
    nor a deactivation is due, [learn_one] changes that leaf by the leaf's own
    [learn_one] and nothing else: no node is made, the root and the counters
    stay, and only the memory estimate may follow. *)
Theorem learn_one_between_attempts x y w t root l parent idx lf due :
  _tree_root t = Some root →
  filter_instance_to_leaf t root x = mkFound (Some l) parent idx →
  heap t !! l = Some (Leaf lf) →
  let lf' := leaf_learn_one x y w t lf in
  let t' := set_heap (<[l := Leaf lf']> (heap t)) t in
  no_attempt_due t lf' →
  memory_estimate_due t' = Ok due →
  learn_one x y w t
  = (Ok PyNone, if due then _estimate_model_size t' else t').
Proof.
  intros Hroot Hfound Hl lf' t' Hquiet Hdue.
  unfold learn_one. rewrite bind_unfold. simpl. rewrite Hroot.
  rewrite bind_unfold. simpl. rewrite bind_unfold. simpl. rewrite Hroot.
  rewrite bind_unfold. simpl. rewrite bind_unfold, Hfound. simpl.
  rewrite bind_unfold. unfold read_node at 1. rewrite Hl.
  rewrite bind_unfold, bind_unfold. simpl.
  rewrite bind_unfold, (update_leaf_ok l lf _ t Hl).
  fold lf'. fold t'.
  assert (heap t' !! l = Some (Leaf lf')) as Hl' by (apply lookup_insert_eq).
  rewrite bind_unfold. unfold read_leaf. rewrite bind_unfold.
  unfold read_node at 1. rewrite Hl'. simpl.
  rewrite bind_unfold. simpl.
  assert ((get ≫= λ t0 : tree, lift (memory_estimate_due t0)
            ≫= λ due0 : bool,
                 (if due0 then modify _estimate_model_size else mret ())
                 ≫= λ _ : (), mret PyNone) t'
          = (Ok PyNone, if due then _estimate_model_size t' else t')) as Hend.
  { rewrite bind_unfold. simpl. rewrite bind_unfold. unfold lift.
    rewrite Hdue. rewrite bind_unfold. by destruct due. }
  destruct Hquiet as [-> | [-> ->]]; [done|].
  by destruct (_growth_allowed t && leaf_active lf').
Qed.

End Facts.

(** *** The properties on concrete trees *)

(** With a [NaN] among the merits the sorted list is not ordered: of the
    merits [1], [0], [NaN], [0] and [2], taken in this order, the short list
    sort leaves the [NaN] before the last place, where the stable sort by
    merit does not, and [_attempt_to_split], whose second best merit is
    [NaN], does not split. *)
Lemma list_sort_nan_candidates :
  map suggestion_test (list_sort (env := demo_env [] 0.1) nan_candidates)
  = [Some "b"; Some "d"; Some "a"; Some "c"; Some "e"]
  ∧ map suggestion_test (sort_by_merit nan_candidates)
    = [Some "b"; Some "a"; Some "c"; Some "d"; Some "e"]
  ∧ _attempt_to_split (env := demo_env nan_candidates 0.1) 0%nat None (-1)
      (demo_tree false)
    = (Ok tt, demo_tree false).
Proof. split_and!; vm_compute; reflexivity. Qed.

(** Of the merits [0.1], [0.9] and [1], the last is taken. *)
Lemma winner_has_greatest_merit_witness :
  Forall (λ c, is_number (merit c)) three_candidates
  ∧ last (sort_by_merit three_candidates)
    = Some (mkSuggestion (data := demo_data) (Some "c") [3; 4]%Z 1%float)
  ∧ ∀ c, c ∈ three_candidates → (1 <? merit c)%float = false.
Proof.
  assert (Forall (λ c, is_number (merit c)) three_candidates) as Hnum.
  { repeat constructor. }
  assert (last (sort_by_merit three_candidates)
          = Some (mkSuggestion (data := demo_data) (Some "c") [3; 4]%Z 1%float))
    as Hlast by (vm_compute; reflexivity).
  destruct (winner_has_greatest_merit (env := demo_env three_candidates 0.1)
              three_candidates) as (_ & Hmax & _).
  destruct (Hmax _ Hnum Hlast) as [_ Hall].
  split_and!; [exact Hnum|exact Hlast|exact Hall].
Defined.

(** Two candidates of merit [0] at the root of a tree that removes poor
    attributes. *)
Lemma zero_merit_pruning_raises_witness :
  heap (demo_tree true) !! 0%nat = Some (Leaf demo_leaf)
  ∧ remove_poor_atts (demo_tree true) = true
  ∧ _attempt_to_split (env := demo_env zero_merits 0.1) 0%nat None (-1)
      (demo_tree true)
    = (Raise ZeroDivisionError, demo_tree true).
Proof.
  split_and!; [reflexivity..|].
  apply (zero_merit_pruning_raises (env := demo_env zero_merits 0.1)
           0%nat None (-1) demo_leaf (demo_tree true)
           (mkSuggestion (data := demo_data) (Some "b") [3; 4]%Z 0%float)
           (mkSuggestion (data := demo_data) (Some "a") [3; 4]%Z 0%float)
           0.1%float); reflexivity.
Defined.

(** The leaf has seen a weight of [200], the grace period is [300]. *)
Lemma learn_one_between_attempts_witness :
  no_attempt_due (env := demo_env clear_winner 0.1) patient_tree demo_leaf
  ∧ learn_one (env := demo_env clear_winner 0.1) tt tt 1 patient_tree
    = (Ok PyNone, patient_tree).
Proof.
  assert (no_attempt_due (env := demo_env clear_winner 0.1) patient_tree demo_leaf)
    as Hquiet.
  { right. split; reflexivity. }
  split; [exact Hquiet|].
  rewrite (learn_one_between_attempts (env := demo_env clear_winner 0.1)
             tt tt 1 patient_tree 0%nat 0%nat None (-1) demo_leaf false
             eq_refl eq_refl eq_refl Hquiet eq_refl).
  reflexivity.
Defined.

End Split_candidates.

(** ** Further properties of the chain models *)

Module Chain_invariants.

Import MonadFacts Chain Chain_proofs ChainSetup.

Section Facts.

Context {est : Estimators}.

Lemma assoc_get_set {V} k k' (v : V) d :
  assoc_get k' (assoc_set k v d) = if decide (k = k') then Some v else assoc_get k' d.
Proof.
  induction d as [|[k0 v0] d IH]; simpl.
  - by destruct (decide (k = k')).
  - destruct (decide (k0 = k)) as [->|Hne]; simpl.
    + by destruct (decide (k = k')).
    + destruct (decide (k0 = k')) as [->|Hne'].
      * by rewrite decide_False.
      * done.
Qed.

Lemma assoc_get_Some {V} k (d : list (key * V)) :
  is_Some (assoc_get k d) ↔ k ∈ d.*1.
Proof.
  induction d as [|[k0 v0] d IH]; csimpl.
  - split; [by intros [? ?]|by intros ?%elem_of_nil].
  - destruct (decide (k0 = k)) as [->|Hne].
    + split; [intros _; apply list_elem_of_here|by eauto].
    + rewrite IH. split; [by apply list_elem_of_further|].
      by intros [?|?]%elem_of_cons.
Qed.

Lemma assoc_set_keys_old {V} k (v : V) d :
  k ∈ d.*1 → (assoc_set k v d).*1 = d.*1.
Proof.
  induction d as [|[k0 v0] d IH]; csimpl; [by intros ?%elem_of_nil|].
  destruct (decide (k0 = k)) as [->|Hne]; [done|].
  intros [?|?]%elem_of_cons; [done|]. csimpl. by rewrite IH.
Qed.

Lemma assoc_set_keys_new {V} k (v : V) d :
  k ∉ d.*1 → (assoc_set k v d).*1 = d.*1 ++ [k].
Proof.
  induction d as [|[k0 v0] d IH]; csimpl; [done|].
  intros Hk. apply not_elem_of_cons in Hk as [Hne Hk].
  rewrite decide_False by done. csimpl. by rewrite IH.
Qed.

Lemma assoc_set_NoDup {V} k (v : V) d : NoDup d.*1 → NoDup (assoc_set k v d).*1.
Proof.
  intros Hd. destruct (decide (k ∈ d.*1)) as [Hin|Hout].
  - by rewrite assoc_set_keys_old.
  - rewrite assoc_set_keys_new by done.
    apply NoDup_app. split_and!; [done| |apply NoDup_singleton].
    intros x Hx ->%list_elem_of_singleton. done.
Qed.

Lemma init_models_spec (m : model) (os : list key) : ∀ d,
  NoDup d.*1 →
  let d' := foldl (λ d o, assoc_set o m d) d os in
  NoDup d'.*1
  ∧ (∀ o, o ∈ os → assoc_get o d' = Some m)
  ∧ (∀ o, o ∉ os → assoc_get o d' = assoc_get o d).
Proof.
  induction os as [|o os IH]; intros d Hd; simpl.
  - split_and!; [done| |done]. by intros o ?%elem_of_nil.
  - destruct (IH (assoc_set o m d)) as (H1 & H2 & H3); [by apply assoc_set_NoDup|].
    split_and!; [done| |].
    + intros o' Ho'. destruct (decide (o' ∈ os)) as [Hin|Hout]; [by apply H2|].
      apply elem_of_cons in Ho' as [->|?]; [|done].
      rewrite H3 by done. rewrite assoc_get_set. by rewrite decide_True.
    + intros o' Ho'. apply not_elem_of_cons in Ho' as [Hne Ho'].
      rewrite H3 by done. rewrite assoc_get_set. by rewrite decide_False.
Qed.

Lemma init_models_keys (m : model) (os : list key) :
  NoDup os → (foldl (λ d o, assoc_set o m d) [] os).*1 = os.
Proof.
  intros Hos.
  enough (∀ d, NoDup (d.*1 ++ os) →
               (foldl (λ d o, assoc_set o m d) d os).*1 = d.*1 ++ os) as H.
  { apply (H []). done. }
  clear Hos. induction os as [|o os IH]; intros d Hd; simpl.
  - by rewrite app_nil_r.
  - apply NoDup_app in Hd as (Hd1 & Hd2 & Hd3).
    rewrite IH.
    + rewrite assoc_set_keys_new; [by rewrite <- app_assoc|].
      intros Ho. apply (Hd2 o Ho). apply list_elem_of_here.
    + rewrite assoc_set_keys_new.
      * rewrite <- app_assoc. simpl. apply NoDup_app. split_and!; done.
      * intros Ho. apply (Hd2 o Ho). apply list_elem_of_here.
Qed.

(** *** What leaves the order and the outputs alone *)

Lemma keeps_chain_ret {A} (a : A) : keeps_chain (mret a).
Proof. done. Qed.

Lemma keeps_chain_raise {A} e : keeps_chain (raise (A := A) e).
Proof. done. Qed.

Lemma keeps_chain_get : keeps_chain get.
Proof. done. Qed.

Lemma keeps_chain_bind {A B} (m : M world A) (f : A → M world B) :
  keeps_chain m → (∀ a, keeps_chain (f a)) → keeps_chain (m ≫= f).
Proof.
  intros Hm Hf w. rewrite bind_unfold. specialize (Hm w).
  destruct (m w) as [[a|e] w']; simpl in *; [|done].
  destruct (Hf a w') as [-> ->]. done.
Qed.

Lemma keeps_chain_setitem x k v : keeps_chain (setitem x k v).
Proof. intros w. unfold setitem. by destruct (dicts w !! x). Qed.

Lemma keeps_chain_copy x : keeps_chain (copy_copy x).
Proof. intros w. unfold copy_copy. by destruct (dicts w !! x). Qed.

Lemma keeps_chain_getitem o : keeps_chain (getitem o).
Proof.
  apply keeps_chain_bind; [done|]. intros w. by destruct (assoc_get o (data w)).
Qed.

Lemma keeps_chain_call {A} o x
    (method : model → features → result A * model * features) :
  keeps_chain (call method o x).
Proof.
  intros w. unfold call.
  destruct (assoc_get o (data w)) as [m|] eqn:Hm; [|done].
  destruct (dicts w !! x); [|done].
  destruct (method _ _) as [[r m'] d']. simpl. split; [done|].
  unfold outputs. simpl. apply assoc_set_keys_old.
  apply assoc_get_Some. by rewrite Hm.
Qed.

Lemma keeps_chain_for_each {A} (l : list A) (body : A → M world unit) :
  (∀ a, keeps_chain (body a)) → keeps_chain (for_each l body).
Proof.
  intros Hbody. induction l as [|a l IH]; simpl; [done|].
  apply keeps_chain_bind; auto.
Qed.

Lemma keeps_chain_match_option {A B} (o : option B) (f : B → M world A) m :
  (∀ b, keeps_chain (f b)) → keeps_chain m →
  keeps_chain (match o with Some b => f b | None => m end).
Proof. by destruct o. Qed.

Lemma keeps_chain_if {A} (b : bool) (m1 m2 : M world A) :
  keeps_chain m1 → keeps_chain m2 → keeps_chain (if b then m1 else m2).
Proof. by destruct b. Qed.

Create HintDb chain.
#[local] Hint Resolve keeps_chain_ret keeps_chain_raise keeps_chain_get
  keeps_chain_setitem keeps_chain_getitem keeps_chain_call keeps_chain_copy
  keeps_chain_for_each keeps_chain_match_option keeps_chain_if : chain.
#[local] Hint Extern 2 (keeps_chain (_ ≫= _)) =>
  apply keeps_chain_bind; [|intros ?] : chain.
#[local] Hint Extern 3 (keeps_chain (let '(_, _) := ?p in _)) => destruct p : chain.
#[local] Hint Extern 1 (keeps_chain (λ _, _)) => progress simpl : chain.

Lemma keeps_chain_predict_proba_loop x os : ∀ y_pred,
  keeps_chain (predict_proba_loop x os y_pred).
Proof.
  induction os as [|o rest IH]; intros y_pred; simpl; eauto 10 with chain.
Qed.

Lemma keeps_chain_predict_loop x os : ∀ y_pred,
  keeps_chain (predict_loop x os y_pred).
Proof.
  induction os as [|o rest IH]; intros y_pred; simpl; eauto 10 with chain.
Qed.

Lemma infer_order_set y os : ∀ w,
  order w = Some os → infer_order y w = (Ok tt, w).
Proof. intros w Ho. unfold infer_order. rewrite bind_unfold. simpl. by rewrite Ho. Qed.

Lemma infer_order_unset y w :
  order w = None →
  infer_order y w
  = (Ok tt, set_data (foldl (λ d o, assoc_set o (chain_model w) d) (data w) y.*1)
              (set_order (Some y.*1) w)).
Proof. intros Ho. unfold infer_order. rewrite bind_unfold. simpl. by rewrite Ho. Qed.

Lemma infer_order_ok y w : (infer_order y w).1 = Ok tt.
Proof. unfold infer_order. rewrite bind_unfold. simpl. by destruct (order w). Qed.

(** The four operations after their first two statements. *)
Lemma after_infer_order op x :
  ∃ rest : M world unit,
    keeps_chain rest
    ∧ ∀ w, run op x w
           = match op with
             | ClassifierLearn y | RegressorLearn y =>
                 (rest (infer_order y w).2).2
             | _ => (rest w).2
             end.
Proof.
  destruct op as [y| |y|].
  - eexists (x ← copy_copy x; w ← get; for_each (default [] (order w)) _).
    split; cycle 1.
    + intros w. simpl. unfold ClassifierChain_learn_one. rewrite bind_unfold.
      pose proof (infer_order_ok y w) as Hok.
      destruct (infer_order y w) as [[[]|e] w1]; [|done]. simpl. reflexivity.
    + eauto 16 with chain.
  - exists (ClassifierChain_predict_proba_one x ≫= λ _, mret tt). split.
    + apply keeps_chain_bind; [|done].
      unfold ClassifierChain_predict_proba_one.
      apply keeps_chain_bind; [apply keeps_chain_copy|intros x'].
      apply keeps_chain_bind; [done|intros w'].
      destruct (order w'); [apply keeps_chain_predict_proba_loop|done].
    + intros w. simpl. rewrite bind_unfold.
      by destruct (ClassifierChain_predict_proba_one x w) as [[?|?] ?].
  - eexists (x ← copy_copy x; w ← get; for_each (default [] (order w)) _).
    split; cycle 1.
    + intros w. simpl. unfold RegressorChain_learn_one. rewrite bind_unfold.
      pose proof (infer_order_ok y w) as Hok.
      destruct (infer_order y w) as [[[]|e] w1]; [|done]. simpl. reflexivity.
    + eauto 16 with chain.
  - exists (RegressorChain_predict_one x ≫= λ _, mret tt). split.
    + apply keeps_chain_bind; [|done].
      unfold RegressorChain_predict_one.
      apply keeps_chain_bind; [apply keeps_chain_copy|intros x'].
      apply keeps_chain_bind; [done|intros w'].
      apply keeps_chain_predict_loop.
    + intros w. simpl. rewrite bind_unfold.
      by destruct (RegressorChain_predict_one x w) as [[?|?] ?].
Qed.

(** Once a chain has an order, [learn_one] and the prediction operation of
    both chain models leave the order and the outputs that have an estimator
    as they are, whether they return or raise: they only update the
    estimators. *)
Theorem chain_order_is_fixed op x w os :
  order w = Some os →
  order (run op x w) = Some os ∧ outputs (run op x w) = outputs w.
Proof.
  intros Ho. destruct (after_infer_order op x) as (rest & Hrest & ->).
  destruct op as [y| |y|]; try rewrite (infer_order_set y os w Ho); simpl;
    destruct (Hrest w) as [-> ->]; done.
Qed.

(** The first [learn_one] of a chain built without an order takes the order
    from the keys of the target, in their order, and gives each of them an
    estimator, also when the call raises later on. *)
Theorem first_learn_one_infers_order op y x w :
  op = ClassifierLearn y ∨ op = RegressorLearn y →
  order w = None → data w = [] → NoDup y.*1 →
  order (run op x w) = Some y.*1 ∧ outputs (run op x w) = y.*1.
Proof.
  intros Hop Ho Hd Hy. destruct (after_infer_order op x) as (rest & Hrest & ->).
  destruct Hop as [-> | ->]; rewrite (infer_order_unset y w Ho); simpl;
    match goal with |- context [rest ?w1] => destruct (Hrest w1) as [-> ->] end;
    simpl; (split; [done|]); unfold outputs; simpl; rewrite Hd;
    by apply init_models_keys.
Qed.

Lemma has_models_init_models w :
  NoDup (outputs w) → has_models (_init_models w).2.
Proof.
  intros Hd. unfold _init_models. rewrite bind_unfold. simpl.
  destruct (init_models_spec (chain_model w) (default [] (order w)) (data w) Hd)
    as (H1 & H2 & _).
  split; [done|]. simpl. intros os o Hos Ho. rewrite Hos in H2 |- *. simpl in *.
  by rewrite H2.
Qed.

(** A chain built by [__init__] has an estimator for each output of its
    order and no output twice, and the four operations keep it so: [self[o]]
    in their loops does not raise [KeyError]. *)
Theorem chain_has_a_model_per_output :
  (∀ m ord d, has_models (BaseChain_init m ord d))
  ∧ (∀ op x w, has_models w → has_models (run op x w)).
Proof.
  split.
  - intros m [os|] d; unfold BaseChain_init.
    + apply has_models_init_models. constructor.
    + split; [constructor|]. done.
  - intros op x w Hw. pose proof Hw as [Hnd Hm].
    destruct (after_infer_order op x) as (rest & Hrest & ->).
    assert (∀ w1, has_models w1 → has_models (rest w1).2) as Hkeep.
    { intros w1 [Hnd1 Hm1]. destruct (Hrest w1) as [Ho Hk]. split.
      - by rewrite Hk.
      - intros os o Hos. rewrite Ho in Hos. intros Hin.
        apply assoc_get_Some. fold (outputs (rest w1).2). rewrite Hk.
        unfold outputs. apply assoc_get_Some. by apply (Hm1 os). }
    assert (∀ y, has_models (infer_order y w).2) as Hinfer.
    { intros y. destruct (order w) as [os|] eqn:Ho.
      - by rewrite (infer_order_set y os w Ho).
      - rewrite (infer_order_unset y w Ho).
        change (has_models (_init_models (set_order (Some y.*1) w)).2).
        by apply has_models_init_models. }
    destruct op as [y| |y|]; apply Hkeep; try apply Hinfer; done.
Qed.

(** *** A target without one of the outputs *)

Lemma for_each_raises {A} (l : list A) (body : A → M world unit) a :
  a ∈ l → (∀ w, is_ok (body a w).1 = false) →
  ∀ w, is_ok (for_each l body w).1 = false.
Proof.
  intros Ha Hbody. induction l as [|b l IH]; [by apply elem_of_nil in Ha|].
  intros w. simpl. rewrite bind_unfold.
  apply elem_of_cons in Ha as [->|Ha].
  - specialize (Hbody w). by destruct (body b w) as [[[]|e] w1].
  - destruct (body b w) as [[[]|e] w1]; [by apply IH|done].
Qed.

(** When an output of the order is not a key of the target [y], [learn_one]
    of both chain models does not return: [y[o]] raises [KeyError], if
    nothing has raised before. *)
Theorem learn_one_needs_every_target y x w os o :
  order w = Some os → o ∈ os → assoc_get o y = None →
  is_ok (ClassifierChain_learn_one x y w).1 = false
  ∧ is_ok (RegressorChain_learn_one x y w).1 = false.
Proof.
  intros Ho Hin Hy. split.
  - unfold ClassifierChain_learn_one. rewrite bind_unfold.
    rewrite (infer_order_set y os w Ho). rewrite bind_unfold.
    destruct (copy_copy x w) as [[x'|e] w1] eqn:Hc; [|done].
    assert (order w1 = Some os) as Ho1.
    { destruct (keeps_chain_copy x w) as [Hk _]. rewrite Hc in Hk. simpl in Hk.
      by rewrite Hk. }
    rewrite bind_unfold. simpl. rewrite Ho1. simpl.
    apply for_each_raises with o; [done|]. intros w2.
    rewrite bind_unfold.
    destruct (getitem o w2) as [[clf|e] w3]; [|done].
    rewrite bind_unfold.
    destruct (call clf_predict_proba_one o x' w3) as [[p|e] w4]; [|done].
    rewrite bind_unfold, Hy. done.
  - unfold RegressorChain_learn_one. rewrite bind_unfold.
    rewrite (infer_order_set y os w Ho). rewrite bind_unfold.
    destruct (copy_copy x w) as [[x'|e] w1] eqn:Hc; [|done].
    assert (order w1 = Some os) as Ho1.
    { destruct (keeps_chain_copy x w) as [Hk _]. rewrite Hc in Hk. simpl in Hk.
      by rewrite Hk. }
    rewrite bind_unfold. simpl. rewrite Ho1. simpl.
    apply for_each_raises with o; [done|]. intros w2.
    rewrite bind_unfold.
    destruct (getitem o w2) as [[clf|e] w3]; [|done].
    rewrite bind_unfold.
    destruct (call reg_predict_one o x' w3) as [[p|e] w4]; [|done].
    rewrite bind_unfold, Hy. done.
Qed.

(** *** The predictions of a chain of regressors *)

Lemma predict_loop_keys x os : ∀ y_pred w r w',
  predict_loop x os y_pred w = (Ok r, w') →
  NoDup (y_pred.*1 ++ os) → r.*1 = y_pred.*1 ++ os.
Proof.
  induction os as [|o os IH]; intros y_pred w r w' Hr Hnd; simpl in Hr.
  - injection Hr as <- _. by rewrite app_nil_r.
  - rewrite bind_unfold in Hr.
    destruct (call reg_predict_one o x w) as [[p|e] w1]; [|done].
    rewrite bind_unfold in Hr.
    destruct (setitem x o (VFloat p) w1) as [[[]|e] w2]; [|done].
    apply NoDup_app in Hnd as (Hd1 & Hd2 & Hd3).
    assert (o ∉ y_pred.*1) as Ho.
    { intros Ho. apply (Hd2 o Ho). apply list_elem_of_here. }
    apply IH in Hr.
    + rewrite Hr, assoc_set_keys_new by done. by rewrite <- app_assoc.
    + rewrite assoc_set_keys_new by done. rewrite <- app_assoc. simpl.
      apply NoDup_app. split_and!; done.
Qed.

(** [RegressorChain.predict_one], when it returns, returns one prediction
    for each output that has an estimator, in the order of the chain. *)
Theorem predict_one_covers_the_chain x w y_pred w' :
  NoDup (outputs w) →
  RegressorChain_predict_one x w = (Ok y_pred, w') →
  y_pred.*1 = outputs w.
Proof.
  intros Hnd Hr. unfold RegressorChain_predict_one in Hr.
  rewrite bind_unfold in Hr.
  destruct (copy_copy x w) as [[x'|e] w1] eqn:Hc; [|done].
  rewrite bind_unfold in Hr. simpl in Hr.
  assert (outputs w1 = outputs w) as Hk.
  { destruct (keeps_chain_copy x w) as [_ Hk]. by rewrite Hc in Hk. }
  apply predict_loop_keys in Hr; [by rewrite Hr|].
  simpl. fold (outputs w1). by rewrite Hk.
Qed.

(** *** A chain that has not learnt yet *)

(** On a chain built without an order and not trained yet, both prediction
    operations return the empty dict; they ask no estimator, and all they
    leave behind is the copy of [x]. *)
Theorem prediction_before_learning m d x f :
  let w := BaseChain_init m None d in
  d !! x = Some f →
  ClassifierChain_predict_proba_one x w
  = (Ok [], set_dicts (<[fresh (dom d) := f]> d) w)
  ∧ RegressorChain_predict_one x w
    = (Ok [], set_dicts (<[fresh (dom d) := f]> d) w).
Proof.
  intros w Hx. unfold ClassifierChain_predict_proba_one, RegressorChain_predict_one.
  rewrite !bind_unfold. unfold copy_copy. simpl. by rewrite Hx.
Qed.

End Facts.

(** *** The properties on concrete chains *)

(** The chain over the outputs [0] and [1] learns from a target with both. *)
Lemma chain_order_is_fixed_witness :
  order demo_world = Some [KInt 0; KInt 1]
  ∧ order (run (est := demo_estimators)
             (RegressorLearn (est := demo_estimators) [(KInt 0, 5%Z); (KInt 1, 6%Z)])
             0%nat demo_world) = Some [KInt 0; KInt 1]
  ∧ outputs (run (est := demo_estimators)
               (RegressorLearn (est := demo_estimators) [(KInt 0, 5%Z); (KInt 1, 6%Z)])
               0%nat demo_world) = [KInt 0; KInt 1].
Proof.
  destruct (chain_order_is_fixed (est := demo_estimators)
              (RegressorLearn (est := demo_estimators) [(KInt 0, 5%Z); (KInt 1, 6%Z)])
              0%nat demo_world [KInt 0; KInt 1] eq_refl) as [Ho Hk].
  split_and!; [reflexivity|exact Ho|exact Hk].
Defined.

(** A new chain learns from a target with the keys [1] and [0], in that
    order. *)
Lemma first_learn_one_infers_order_witness :
  order new_chain = None ∧ data new_chain = []
  ∧ NoDup [KInt 1; KInt 0]
  ∧ order (run (est := demo_estimators)
             (ClassifierLearn (est := demo_estimators) [(KInt 1, 5%Z); (KInt 0, 6%Z)])
             0%nat new_chain) = Some [KInt 1; KInt 0]
  ∧ outputs (run (est := demo_estimators)
               (ClassifierLearn (est := demo_estimators) [(KInt 1, 5%Z); (KInt 0, 6%Z)])
               0%nat new_chain) = [KInt 1; KInt 0].
Proof.
  assert (NoDup [KInt 1; KInt 0]) as Hnd.
  { apply NoDup_cons. split; [by intros ?%list_elem_of_singleton|].
    apply NoDup_singleton. }
  destruct (first_learn_one_infers_order (est := demo_estimators)
              (ClassifierLearn (est := demo_estimators) [(KInt 1, 5%Z); (KInt 0, 6%Z)])
              [(KInt 1, 5%Z); (KInt 0, 6%Z)] 0%nat new_chain
              (or_introl eq_refl) eq_refl eq_refl Hnd) as [Ho Hk].
  split_and!; [reflexivity|reflexivity|exact Hnd|exact Ho|exact Hk].
Defined.

(** The chain of the examples, before and after a prediction. *)
Lemma chain_has_a_model_per_output_witness :
  has_models demo_world
  ∧ has_models (run (est := demo_estimators)
                  (RegressorPredict (est := demo_estimators)) 0%nat demo_world).
Proof.
  destruct (chain_has_a_model_per_output (est := demo_estimators)) as [_ Hkeep].
  assert (has_models demo_world) as Hw.
  { split.
    - apply NoDup_cons. split; [by intros ?%list_elem_of_singleton|].
      apply NoDup_singleton.
    - intros os o [= <-] Ho. apply elem_of_cons in Ho as [->|Ho]; [by eexists|].
      apply list_elem_of_singleton in Ho as ->. by eexists. }
  split; [exact Hw|].
  exact (Hkeep (RegressorPredict (est := demo_estimators)) 0%nat demo_world Hw).
Defined.

(** The target has no value for the output [1]. *)
Lemma learn_one_needs_every_target_witness :
  order demo_world = Some [KInt 0; KInt 1]
  ∧ KInt 1 ∈ [KInt 0; KInt 1]
  ∧ assoc_get (KInt 1) [(KInt 0, 5%Z)] = None
  ∧ (RegressorChain_learn_one (est := demo_estimators) 0%nat [(KInt 0, 5%Z)]
       demo_world).1 = Raise KeyError.
Proof.
  assert (KInt 1 ∈ [KInt 0; KInt 1]) as Hin.
  { apply list_elem_of_further, list_elem_of_here. }
  destruct (learn_one_needs_every_target (est := demo_estimators)
              [(KInt 0, 5%Z)] 0%nat demo_world [KInt 0; KInt 1] (KInt 1)
              eq_refl Hin eq_refl) as [_ Hreg].
  split_and!; [reflexivity|exact Hin|reflexivity|].
  destruct (RegressorChain_learn_one (est := demo_estimators) 0%nat
              [(KInt 0, 5%Z)] demo_world).1 as [[]|e] eqn:He; [done|].
  f_equal. vm_compute in He. by injection He as <-.
Defined.

(** The chain over the outputs [0] and [1] predicts both. *)
Lemma predict_one_covers_the_chain_witness :
  NoDup (outputs demo_world)
  ∧ (RegressorChain_predict_one (est := demo_estimators) 0%nat demo_world).1
    = Ok [(KInt 0, 1%float); (KInt 1, 1%float)].
Proof.
  assert (NoDup (outputs demo_world)) as Hnd.
  { apply NoDup_cons. split; [by intros ?%list_elem_of_singleton|].
    apply NoDup_singleton. }
  set (r := RegressorChain_predict_one (est := demo_estimators) 0%nat demo_world).
  set (p := match r.1 with Ok p => p | Raise _ => [] end).
  assert (r = (Ok p, r.2)) as Hr by (vm_compute; reflexivity).
  pose proof (predict_one_covers_the_chain (est := demo_estimators)
                0%nat demo_world p r.2 Hnd Hr) as Hkeys.
  split; [exact Hnd|]. rewrite Hr. reflexivity.
Defined.

(** A new chain is asked for its predictions. *)
Lemma prediction_before_learning_witness :
  (ClassifierChain_predict_proba_one (est := demo_estimators) 0%nat new_chain).1
  = Ok []
  ∧ (RegressorChain_predict_one (est := demo_estimators) 0%nat new_chain).1
    = Ok [].
Proof.
  assert (({[ 0%nat := {[ KStr "a" := VFloat 2 ]} ]} : gmap loc features) !! 0%nat
          = Some {[ KStr "a" := VFloat 2 ]}) as Hx by apply lookup_singleton_eq.
  destruct (prediction_before_learning (est := demo_estimators) 0%Z
              {[ 0%nat := {[ KStr "a" := VFloat 2 ]} ]} 0%nat
              {[ KStr "a" := VFloat 2 ]} Hx) as [Hc Hr].
  split.
  - unfold new_chain. by rewrite Hc.
  - unfold new_chain. by rewrite Hr.
Defined.

End Chain_invariants.

(** ** Properties of the Gaussian observer *)

Module GaussianObserver_proofs.

Import FloatFacts FloatOrder GaussianObserver.

Section Dicts.
Context {K V : Type} `{EqDecision K}.

Lemma dict_get_set k k' (v : V) (d : dict K V) :
  dict_get k' (dict_set k v d) = if decide (k = k') then Some v else dict_get k' d.
Proof.
  induction d as [|[k0 v0] d IH]; simpl.
  - by destruct (decide (k = k')).
  - destruct (decide (k0 = k)) as [->|Hne]; simpl.
    + by destruct (decide (k = k')).
    + destruct (decide (k0 = k')) as [->|Hne'].
      * by rewrite decide_False.
      * done.
Qed.

Lemma dict_get_Some k (d : dict K V) : is_Some (dict_get k d) ↔ k ∈ d.*1.
Proof.
  induction d as [|[k0 v0] d IH]; csimpl.
  - split; [by intros [? ?]|by intros ?%elem_of_nil].
  - destruct (decide (k0 = k)) as [->|Hne].
    + split; [intros _; apply list_elem_of_here|by eauto].
    + rewrite IH. split; [by apply list_elem_of_further|].
      by intros [?|?]%elem_of_cons.
Qed.

Lemma dict_get_None k (d : dict K V) : dict_get k d = None ↔ k ∉ d.*1.
Proof.
  rewrite <- dict_get_Some. split.
  - intros -> [? ?]. done.
  - intros Hn. destruct (dict_get k d); [|done]. destruct Hn. by eexists.
Qed.

Lemma dict_set_keys_old k (v : V) (d : dict K V) :
  k ∈ d.*1 → (dict_set k v d).*1 = d.*1.
Proof.
  induction d as [|[k0 v0] d IH]; csimpl; [by intros ?%elem_of_nil|].
  destruct (decide (k0 = k)) as [->|Hne]; [done|].
  intros [?|?]%elem_of_cons; [done|]. csimpl. by rewrite IH.
Qed.

Lemma dict_set_keys_new k (v : V) (d : dict K V) :
  k ∉ d.*1 → (dict_set k v d).*1 = d.*1 ++ [k].
Proof.
  induction d as [|[k0 v0] d IH]; csimpl; [done|].
  intros Hk. apply not_elem_of_cons in Hk as [Hne Hk].
  rewrite decide_False by done. csimpl. by rewrite IH.
Qed.

Lemma dict_set_elem_of k k' (v : V) (d : dict K V) :
  k' ∈ (dict_set k v d).*1 ↔ k' = k ∨ k' ∈ d.*1.
Proof.
  rewrite <- !dict_get_Some, dict_get_set.
  destruct (decide (k = k')) as [->|Hne].
  - split; [by left|by eauto].
  - split; [by right|]. by intros [->|?].
Qed.

End Dicts.

Section Facts.
Context {ext : Externals}.

(** *** The keys of the three dicts *)

Lemma update_known v c w o m M d :
  dict_get c (_att_dist_per_class o) = Some d →
  dict_get c (_min_per_class o) = Some m →
  dict_get c (_max_per_class o) = Some M →
  update (Some v) c w o
  = mkObserver
      (if (v <? m)%float then dict_set c v (_min_per_class o) else _min_per_class o)
      (if (M <? v)%float then dict_set c v (_max_per_class o) else _max_per_class o)
      (dict_set c (estimator_update d v w) (_att_dist_per_class o))
      (n_bins o).
Proof.
  intros Hd Hm HM. unfold update, update_try. rewrite Hd, Hm.
  destruct (v <? m)%float; simpl; rewrite HM; destruct (M <? v)%float; done.
Qed.

Lemma update_new v c w o :
  dict_get c (_att_dist_per_class o) = None →
  update (Some v) c w o
  = mkObserver (dict_set c v (_min_per_class o)) (dict_set c v (_max_per_class o))
      (dict_set c (estimator_update Gaussian v w)
         (dict_set c Gaussian (_att_dist_per_class o)))
      (n_bins o).
Proof. intros Hd. unfold update, update_try. by rewrite Hd. Qed.

Lemma aligned_get c o :
  aligned o →
  (c ∈ classes o → ∃ d m M,
      dict_get c (_att_dist_per_class o) = Some d
      ∧ dict_get c (_min_per_class o) = Some m
      ∧ dict_get c (_max_per_class o) = Some M)
  ∧ (c ∉ classes o →
      dict_get c (_att_dist_per_class o) = None
      ∧ dict_get c (_min_per_class o) = None
      ∧ dict_get c (_max_per_class o) = None).
Proof.
  intros [Hmin Hmax]. split; intros Hc.
  - destruct (proj2 (dict_get_Some c (_att_dist_per_class o)) Hc) as [d Hd].
    destruct (proj2 (dict_get_Some c (_min_per_class o))) as [m Hm];
      [by rewrite Hmin|].
    destruct (proj2 (dict_get_Some c (_max_per_class o))) as [M HM];
      [by rewrite Hmax|].
    by exists d, m, M.
  - split_and!; apply dict_get_None; by rewrite ?Hmin, ?Hmax.
Qed.

Lemma aligned_update e o :
  aligned o → aligned (update e.1.1 e.1.2 e.2 o).
Proof.
  destruct e as [[[v|] c] w]; cbn [fst snd]; [|done]. intros Ha.
  pose proof Ha as [Hmin Hmax].
  destruct (decide (c ∈ classes o)) as [Hc|Hc].
  - destruct (proj1 (aligned_get c o Ha) Hc) as (d & m & M & Hd & Hm & HM).
    rewrite (update_known v c w o m M d Hd Hm HM).
    unfold aligned, classes. simpl.
    rewrite (dict_set_keys_old c _ (_att_dist_per_class o)) by done.
    split.
    + destruct (v <? m)%float; [|done].
      rewrite dict_set_keys_old; [done|by rewrite Hmin].
    + destruct (M <? v)%float; [|done].
      rewrite dict_set_keys_old; [done|by rewrite Hmax].
  - destruct (proj2 (aligned_get c o Ha) Hc) as (Hd & Hm & HM).
    rewrite (update_new v c w o Hd).
    unfold aligned, classes. simpl.
    rewrite (dict_set_keys_old c _ (dict_set c Gaussian _)).
    2:{ apply dict_set_elem_of. by left. }
    rewrite !dict_set_keys_new;
      [by rewrite Hmin, Hmax|by rewrite Hmax|done|by rewrite Hmin].
Qed.

Lemma aligned_observe h : ∀ o, aligned o → aligned (observe h o).
Proof.
  induction h as [|e h IH]; intros o Ha; simpl; [done|].
  by apply IH, aligned_update.
Qed.

Lemma aligned_init n : aligned (init n).
Proof. done. Qed.

(** *** The class distributions of a binary split *)

Lemma split_loop_spec o v : aligned o → ∀ items lhs rhs,
  (∀ k, k ∈ items.*1 → k ∈ classes o) →
  ∃ lhs' rhs',
    split_loop items o v lhs rhs = Returns (lhs', rhs')
    ∧ ∀ k, k ∈ lhs'.*1 ∨ k ∈ rhs'.*1
           ↔ k ∈ lhs.*1 ∨ k ∈ rhs.*1 ∨ k ∈ items.*1.
Proof.
  intros Ha. induction items as [|[k e] items IH]; intros lhs rhs Hin.
  - exists lhs, rhs. split; [done|]. intros k. csimpl. rewrite elem_of_nil. tauto.
  - destruct (proj1 (aligned_get k o Ha)) as (d & m & M & Hd & Hm & HM).
    { apply Hin. csimpl. apply list_elem_of_here. }
    assert (∀ k', k' ∈ items.*1 → k' ∈ classes o) as Hin'.
    { intros k' Hk'. apply Hin. csimpl. by apply list_elem_of_further. }
    simpl. unfold getitem. rewrite Hm, HM. simpl.
    destruct (v <? m)%float; [|destruct (M <=? v)%float].
    + destruct (IH lhs (dict_set k (n_samples e) rhs) Hin') as (l' & r' & -> & Hk).
      exists l', r'. split; [done|]. intros k'. rewrite Hk, dict_set_elem_of.
      csimpl. rewrite elem_of_cons. tauto.
    + destruct (IH (dict_set k (n_samples e) lhs) rhs Hin') as (l' & r' & -> & Hk).
      exists l', r'. split; [done|]. intros k'. rewrite Hk, dict_set_elem_of.
      csimpl. rewrite elem_of_cons. tauto.
    + destruct (IH (dict_set k (cdf e v * n_samples e)%float lhs)
                  (dict_set k (n_samples e - cdf e v * n_samples e)%float rhs) Hin')
        as (l' & r' & -> & Hk).
      exists l', r'. split; [done|]. intros k'. rewrite Hk, !dict_set_elem_of.
      csimpl. rewrite elem_of_cons. tauto.
Qed.

(** On an observer built by [__init__] and fed by [update],
    [get_class_dists_from_binary_split] returns for every split value: no
    lookup raises [KeyError], and each class seen so far, and no other, is a
    key of the left or of the right distribution. *)
Theorem class_dists_cover_the_classes h n v :
  let o := observe h (init n) in
  ∃ lhs rhs,
    get_class_dists_from_binary_split v o = Returns [lhs; rhs]
    ∧ ∀ k, k ∈ lhs.*1 ∨ k ∈ rhs.*1 ↔ k ∈ classes o.
Proof.
  intros o.
  assert (aligned o) as Ha by apply aligned_observe, aligned_init.
  destruct (split_loop_spec o v Ha (_att_dist_per_class o) [] []) as
    (lhs & rhs & Hs & Hk); [done|].
  exists lhs, rhs. unfold get_class_dists_from_binary_split. rewrite Hs.
  split; [done|]. intros k. rewrite Hk. csimpl. rewrite elem_of_nil.
  unfold classes. tauto.
Qed.

(** *** The least and the greatest value of a class *)

Lemma values_of_snoc c h e :
  values_of c (h ++ [e])
  = values_of c h ++ (if decide (e.1.2 = c) then option_list e.1.1 else []).
Proof.
  unfold values_of. rewrite omap_app. f_equal. simpl.
  destruct (decide (e.1.2 = c)); [|done]. by destruct e.1.1.
Qed.

Lemma observe_snoc h e o :
  observe (h ++ [e]) o = update e.1.1 e.1.2 e.2 (observe h o).
Proof. unfold observe. by rewrite foldl_app. Qed.

Lemma classes_update_other v c c' w o :
  c' ≠ c →
  (c ∈ classes (update (Some v) c' w o) ↔ c ∈ classes o)
  ∧ dict_get c (_min_per_class (update (Some v) c' w o))
    = dict_get c (_min_per_class o)
  ∧ dict_get c (_max_per_class (update (Some v) c' w o))
    = dict_get c (_max_per_class o).
Proof.
  intros Hne. unfold update, update_try.
  destruct (dict_get c' (_att_dist_per_class o)) as [d|]; simpl.
  2:{ unfold classes. simpl. rewrite !dict_set_elem_of, !dict_get_set.
      rewrite !decide_False by done. split_and!; [|done..].
      split; [by intros [?|[?|?]]|by eauto]. }
  destruct (dict_get c' (_min_per_class o)) as [m|]; simpl.
  2:{ unfold classes. simpl. rewrite !dict_set_elem_of, !dict_get_set.
      rewrite !decide_False by done. split_and!; [|done..].
      split; [by intros [?|[?|?]]|by eauto]. }
  destruct (v <? m)%float; simpl.
  - destruct (dict_get c' (_max_per_class o)) as [M|]; simpl.
    2:{ unfold classes. simpl. rewrite !dict_set_elem_of, !dict_get_set.
        rewrite !decide_False by done. split_and!; [|done..].
        split; [by intros [?|[?|?]]|by eauto]. }
    destruct (M <? v)%float; unfold classes; simpl;
      rewrite !dict_set_elem_of, ?dict_get_set, ?decide_False by done;
      (split_and!; [|done..]); (split; [by intros [?|?]|by eauto]).
  - destruct (dict_get c' (_max_per_class o)) as [M|]; simpl.
    2:{ unfold classes. simpl. rewrite !dict_set_elem_of, !dict_get_set.
        rewrite !decide_False by done. split_and!; [|done..].
        split; [by intros [?|[?|?]]|by eauto]. }
    destruct (M <? v)%float; unfold classes; simpl;
      rewrite !dict_set_elem_of, ?dict_get_set, ?decide_False by done;
      (split_and!; [|done..]); (split; [by intros [?|?]|by eauto]).
Qed.

Lemma bracket_update c S e o :
  bracket c S o →
  bracket c (S ++ (if decide (e.1.2 = c) then option_list e.1.1 else []))
    (update e.1.1 e.1.2 e.2 o).
Proof.
  intros (Ha & Hc & Hb). unfold bracket.
  split; [by apply aligned_update|].
  destruct e as [[[v|] c'] w]; cbn [fst snd].
  2:{ destruct (decide (c' = c)); simpl; by rewrite app_nil_r. }
  destruct (decide (c' = c)) as [->|Hne].
  - change (option_list (Some v)) with [v].
    destruct (decide (c ∈ classes o)) as [Hin|Hout].
    + destruct (proj1 (aligned_get c o Ha) Hin) as (d & m0 & M0 & Hd & Hm & HM).
      destruct (Hb (proj1 Hc Hin)) as (m & M & Hm' & HM' & HmS & HMS & Hall).
      rewrite Hm in Hm'. rewrite HM in HM'. simplify_eq.
      rewrite (update_known v c w o m M d Hd Hm HM). split.
      * unfold classes. simpl. rewrite dict_set_elem_of.
        split; [intros _|by left]. by destruct S.
      * intros _. simpl.
        exists (if (v <? m)%float then v else m), (if (M <? v)%float then v else M).
        split_and!.
        -- destruct (v <? m)%float; [|done]. rewrite dict_get_set.
           by rewrite decide_True.
        -- destruct (M <? v)%float; [|done]. rewrite dict_get_set.
           by rewrite decide_True.
        -- destruct (v <? m)%float; rewrite elem_of_app, list_elem_of_singleton; auto.
        -- destruct (M <? v)%float; rewrite elem_of_app, list_elem_of_singleton; auto.
        -- intros u [Hu| ->%list_elem_of_singleton]%elem_of_app.
           ++ destruct (Hall u Hu) as [Hlo Hhi]. split.
              ** destruct (v <? m)%float eqn:Hv; [|done].
                 destruct (u <? v)%float eqn:Hu'; [|done].
                 by rewrite (ltb_trans u v m) in Hlo.
              ** destruct (M <? v)%float eqn:Hv; [|done].
                 destruct (v <? u)%float eqn:Hu'; [|done].
                 by rewrite (ltb_trans M v u) in Hhi.
           ++ split.
              ** destruct (v <? m)%float eqn:Hv; [apply ltb_irrefl|done].
              ** destruct (M <? v)%float eqn:Hv; [apply ltb_irrefl|done].
    + destruct (proj2 (aligned_get c o Ha) Hout) as (Hd & Hm & HM).
      assert (S = []) as ->.
      { destruct S; [done|]. destruct Hout. by apply Hc. }
      rewrite (update_new v c w o Hd). simpl. split.
      * unfold classes. simpl. rewrite !dict_set_elem_of. split; [done|by left].
      * intros _. exists v, v. rewrite !dict_get_set, !decide_True by done.
        split_and!; try done; try apply list_elem_of_here.
        intros u ->%list_elem_of_singleton. split; apply ltb_irrefl.
  - rewrite app_nil_r.
    destruct (classes_update_other v c c' w o Hne) as (H1 & H2 & H3).
    rewrite H1, H2, H3. done.
Qed.

Lemma bracket_observe c h n : bracket c (values_of c h) (observe h (init n)).
Proof.
  induction h as [|e h IH] using rev_ind.
  - unfold bracket. split_and!; [done| |done]. unfold classes. simpl.
    by rewrite elem_of_nil.
  - rewrite values_of_snoc, observe_snoc. by apply bracket_update.
Qed.

(** After any calls of [update], a class is known to the observer when a
    value of it was given, and [_min_per_class] and [_max_per_class] then
    hold two of the values given for the class, none of which is below the
    first or above the second. *)
Theorem least_and_greatest_value_of_a_class h n c :
  let o := observe h (init n) in
  (c ∈ classes o ↔ values_of c h ≠ [])
  ∧ (values_of c h ≠ [] →
     ∃ m M,
       dict_get c (_min_per_class o) = Some m
       ∧ dict_get c (_max_per_class o) = Some M
       ∧ m ∈ values_of c h ∧ M ∈ values_of c h
       ∧ ∀ v, v ∈ values_of c h → (v <? m)%float = false ∧ (M <? v)%float = false).
Proof. intros o. by destruct (bracket_observe c h n) as (_ & H1 & H2). Qed.

(** *** The split points *)

Lemma values_of_observed c h v : v ∈ values_of c h → v ∈ observed_values h.
Proof.
  unfold values_of, observed_values. rewrite !list_elem_of_omap.
  intros (e & He & Hv). exists e. split; [done|].
  by destruct (decide (e.1.2 = c)).
Qed.

Lemma n_bins_update e o : n_bins (update e.1.1 e.1.2 e.2 o) = n_bins o.
Proof.
  destruct e as [[[v|] c] w]; cbn [fst snd]; [|done].
  unfold update, update_try.
  destruct (dict_get c (_att_dist_per_class o)); [|done].
  destruct (dict_get c (_min_per_class o)) as [m|]; [|done].
  destruct (v <? m)%float; simpl;
    (destruct (dict_get c (_max_per_class o)) as [M|]; [|done]);
    by destruct (M <? v)%float.
Qed.

Lemma n_bins_observe h : ∀ o, n_bins (observe h o) = n_bins o.
Proof.
  induction h as [|e h IH]; intros o; simpl; [done|].
  fold (observe h (update e.1.1 e.1.2 e.2 o)). by rewrite IH, n_bins_update.
Qed.

Lemma observe_nothing h : ∀ o, observed_values h = [] → observe h o = o.
Proof.
  induction h as [|[[[v|] c] w] h IH]; intros o Hh; simpl; [done|done|].
  by apply IH.
Qed.

Lemma ltb_neg_infinity v : (v <? neg_infinity)%float = false.
Proof.
  rewrite FloatAxioms.ltb_spec.
  change (Prim2SF neg_infinity) with (S754_infinity true).
  destruct (Prim2SF v) as [[|]|[|]| |[|] m e]; reflexivity.
Qed.

Lemma value_range_spec o : aligned o → ∀ items lo0 hi0,
  (∀ k, k ∈ items.*1 → k ∈ classes o) →
  ∃ lo hi,
    value_range items o lo0 hi0 = Returns (lo, hi)
    ∧ (lo = lo0 ∨ ∃ k, k ∈ items.*1 ∧ dict_get k (_min_per_class o) = Some lo)
    ∧ (hi = hi0 ∨ ∃ k, k ∈ items.*1 ∧ dict_get k (_max_per_class o) = Some hi).
Proof.
  intros Ha. induction items as [|[k e] items IH]; intros lo0 hi0 Hin.
  - exists lo0, hi0. split_and!; [done|by left..].
  - destruct (proj1 (aligned_get k o Ha)) as (d & m & M & Hd & Hm & HM).
    { apply Hin. csimpl. apply list_elem_of_here. }
    assert (∀ k', k' ∈ items.*1 → k' ∈ classes o) as Hin'.
    { intros k' Hk'. apply Hin. csimpl. by apply list_elem_of_further. }
    simpl. unfold getitem. rewrite Hm, HM. simpl.
    destruct (IH (if (m <? lo0)%float then m else lo0)
                (if (hi0 <? M)%float then M else hi0) Hin')
      as (lo & hi & -> & Hlo & Hhi).
    exists lo, hi. split_and!; [done| |].
    + destruct Hlo as [->|(k' & Hk' & Hget)].
      * destruct (m <? lo0)%float; [|by left].
        right. exists k. split; [csimpl; apply list_elem_of_here|done].
      * right. exists k'. split; [csimpl; by apply list_elem_of_further|done].
    + destruct Hhi as [->|(k' & Hk' & Hget)].
      * destruct (hi0 <? M)%float; [|by left].
        right. exists k. split; [csimpl; apply list_elem_of_here|done].
      * right. exists k'. split; [csimpl; by apply list_elem_of_further|done].
Qed.

Lemma SortedList_add_elem_of u v l : u ∈ SortedList_add v l ↔ u = v ∨ u ∈ l.
Proof.
  induction l as [|a l IH]; simpl.
  - rewrite list_elem_of_singleton, elem_of_nil. tauto.
  - destruct (v <? a)%float.
    + by rewrite elem_of_cons.
    + rewrite !elem_of_cons, IH. tauto.
Qed.

Lemma SortedList_add_length v l : length (SortedList_add v l) = S (length l).
Proof.
  induction l as [|a l IH]; simpl; [done|].
  destruct (v <? a)%float; simpl; by rewrite ?IH.
Qed.

Lemma bin_values_spec lo hi bs : ∀ r acc l,
  bin_values r lo hi bs acc = Returns l →
  length l ≤ length acc + length r
  ∧ ∀ u, u ∈ l → u ∈ acc ∨ ((lo <? u)%float = true ∧ (u <? hi)%float = true).
Proof.
  induction r as [|i r IH]; intros acc l Hl; simpl in Hl.
  - injection Hl as <-. split; [lia|by left].
  - destruct (float_of_int (i + 1)) as [f|]; [|done]. simpl in Hl.
    apply IH in Hl as [Hlen Hin].
    destruct ((lo <? lo + bs * f) && (lo + bs * f <? hi))%float eqn:Hc.
    + apply andb_prop in Hc as [Hc1 Hc2].
      rewrite SortedList_add_length in Hlen. split; [simpl; lia|].
      intros u Hu. destruct (Hin u Hu) as [Hacc|?]; [|by right].
      apply SortedList_add_elem_of in Hacc as [->|?]; [by right|by left].
    + split; [simpl; lia|done].
Qed.

Lemma range_length n : Z.of_nat (length (range n)) = Z.max 0 n.
Proof. unfold range. rewrite length_fmap, length_seq. lia. Qed.

(** [get_split_point_suggestions] suggests nothing while no value has been
    observed, whatever [n_bins] is; when it returns, it suggests at most
    [n_bins] values, each strictly between two observed values. *)
Theorem split_points_between_observed_values h n :
  let o := observe h (init n) in
  (observed_values h = [] → get_split_point_suggestions o = Returns [])
  ∧ ∀ l, get_split_point_suggestions o = Returns l →
         (Z.of_nat (length l) ≤ Z.max 0 n)%Z
         ∧ ∀ v, v ∈ l →
                ∃ a b, a ∈ observed_values h ∧ b ∈ observed_values h
                       ∧ (a <? v)%float = true ∧ (v <? b)%float = true.
Proof.
  intros o. split.
  - intros Hh. unfold o. rewrite observe_nothing by done. reflexivity.
  - intros l Hl.
    assert (aligned o) as Ha by apply aligned_observe, aligned_init.
    assert (n_bins o = n) as Hn by apply n_bins_observe.
    unfold get_split_point_suggestions in Hl.
    destruct (value_range_spec o Ha (_att_dist_per_class o) infinity neg_infinity)
      as (lo & hi & Hr & Hlo & Hhi); [done|].
    rewrite Hr in Hl. simpl in Hl.
    destruct (lo <? infinity)%float eqn:Hinf.
    2:{ injection Hl as <-. split; [simpl; lia|]. by intros v ?%elem_of_nil. }
    destruct (float_of_int (n_bins o)) as [f|]; [|done]. simpl in Hl.
    destruct (py_div _ _) as [bs|]; [|done]. simpl in Hl.
    apply bin_values_spec in Hl as [Hlen Hin]. split.
    { rewrite <- Hn, <- range_length. simpl in Hlen. lia. }
    intros v Hv. destruct (Hin v Hv) as [?%elem_of_nil|[Hv1 Hv2]]; [done|].
    assert (∀ k m, k ∈ classes o → dict_get k (_min_per_class o) = Some m →
                   m ∈ observed_values h) as Hmin.
    { intros k m Hk Hm.
      destruct (bracket_observe k h n) as (_ & Hc & Hb).
      destruct (Hb (proj1 Hc Hk)) as (m' & M' & Hm' & _ & HmS & _).
      fold o in Hm'. rewrite Hm in Hm'. injection Hm' as <-.
      by apply (values_of_observed k). }
    assert (∀ k M, k ∈ classes o → dict_get k (_max_per_class o) = Some M →
                   M ∈ observed_values h) as Hmax.
    { intros k M Hk HM.
      destruct (bracket_observe k h n) as (_ & Hc & Hb).
      destruct (Hb (proj1 Hc Hk)) as (m' & M' & _ & HM' & _ & HMS & _).
      fold o in HM'. rewrite HM in HM'. injection HM' as <-.
      by apply (values_of_observed k). }
    exists lo, hi. split_and!; try done.
    + destruct Hlo as [->|(k & Hk & Hget)]; [by rewrite ltb_irrefl in Hinf|].
      by apply (Hmin k).
    + destruct Hhi as [->|(k & Hk & Hget)]; [by rewrite ltb_neg_infinity in Hv2|].
      by apply (Hmax k).
Qed.

(** *** The best split *)

Lemma best_loop_spec c pre att o : ∀ values seen best r,
  best_loop c pre att values o best = Returns r →
  (best = None ↔ seen = []) →
  (∀ s, best = Some s →
     test_att_idx s = att ∧ test_equal_passes s = true
     ∧ test_split_value s ∈ seen
     ∧ get_class_dists_from_binary_split (test_split_value s) o
       = Returns (resulting_class_distributions s)
     ∧ merit s = get_merit_of_split c pre (resulting_class_distributions s)
     ∧ ∀ v post, v ∈ seen →
         get_class_dists_from_binary_split v o = Returns post →
         (merit s <? get_merit_of_split c pre post)%float = false) →
  (r = None ↔ seen ++ values = [])
  ∧ ∀ s, r = Some s →
     test_att_idx s = att ∧ test_equal_passes s = true
     ∧ test_split_value s ∈ seen ++ values
     ∧ get_class_dists_from_binary_split (test_split_value s) o
       = Returns (resulting_class_distributions s)
     ∧ merit s = get_merit_of_split c pre (resulting_class_distributions s)
     ∧ ∀ v post, v ∈ seen ++ values →
         get_class_dists_from_binary_split v o = Returns post →
         (merit s <? get_merit_of_split c pre post)%float = false.
Proof.
  induction values as [|v values IH]; intros seen best r Hr Hnone Hbest.
  - simpl in Hr. injection Hr as <-. rewrite app_nil_r. by split.
  - simpl in Hr.
    destruct (get_class_dists_from_binary_split v o) as [post|] eqn:Hpost; [|done].
    simpl in Hr.
    replace (seen ++ v :: values) with ((seen ++ [v]) ++ values)
      by by rewrite <- app_assoc.
    apply (IH (seen ++ [v])) in Hr; [done| |].
    + split; [|by destruct seen]. destruct best as [b|]; [|done].
      by destruct (merit b <? _)%float.
    + intros s Hs. destruct best as [b|].
      * destruct (Hbest b eq_refl) as (H1 & H2 & H3 & H4 & H5 & H6).
        destruct (merit b <? get_merit_of_split c pre post)%float eqn:Hlt.
        -- injection Hs as <-. simpl. split_and!; try done.
           { apply elem_of_app. right. apply list_elem_of_here. }
           intros u pu [Hu| ->%list_elem_of_singleton]%elem_of_app Hpu.
           ++ specialize (H6 u pu Hu Hpu).
              destruct (get_merit_of_split c pre post
                        <? get_merit_of_split c pre pu)%float eqn:Hu'; [|done].
              by rewrite (ltb_trans _ _ _ Hlt Hu') in H6.
           ++ rewrite Hpost in Hpu. injection Hpu as <-. apply ltb_irrefl.
        -- injection Hs as <-. split_and!; try done.
           { apply elem_of_app. by left. }
           intros u pu [Hu| ->%list_elem_of_singleton]%elem_of_app Hpu.
           ++ by apply (H6 u pu).
           ++ rewrite Hpost in Hpu. by injection Hpu as <-.
      * injection Hs as <-. simpl.
        assert (seen = []) as -> by by apply Hnone.
        split_and!; try done.
        { apply list_elem_of_here. }
        intros u pu ->%list_elem_of_singleton Hpu.
        rewrite Hpost in Hpu. injection Hpu as <-. apply ltb_irrefl.
Qed.

(** [get_best_evaluated_split_suggestion] returns [None] exactly when no
    split point is suggested; otherwise it returns a test of the attribute at
    one of the suggested points, values equal to it passing, with the
    distributions and the merit of that point, and no suggested point has a
    merit above it. *)
Theorem best_suggestion_has_greatest_merit c pre att binary_only o values r :
  get_split_point_suggestions o = Returns values →
  get_best_evaluated_split_suggestion c pre att binary_only o = Returns r →
  (r = None ↔ values = [])
  ∧ ∀ s, r = Some s →
     test_att_idx s = att ∧ test_equal_passes s = true
     ∧ test_split_value s ∈ values
     ∧ get_class_dists_from_binary_split (test_split_value s) o
       = Returns (resulting_class_distributions s)
     ∧ merit s = get_merit_of_split c pre (resulting_class_distributions s)
     ∧ ∀ v post, v ∈ values →
         get_class_dists_from_binary_split v o = Returns post →
         (merit s <? get_merit_of_split c pre post)%float = false.
Proof.
  intros Hv Hr. unfold get_best_evaluated_split_suggestion in Hr.
  rewrite Hv in Hr. simpl in Hr.
  by apply (best_loop_spec c pre att o values [] None r) in Hr.
Qed.

End Facts.

(** *** The properties on a concrete observer *)

(** The class [true] has seen [1] and [5]. *)
Lemma least_and_greatest_value_of_a_class_witness :
  values_of (ext := demo) true demo_history = [1%float; 5%float]
  ∧ dict_get true (_min_per_class demo_observer) = Some 1%float
  ∧ dict_get true (_max_per_class demo_observer) = Some 5%float.
Proof.
  destruct (least_and_greatest_value_of_a_class (ext := demo) demo_history 3 true)
    as [_ Hb].
  destruct Hb as (m & M & Hm & HM & _); [done|].
  assert (m = 1%float) as Hm1 by (vm_compute in Hm; by injection Hm).
  assert (M = 5%float) as HM1 by (vm_compute in HM; by injection HM).
  subst m M. split_and!; [reflexivity|exact Hm|exact HM].
Defined.

(** With three bins between [1] and [5], the points [2], [3] and [4] are
    suggested. *)
Lemma split_points_between_observed_values_witness :
  get_split_point_suggestions demo_observer
  = Returns [2%float; 3%float; 4%float]
  ∧ ∀ v, v ∈ [2%float; 3%float; 4%float] →
         ∃ a b, a ∈ observed_values (ext := demo) demo_history
                ∧ b ∈ observed_values (ext := demo) demo_history
                ∧ (a <? v)%float = true ∧ (v <? b)%float = true.
Proof.
  assert (get_split_point_suggestions demo_observer
          = Returns [2%float; 3%float; 4%float]) as Hl by (vm_compute; reflexivity).
  destruct (split_points_between_observed_values (ext := demo) demo_history 3)
    as [_ Hin].
  destruct (Hin _ Hl) as [_ Hall].
  split; [exact Hl|exact Hall].
Defined.

(** The merit is [1] at the point [2] and [2] at the points [3] and [4]:
    the first of the two best is returned. *)
Lemma best_suggestion_has_greatest_merit_witness :
  get_split_point_suggestions demo_observer
  = Returns [2%float; 3%float; 4%float]
  ∧ ∃ s, get_best_evaluated_split_suggestion (ext := demo) tt tt 7%Z true
           demo_observer = Returns (Some s)
         ∧ test_att_idx s = 7%Z ∧ test_split_value s = 3%float
         ∧ merit s = 2%float.
Proof.
  assert (get_split_point_suggestions demo_observer
          = Returns [2%float; 3%float; 4%float]) as Hl by (vm_compute; reflexivity).
  set (r := get_best_evaluated_split_suggestion (ext := demo) tt tt 7%Z true
              demo_observer).
  set (b := match r with Returns b => b | Raises _ => None end).
  assert (r = Returns b) as Hr by (vm_compute; reflexivity).
  destruct (best_suggestion_has_greatest_merit (ext := demo) tt tt 7%Z true
              demo_observer _ b Hl Hr) as [_ Hbest].
  set (s := default (mkSuggestion (ext := demo) 0%Z 0%float false [] 0%float) b).
  assert (b = Some s) as Hb by (vm_compute; reflexivity).
  destruct (Hbest s Hb) as (Hatt & _).
  split; [exact Hl|]. exists s. rewrite Hr, Hb.
  split_and!; [reflexivity|exact Hatt|vm_compute; reflexivity..].
Defined.

End GaussianObserver_proofs.

(** ** Properties of the leaves of the adaptive classifier *)

Module AdaptiveLeaves_proofs.

Import MonadFacts AdaptiveLeaves.

Section Facts.

Context {data : Data}.

Lemma replace_leaf old st parent branch active t :
  heap t !! old = Some st →
  is_place t parent →
  let new_leaf := fresh (dom (heap t)) in
  let leaf :=
    if active : bool
    then AdaLearningNode (node_stats st) (depth_at t parent branch)
           (adwin_confidence t) (random_state t)
    else InactiveLearningNodeMC (node_stats st) (depth_at t parent branch) in
  ∃ t',
    (old0 ← read_node old;
     new_leaf ← _new_learning_node (Some (node_stats old0)) parent active;
     put_in_place new_leaf parent branch) t = (Ok tt, t')
    ∧ heap t' !! new_leaf = Some leaf
    ∧ node_at t' parent branch = Some new_leaf
    ∧ is_place t' parent
    ∧ depth_at t' parent branch = depth_at t parent branch
    ∧ _n_active_leaves t' = _n_active_leaves t
    ∧ _n_inactive_leaves t' = _n_inactive_leaves t
    ∧ adwin_confidence t' = adwin_confidence t
    ∧ random_state t' = random_state t.
Proof.
  intros Hold Hplace new_leaf leaf. subst leaf.
  assert (new_leaf ∉ dom (heap t)) as Hfresh by apply is_fresh.
  rewrite bind_unfold. unfold read_node at 1. rewrite Hold.
  rewrite bind_unfold. unfold _new_learning_node.
  destruct parent as [p|].
  - destruct Hplace as (test & pst & d & a & r & cs & alt & Hp).
    assert (p ≠ new_leaf) as Hne.
    { intros ->. apply Hfresh. by apply elem_of_dom. }
    rewrite bind_unfold. rewrite bind_unfold. unfold read_node at 1.
    rewrite Hp. simpl. rewrite bind_unfold. simpl.
    unfold put_in_place, depth_at, node_at. rewrite Hp. simpl.
    destruct (decide (branch = -999)%Z) as [->|Hb].
    + destruct active; simpl; unfold alloc; simpl; fold new_leaf;
        rewrite bind_unfold; unfold read_node at 1; simpl;
        rewrite lookup_insert_eq; rewrite bind_unfold; simpl;
        unfold set_alternate_tree; rewrite bind_unfold;
        unfold read_node at 1; simpl;
        rewrite lookup_insert_ne, lookup_insert_ne, Hp by done; simpl;
        eexists; (split; [reflexivity|]); simpl;
        rewrite lookup_insert_eq; simpl;
        rewrite lookup_insert_ne, lookup_insert_eq by done;
        replace (d + 1 - 1)%Z with d by lia;
        split_and!; try done; repeat eexists.
    + destruct active; simpl; unfold alloc; simpl; fold new_leaf;
        unfold set_child; rewrite bind_unfold; unfold read_node at 1; simpl;
        rewrite lookup_insert_ne, Hp by done; simpl;
        eexists; (split; [reflexivity|]); simpl;
        rewrite lookup_insert_eq; simpl;
        rewrite lookup_insert_ne, lookup_insert_eq by done;
        rewrite ?lookup_insert_eq;
        split_and!; try done; repeat eexists.
  - rewrite bind_unfold. simpl. rewrite bind_unfold. simpl.
    destruct active; simpl; unfold alloc; simpl; fold new_leaf;
      eexists; (split; [reflexivity|]); simpl; rewrite lookup_insert_eq; done.
Qed.

(** [_deactivate_leaf] puts a new inactive leaf with the statistics of the
    old one where the old one stood, and [_activate_leaf] on that leaf puts a
    new active leaf there: after the two, the counters of active and inactive
    leaves have their first values, and the leaf is one level below its
    parent, at the level of its parent when it is the parent's alternate
    tree, and at level [0] at the root. *)
Theorem deactivate_then_activate leaf parent branch t n :
  heap t !! leaf = Some n →
  is_place t parent →
  ∃ inactive active t1 t2,
    _deactivate_leaf leaf parent branch t = (Ok tt, t1)
    ∧ node_at t1 parent branch = Some inactive
    ∧ heap t1 !! inactive
      = Some (InactiveLearningNodeMC (node_stats n) (depth_at t parent branch))
    ∧ _n_active_leaves t1 = (_n_active_leaves t - 1)%Z
    ∧ _n_inactive_leaves t1 = (_n_inactive_leaves t + 1)%Z
    ∧ _activate_leaf inactive parent branch t1 = (Ok tt, t2)
    ∧ node_at t2 parent branch = Some active
    ∧ heap t2 !! active
      = Some (AdaLearningNode (node_stats n) (depth_at t parent branch)
                (adwin_confidence t) (random_state t))
    ∧ _n_active_leaves t2 = _n_active_leaves t
    ∧ _n_inactive_leaves t2 = _n_inactive_leaves t.
Proof.
  intros Hleaf Hplace.
  destruct (replace_leaf leaf n parent branch false t Hleaf Hplace)
    as (t1 & Hrun1 & Hnew1 & Hat1 & Hplace1 & Hd1 & Ha1 & Hi1 & Hc1 & Hr1).
  cbv zeta in *.
  set (t1' := set_n_inactive_leaves (_n_inactive_leaves t1 + 1)
                (set_n_active_leaves (_n_active_leaves t1 - 1) t1)).
  assert (_deactivate_leaf leaf parent branch t = (Ok tt, t1')) as Hdeact.
  { unfold _deactivate_leaf.
    rewrite bind_unfold in Hrun1 |- *.
    destruct (read_node leaf t) as [[old|e] t0]; [|done].
    rewrite bind_unfold in Hrun1 |- *.
    destruct (_new_learning_node _ parent false t0) as [[l|e] t0']; [|done].
    rewrite bind_unfold, Hrun1. done. }
  assert (heap t1' = heap t1) as Hheap by done.
  assert (is_place t1' parent) as Hplace1' by done.
  destruct (replace_leaf (fresh (dom (heap t)))
              (InactiveLearningNodeMC (node_stats n) (depth_at t parent branch))
              parent branch true t1')
    as (t2 & Hrun2 & Hnew2 & Hat2 & _ & _ & Ha2 & Hi2 & _); [done..|].
  cbv zeta in *.
  set (t2' := set_n_inactive_leaves (_n_inactive_leaves t2 - 1)
                (set_n_active_leaves (_n_active_leaves t2 + 1) t2)).
  assert (_activate_leaf (fresh (dom (heap t))) parent branch t1' = (Ok tt, t2'))
    as Hact.
  { unfold _activate_leaf.
    rewrite bind_unfold in Hrun2 |- *.
    destruct (read_node _ t1') as [[old|e] t0]; [|done].
    rewrite bind_unfold in Hrun2 |- *.
    destruct (_new_learning_node _ parent true t0) as [[l|e] t0']; [|done].
    rewrite bind_unfold, Hrun2. done. }
  exists (fresh (dom (heap t))), (fresh (dom (heap t1'))), t1', t2'.
  split_and!; try done.
  - simpl. lia.
  - simpl. lia.
  - unfold t2', t1' in *. simpl in *. rewrite Hnew2.
    change (depth_at (set_n_inactive_leaves _ (set_n_active_leaves _ t1)) parent branch)
      with (depth_at t1 parent branch).
    by rewrite Hd1, Hc1, Hr1.
  - simpl. rewrite Ha2. simpl. lia.
  - simpl. rewrite Hi2. simpl. lia.
Qed.

End Facts.

(** *** The property on a concrete tree *)

(** The leaf on the branch [0] of the root is switched off and on again. *)
Lemma deactivate_then_activate_witness :
  heap demo_tree !! 1%nat = Some (AdaLearningNode (data := demo_data) 4%Z 1 0.002 tt)
  ∧ is_place demo_tree (Some 0%nat)
  ∧ ∃ t1 t2 active,
      _deactivate_leaf 1%nat (Some 0%nat) 0 demo_tree = (Ok tt, t1)
      ∧ _n_inactive_leaves t1 = 1%Z
      ∧ node_at t2 (Some 0%nat) 0 = Some active
      ∧ heap t2 !! active
        = Some (AdaLearningNode (data := demo_data) 4%Z 1 0.002 tt)
      ∧ _n_active_leaves t2 = 1%Z ∧ _n_inactive_leaves t2 = 0%Z.
Proof.
  assert (is_place demo_tree (Some 0%nat)) as Hplace.
  { simpl. by eexists _, _, _, _, _, _, _. }
  split_and!; [reflexivity|exact Hplace|].
  destruct (deactivate_then_activate 1%nat (Some 0%nat) 0%Z demo_tree
              (AdaLearningNode (data := demo_data) 4%Z 1 0.002 tt)
              eq_refl Hplace)
    as (inactive & active & t1 & t2 & Hd & _ & _ & _ & Hi1 & _ & Hat & Hh & Ha2 & Hi2).
  exists t1, t2, active.
  split_and!; [exact Hd|exact Hi1|exact Hat|exact Hh|exact Ha2|exact Hi2].
Defined.

End AdaptiveLeaves_proofs.
